(** * irc-cah: the game session of app/controllers/game.js

    A shallow embedding of the [Game] object of [app/controllers/game.js],
    of the [Player] model and of the command handlers of
    [app/controllers/games.js], and the properties of the session state
    machine stated by the specification.

    Conventions of the embedding.
    - JavaScript objects that are shared by reference ([Player] objects are
      held by the roster, by [self.czar], by the entries of [self.points]
      and by [card.owner]) live in a heap indexed by a player reference
      [pid]; every holder stores the reference.
    - Numbers that the source increments without initialising them
      ([player.inactiveRounds], [self.idleCounts[nick]]) are [jsnum]s:
      [undefined], [NaN] or an integer.
    - An uncaught JavaScript exception is the result [Crash].
    - [new Date()] is the argument [now] (milliseconds) of the operation
      that reads the clock; [Math.random] and [_.shuffle] draw from the
      [entropy] field of the session.
    - [self.say], [self.pm] and [client.say] append an [Event] to [out];
      the text of a message is kept as a constructor of [Msg] with the
      values the source interpolates. [console.log] is dropped.
    - Return values that no caller reads are not modelled. *)

From stdpp Require Import gmap strings list fin_maps.
From Stdlib Require Import ZArith Lia Permutation.

Open Scope Z_scope.

(** ** JavaScript numbers held in counters *)

Inductive jsnum : Type :=
| JUndefined
| JNaN
| JNum (z : Z).

(** [v++] : [undefined] and [NaN] both become [NaN]. *)
Definition js_incr (v : jsnum) : jsnum :=
  match v with
  | JNum z => JNum (z + 1)
  | _ => JNaN
  end.

(** [v >= k] : any comparison with [undefined] or [NaN] is false. *)
Definition js_ge (v : jsnum) (k : Z) : bool :=
  match v with
  | JNum z => k <=? z
  | _ => false
  end.

(** Reading a property of an object used as a map. *)
Definition js_get (m : gmap string jsnum) (k : string) : jsnum :=
  default JUndefined (m !! k).

(** ** Results of operations that may throw *)

Inductive result (A : Type) : Type :=
| Ok (a : A)
| Crash
| OutOfFuel.

Arguments Ok {A} a.
Arguments Crash {A}.
Arguments OutOfFuel {A}.

#[global] Instance result_bind : MBind result := fun A B k r =>
  match r with
  | Ok a => k a
  | Crash => Crash
  | OutOfFuel => OutOfFuel
  end.

#[global] Instance result_ret : MRet result := fun A a => Ok a.

Fixpoint foldM {A S} (f : A -> S -> result S) (l : list A) (s : S) : result S :=
  match l with
  | [] => Ok s
  | x :: t => s' ← f x s; foldM f t s'
  end.

(** Array access [a[i]] with an integer index: [None] is [undefined]. *)
Definition lookupZ {A} (l : list A) (i : Z) : option A :=
  if 0 <=? i then nth_error l (Z.to_nat i) else None.

(** [_.uniq]: first occurrences, in order. *)
Fixpoint uniq (l : list Z) : list Z :=
  match l with
  | [] => []
  | x :: t => x :: List.filter (fun y => negb (y =? x)) (uniq t)
  end.

(** ** Cards *)

Definition pid := nat.

Inductive CardType := Question | Answer.

(** Modelled from the spec: the [Card] of the missing models/card.js: an
    identifier, the kind, the text, the pick-count and the draw-count of a
    prompt, and the current holder ([owner], absent on a deck, a discard pile
    or the table unless the session left it set). *)
Record Card := mkCard {
  cid : nat;
  ctype : CardType;
  value : string;
  pick : Z;
  draw : Z;
  owner : option pid
}.

Definition set_owner (o : option pid) (c : Card) : Card :=
  {| cid := cid c; ctype := ctype c; value := value c; pick := pick c; draw := draw c;
     owner := o |}.

(** Modelled from the spec: the card collection [Cards] of the missing
    controllers/cards.js (a deck, a discard pile, a hand or an entry on the
    table). A collection is the ordered sequence of its cards; [numCards] is
    the spec's [size()]. *)
Definition numCards (cs : list Card) : nat := length cs.

(** Modelled from the spec: [addCard(card)] of the missing controllers/cards.js,
    the spec's [add]: appends the card. *)
Definition addCard (c : Card) (cs : list Card) : list Card := cs ++ [c].

(** Modelled from the spec: [pickCards()] without an index, of the missing
    controllers/cards.js, the spec's [draw()]: removes and returns the first
    card, and fails when none remains. *)
Definition drawCard (cs : list Card) : option (Card * list Card) :=
  match cs with
  | [] => None
  | c :: t => Some (c, t)
  end.

(** Modelled from the spec: [reset(cards)] of the missing
    controllers/cards.js, the step of the spec's recycling: the collection
    takes the given cards (none when the argument is omitted) and its former
    cards are returned. The result is the pair of the returned cards and of
    the new contents. *)
Definition reset (replacement : list Card) (cs : list Card) : list Card * list Card :=
  (cs, replacement).

(** Modelled from the spec: the remaining cards of the spec's [pick], for the
    missing controllers/cards.js: the cards of [cs] whose position, counted
    from [i], is not in [idx], in their original order. *)
Fixpoint dropAt (idx : list Z) (i : Z) (cs : list Card) : list Card :=
  match cs with
  | [] => []
  | c :: t =>
    if existsb (Z.eqb i) idx then dropAt idx (i + 1) t
    else c :: dropAt idx (i + 1) t
  end.

(** Modelled from the spec: the range check of the spec's [pick], for the
    missing controllers/cards.js: an index is valid within [[0, size)]. *)
Definition validIndex (cs : list Card) (i : Z) : bool :=
  (0 <=? i) && (i <? Z.of_nat (length cs)).

(** Modelled from the spec: [pickCards(indices)] of the missing
    controllers/cards.js, the spec's [pick(indices)]: de-duplicates the
    indices, checks that each is within [[0, size)], and either removes all
    requested cards and returns them as a group (with the remaining cards, in
    their original relative order) or removes none and fails. *)
Definition pickCards (idx : list Z) (cs : list Card) : option (list Card * list Card) :=
  let idx := uniq idx in
  if forallb (validIndex cs) idx
  then Some (omap (lookupZ cs) idx, dropAt idx 0 cs)
  else None.

(** Modelled from the spec: a step of the shuffle of the missing
    controllers/cards.js: removes the [n]-th element. *)
Fixpoint take_nth {A} (n : nat) (l : list A) : option (A * list A) :=
  match l with
  | [] => None
  | x :: t =>
    match n with
    | O => Some (x, t)
    | S k =>
      match take_nth k t with
      | Some (y, r) => Some (y, x :: r)
      | None => None
      end
    end
  end.

(** Modelled from the spec: the shuffle of the missing controllers/cards.js,
    for [k] positions: see [shuffle_with]. *)
Fixpoint shuffle_fuel {A} (k : nat) (rs : list nat) (l : list A) : list A * list nat :=
  match k with
  | O => (l, rs)
  | S k' =>
    match take_nth (hd O rs mod length l)%nat l with
    | Some (x, rest) =>
      let '(t, rs') := shuffle_fuel k' (tl rs) rest in (x :: t, rs')
    | None => (l, rs)
    end
  end.

(** Modelled from the spec: [shuffle()] of the missing controllers/cards.js
    (and [_.shuffle] of the underscore library): randomizes the order. The
    random source is the list [rs]: each position of the result is chosen
    among the remaining elements by the next number of [rs], so that every
    order can be produced; the unused numbers are returned. *)
Definition shuffle_with {A} (rs : list nat) (l : list A) : list A * list nat :=
  shuffle_fuel (length l) rs l.

(** ** Players (app/models/player.js) *)

Record Player := mkPlayer {
  nick : string;
  user : string;
  hostname : string;
  cards : list Card;
  hasPlayed : bool;
  hasDiscarded : bool;
  isCzar : bool;
  points : Z;
  idled : bool;
  inactiveRounds : jsnum
}.

(** [new Player(nick, user, hostname)]. The constructor does not set
    [inactiveRounds]: the field is [undefined] until [playCard] assigns it. *)
Definition newPlayer (n u h : string) : Player :=
  {| nick := n; user := u; hostname := h; cards := []; hasPlayed := false;
     hasDiscarded := false; isCzar := false; points := 0; idled := true;
     inactiveRounds := JUndefined |}.

Definition set_nick (v : string) (p : Player) : Player :=
  {| nick := v; user := user p; hostname := hostname p; cards := cards p;
     hasPlayed := hasPlayed p; hasDiscarded := hasDiscarded p; isCzar := isCzar p;
     points := points p; idled := idled p; inactiveRounds := inactiveRounds p |}.

Definition set_cards (v : list Card) (p : Player) : Player :=
  {| nick := nick p; user := user p; hostname := hostname p; cards := v;
     hasPlayed := hasPlayed p; hasDiscarded := hasDiscarded p; isCzar := isCzar p;
     points := points p; idled := idled p; inactiveRounds := inactiveRounds p |}.

Definition set_hasPlayed (v : bool) (p : Player) : Player :=
  {| nick := nick p; user := user p; hostname := hostname p; cards := cards p;
     hasPlayed := v; hasDiscarded := hasDiscarded p; isCzar := isCzar p;
     points := points p; idled := idled p; inactiveRounds := inactiveRounds p |}.

Definition set_hasDiscarded (v : bool) (p : Player) : Player :=
  {| nick := nick p; user := user p; hostname := hostname p; cards := cards p;
     hasPlayed := hasPlayed p; hasDiscarded := v; isCzar := isCzar p;
     points := points p; idled := idled p; inactiveRounds := inactiveRounds p |}.

Definition set_isCzar (v : bool) (p : Player) : Player :=
  {| nick := nick p; user := user p; hostname := hostname p; cards := cards p;
     hasPlayed := hasPlayed p; hasDiscarded := hasDiscarded p; isCzar := v;
     points := points p; idled := idled p; inactiveRounds := inactiveRounds p |}.

Definition set_points (v : Z) (p : Player) : Player :=
  {| nick := nick p; user := user p; hostname := hostname p; cards := cards p;
     hasPlayed := hasPlayed p; hasDiscarded := hasDiscarded p; isCzar := isCzar p;
     points := v; idled := idled p; inactiveRounds := inactiveRounds p |}.

Definition set_inactiveRounds (v : jsnum) (p : Player) : Player :=
  {| nick := nick p; user := user p; hostname := hostname p; cards := cards p;
     hasPlayed := hasPlayed p; hasDiscarded := hasDiscarded p; isCzar := isCzar p;
     points := points p; idled := idled p; inactiveRounds := v |}.

(** ** The session *)

Inductive State :=
| Stopped | Started | Playable | Played | RoundEnd | Waiting | Paused.

#[global] Instance State_eq_dec : EqDecision State.
Proof. solve_decision. Defined.

Definition State_eqb (a b : State) : bool :=
  match a, b with
  | Stopped, Stopped | Started, Started | Playable, Playable | Played, Played
  | RoundEnd, RoundEnd | Waiting, Waiting | Paused, Paused => true
  | _, _ => false
  end.

(** The options of [config.gameOptions] that the session reads. *)
Record Config := mkConfig {
  roundMinutes : Z;
  idleLimit : Z;
  secondsBeforeStart : Z;
  setTopicOption : bool
}.

(** An entry of the score ledger [self.points]. *)
Record PointsEntry := mkEntry {
  e_nick : string;
  e_hostname : string;
  e_player : pid;
  e_points : Z
}.

(** The messages of the session, with the values the source interpolates. *)
Inductive Msg :=
| MStoppedBy (n : string)
| MStopped
| MPoints (scores : list (string * Z))
| MAlreadyPaused
| MCannotPause
| MNowPaused
| MNotPaused
| MResumed
| MCzarQuitDuringPause
| MLimitWinner (n : string) (limit : Z)
| MNotEnoughPlayers
| MRound (r : Z) (czarNick : string)
| MRemovedInactive (nicks : list string)
| MCard (c : Card)
| MCurrentlyPaused
| MCantPlay (n : string)
| MCzarDoesNotPlay (n : string)
| MAlreadyPlayed (n : string)
| MMustPick (n : string) (k : Z)
| MInvalidIndex
| MYouPlayed (q : Card) (entry : list Card)
| MCantDiscard (n : string)
| MCzarCannotDiscard (n : string)
| MDiscardOnce (n : string)
| MNeedPoint (n : string)
| MDiscarded (remaining : Z)
| MTimeUp
| MSecondsLeft (czarNick : option string) (seconds : Z)
| MStatus (st : State) (czarNick : string) (waitingFor : list string)
| MNoOnePlayed
| MOnlyOnePlayed
| MEntriesHeader
| MEntry (i : nat) (q : Card) (entry : list Card)
| MCzarFled
| MSelectWinner (czarNick : string)
| MWinnerTimeUp
| MNotCzar (n : string)
| MInvalidWinner
| MWinner (n : string) (q : Card) (entry : list Card) (pts : Z)
| MBanned (n : string)
| MJoined (n : string)
| MLeft (n : string)
| MYourCards (firstRow : bool) (hand : list Card)
| MNewGame.

Inductive Event :=
| Say (m : Msg)                    (* self.say: to the channel *)
| Pm (to : string) (m : Msg)       (* self.pm: to one nick *)
| ClientSay (m : Msg)              (* client.say called with the text alone *)
| Topic (running : bool).          (* self.setTopic *)

(** The fields of the [Game] object. [gpoints] is [self.points] (the score
    ledger; [points] is the player's field). [decks_question] stands for
    [self.decks.question], and likewise for the other piles and for
    [self.table] and [self.pauseState]. A timer field is [true] while the
    timer is scheduled. [heap] holds the [Player] objects. [destroyed] is set
    by [stop], which deletes the properties of the session. *)
Record Game := mkGame {
  round : Z;
  players : list pid;
  state : State;
  pauseState_state : State;
  pauseState_elapsed : Z;
  gpoints : list PointsEntry;
  idleCounts : gmap string jsnum;
  pointLimit : Z;
  decks_question : list Card;
  decks_answer : list Card;
  discards_question : list Card;
  discards_answer : list Card;
  table_question : option Card;
  table_answer : list (list Card);
  czar : option pid;
  roundStarted : option Z;
  turnTimer : bool;
  winnerTimer : bool;
  startTimeout : bool;
  stopTimeout : bool;
  config : Config;
  heap : pid -> Player;
  out : list Event;
  entropy : list nat;
  destroyed : bool
}.

(** The updates of one field of the session. *)

Definition set_round (v : Z) (g : Game) : Game :=
  {| round := v; players := players g; state := state g;
     pauseState_state := pauseState_state g; pauseState_elapsed := pauseState_elapsed g;
     gpoints := gpoints g; idleCounts := idleCounts g; pointLimit := pointLimit g;
     decks_question := decks_question g; decks_answer := decks_answer g;
     discards_question := discards_question g; discards_answer := discards_answer g;
     table_question := table_question g; table_answer := table_answer g; czar := czar g;
     roundStarted := roundStarted g; turnTimer := turnTimer g;
     winnerTimer := winnerTimer g; startTimeout := startTimeout g;
     stopTimeout := stopTimeout g; config := config g; heap := heap g; out := out g;
     entropy := entropy g; destroyed := destroyed g |}.

Definition set_players (v : list pid) (g : Game) : Game :=
  {| round := round g; players := v; state := state g;
     pauseState_state := pauseState_state g; pauseState_elapsed := pauseState_elapsed g;
     gpoints := gpoints g; idleCounts := idleCounts g; pointLimit := pointLimit g;
     decks_question := decks_question g; decks_answer := decks_answer g;
     discards_question := discards_question g; discards_answer := discards_answer g;
     table_question := table_question g; table_answer := table_answer g; czar := czar g;
     roundStarted := roundStarted g; turnTimer := turnTimer g;
     winnerTimer := winnerTimer g; startTimeout := startTimeout g;
     stopTimeout := stopTimeout g; config := config g; heap := heap g; out := out g;
     entropy := entropy g; destroyed := destroyed g |}.

Definition set_state (v : State) (g : Game) : Game :=
  {| round := round g; players := players g; state := v;
     pauseState_state := pauseState_state g; pauseState_elapsed := pauseState_elapsed g;
     gpoints := gpoints g; idleCounts := idleCounts g; pointLimit := pointLimit g;
     decks_question := decks_question g; decks_answer := decks_answer g;
     discards_question := discards_question g; discards_answer := discards_answer g;
     table_question := table_question g; table_answer := table_answer g; czar := czar g;
     roundStarted := roundStarted g; turnTimer := turnTimer g;
     winnerTimer := winnerTimer g; startTimeout := startTimeout g;
     stopTimeout := stopTimeout g; config := config g; heap := heap g; out := out g;
     entropy := entropy g; destroyed := destroyed g |}.

Definition set_pauseState_state (v : State) (g : Game) : Game :=
  {| round := round g; players := players g; state := state g; pauseState_state := v;
     pauseState_elapsed := pauseState_elapsed g; gpoints := gpoints g;
     idleCounts := idleCounts g; pointLimit := pointLimit g;
     decks_question := decks_question g; decks_answer := decks_answer g;
     discards_question := discards_question g; discards_answer := discards_answer g;
     table_question := table_question g; table_answer := table_answer g; czar := czar g;
     roundStarted := roundStarted g; turnTimer := turnTimer g;
     winnerTimer := winnerTimer g; startTimeout := startTimeout g;
     stopTimeout := stopTimeout g; config := config g; heap := heap g; out := out g;
     entropy := entropy g; destroyed := destroyed g |}.

Definition set_pauseState_elapsed (v : Z) (g : Game) : Game :=
  {| round := round g; players := players g; state := state g;
     pauseState_state := pauseState_state g; pauseState_elapsed := v;
     gpoints := gpoints g; idleCounts := idleCounts g; pointLimit := pointLimit g;
     decks_question := decks_question g; decks_answer := decks_answer g;
     discards_question := discards_question g; discards_answer := discards_answer g;
     table_question := table_question g; table_answer := table_answer g; czar := czar g;
     roundStarted := roundStarted g; turnTimer := turnTimer g;
     winnerTimer := winnerTimer g; startTimeout := startTimeout g;
     stopTimeout := stopTimeout g; config := config g; heap := heap g; out := out g;
     entropy := entropy g; destroyed := destroyed g |}.

Definition set_gpoints (v : list PointsEntry) (g : Game) : Game :=
  {| round := round g; players := players g; state := state g;
     pauseState_state := pauseState_state g; pauseState_elapsed := pauseState_elapsed g;
     gpoints := v; idleCounts := idleCounts g; pointLimit := pointLimit g;
     decks_question := decks_question g; decks_answer := decks_answer g;
     discards_question := discards_question g; discards_answer := discards_answer g;
     table_question := table_question g; table_answer := table_answer g; czar := czar g;
     roundStarted := roundStarted g; turnTimer := turnTimer g;
     winnerTimer := winnerTimer g; startTimeout := startTimeout g;
     stopTimeout := stopTimeout g; config := config g; heap := heap g; out := out g;
     entropy := entropy g; destroyed := destroyed g |}.

Definition set_idleCounts (v : gmap string jsnum) (g : Game) : Game :=
  {| round := round g; players := players g; state := state g;
     pauseState_state := pauseState_state g; pauseState_elapsed := pauseState_elapsed g;
     gpoints := gpoints g; idleCounts := v; pointLimit := pointLimit g;
     decks_question := decks_question g; decks_answer := decks_answer g;
     discards_question := discards_question g; discards_answer := discards_answer g;
     table_question := table_question g; table_answer := table_answer g; czar := czar g;
     roundStarted := roundStarted g; turnTimer := turnTimer g;
     winnerTimer := winnerTimer g; startTimeout := startTimeout g;
     stopTimeout := stopTimeout g; config := config g; heap := heap g; out := out g;
     entropy := entropy g; destroyed := destroyed g |}.

Definition set_pointLimit (v : Z) (g : Game) : Game :=
  {| round := round g; players := players g; state := state g;
     pauseState_state := pauseState_state g; pauseState_elapsed := pauseState_elapsed g;
     gpoints := gpoints g; idleCounts := idleCounts g; pointLimit := v;
     decks_question := decks_question g; decks_answer := decks_answer g;
     discards_question := discards_question g; discards_answer := discards_answer g;
     table_question := table_question g; table_answer := table_answer g; czar := czar g;
     roundStarted := roundStarted g; turnTimer := turnTimer g;
     winnerTimer := winnerTimer g; startTimeout := startTimeout g;
     stopTimeout := stopTimeout g; config := config g; heap := heap g; out := out g;
     entropy := entropy g; destroyed := destroyed g |}.

Definition set_decks_question (v : list Card) (g : Game) : Game :=
  {| round := round g; players := players g; state := state g;
     pauseState_state := pauseState_state g; pauseState_elapsed := pauseState_elapsed g;
     gpoints := gpoints g; idleCounts := idleCounts g; pointLimit := pointLimit g;
     decks_question := v; decks_answer := decks_answer g;
     discards_question := discards_question g; discards_answer := discards_answer g;
     table_question := table_question g; table_answer := table_answer g; czar := czar g;
     roundStarted := roundStarted g; turnTimer := turnTimer g;
     winnerTimer := winnerTimer g; startTimeout := startTimeout g;
     stopTimeout := stopTimeout g; config := config g; heap := heap g; out := out g;
     entropy := entropy g; destroyed := destroyed g |}.

Definition set_decks_answer (v : list Card) (g : Game) : Game :=
  {| round := round g; players := players g; state := state g;
     pauseState_state := pauseState_state g; pauseState_elapsed := pauseState_elapsed g;
     gpoints := gpoints g; idleCounts := idleCounts g; pointLimit := pointLimit g;
     decks_question := decks_question g; decks_answer := v;
     discards_question := discards_question g; discards_answer := discards_answer g;
     table_question := table_question g; table_answer := table_answer g; czar := czar g;
     roundStarted := roundStarted g; turnTimer := turnTimer g;
     winnerTimer := winnerTimer g; startTimeout := startTimeout g;
     stopTimeout := stopTimeout g; config := config g; heap := heap g; out := out g;
     entropy := entropy g; destroyed := destroyed g |}.

Definition set_discards_question (v : list Card) (g : Game) : Game :=
  {| round := round g; players := players g; state := state g;
     pauseState_state := pauseState_state g; pauseState_elapsed := pauseState_elapsed g;
     gpoints := gpoints g; idleCounts := idleCounts g; pointLimit := pointLimit g;
     decks_question := decks_question g; decks_answer := decks_answer g;
     discards_question := v; discards_answer := discards_answer g;
     table_question := table_question g; table_answer := table_answer g; czar := czar g;
     roundStarted := roundStarted g; turnTimer := turnTimer g;
     winnerTimer := winnerTimer g; startTimeout := startTimeout g;
     stopTimeout := stopTimeout g; config := config g; heap := heap g; out := out g;
     entropy := entropy g; destroyed := destroyed g |}.

Definition set_discards_answer (v : list Card) (g : Game) : Game :=
  {| round := round g; players := players g; state := state g;
     pauseState_state := pauseState_state g; pauseState_elapsed := pauseState_elapsed g;
     gpoints := gpoints g; idleCounts := idleCounts g; pointLimit := pointLimit g;
     decks_question := decks_question g; decks_answer := decks_answer g;
     discards_question := discards_question g; discards_answer := v;
     table_question := table_question g; table_answer := table_answer g; czar := czar g;
     roundStarted := roundStarted g; turnTimer := turnTimer g;
     winnerTimer := winnerTimer g; startTimeout := startTimeout g;
     stopTimeout := stopTimeout g; config := config g; heap := heap g; out := out g;
     entropy := entropy g; destroyed := destroyed g |}.

Definition set_table_question (v : option Card) (g : Game) : Game :=
  {| round := round g; players := players g; state := state g;
     pauseState_state := pauseState_state g; pauseState_elapsed := pauseState_elapsed g;
     gpoints := gpoints g; idleCounts := idleCounts g; pointLimit := pointLimit g;
     decks_question := decks_question g; decks_answer := decks_answer g;
     discards_question := discards_question g; discards_answer := discards_answer g;
     table_question := v; table_answer := table_answer g; czar := czar g;
     roundStarted := roundStarted g; turnTimer := turnTimer g;
     winnerTimer := winnerTimer g; startTimeout := startTimeout g;
     stopTimeout := stopTimeout g; config := config g; heap := heap g; out := out g;
     entropy := entropy g; destroyed := destroyed g |}.

Definition set_table_answer (v : list (list Card)) (g : Game) : Game :=
  {| round := round g; players := players g; state := state g;
     pauseState_state := pauseState_state g; pauseState_elapsed := pauseState_elapsed g;
     gpoints := gpoints g; idleCounts := idleCounts g; pointLimit := pointLimit g;
     decks_question := decks_question g; decks_answer := decks_answer g;
     discards_question := discards_question g; discards_answer := discards_answer g;
     table_question := table_question g; table_answer := v; czar := czar g;
     roundStarted := roundStarted g; turnTimer := turnTimer g;
     winnerTimer := winnerTimer g; startTimeout := startTimeout g;
     stopTimeout := stopTimeout g; config := config g; heap := heap g; out := out g;
     entropy := entropy g; destroyed := destroyed g |}.

Definition set_czar (v : option pid) (g : Game) : Game :=
  {| round := round g; players := players g; state := state g;
     pauseState_state := pauseState_state g; pauseState_elapsed := pauseState_elapsed g;
     gpoints := gpoints g; idleCounts := idleCounts g; pointLimit := pointLimit g;
     decks_question := decks_question g; decks_answer := decks_answer g;
     discards_question := discards_question g; discards_answer := discards_answer g;
     table_question := table_question g; table_answer := table_answer g; czar := v;
     roundStarted := roundStarted g; turnTimer := turnTimer g;
     winnerTimer := winnerTimer g; startTimeout := startTimeout g;
     stopTimeout := stopTimeout g; config := config g; heap := heap g; out := out g;
     entropy := entropy g; destroyed := destroyed g |}.

Definition set_roundStarted (v : option Z) (g : Game) : Game :=
  {| round := round g; players := players g; state := state g;
     pauseState_state := pauseState_state g; pauseState_elapsed := pauseState_elapsed g;
     gpoints := gpoints g; idleCounts := idleCounts g; pointLimit := pointLimit g;
     decks_question := decks_question g; decks_answer := decks_answer g;
     discards_question := discards_question g; discards_answer := discards_answer g;
     table_question := table_question g; table_answer := table_answer g; czar := czar g;
     roundStarted := v; turnTimer := turnTimer g; winnerTimer := winnerTimer g;
     startTimeout := startTimeout g; stopTimeout := stopTimeout g; config := config g;
     heap := heap g; out := out g; entropy := entropy g; destroyed := destroyed g |}.

Definition set_turnTimer (v : bool) (g : Game) : Game :=
  {| round := round g; players := players g; state := state g;
     pauseState_state := pauseState_state g; pauseState_elapsed := pauseState_elapsed g;
     gpoints := gpoints g; idleCounts := idleCounts g; pointLimit := pointLimit g;
     decks_question := decks_question g; decks_answer := decks_answer g;
     discards_question := discards_question g; discards_answer := discards_answer g;
     table_question := table_question g; table_answer := table_answer g; czar := czar g;
     roundStarted := roundStarted g; turnTimer := v; winnerTimer := winnerTimer g;
     startTimeout := startTimeout g; stopTimeout := stopTimeout g; config := config g;
     heap := heap g; out := out g; entropy := entropy g; destroyed := destroyed g |}.

Definition set_winnerTimer (v : bool) (g : Game) : Game :=
  {| round := round g; players := players g; state := state g;
     pauseState_state := pauseState_state g; pauseState_elapsed := pauseState_elapsed g;
     gpoints := gpoints g; idleCounts := idleCounts g; pointLimit := pointLimit g;
     decks_question := decks_question g; decks_answer := decks_answer g;
     discards_question := discards_question g; discards_answer := discards_answer g;
     table_question := table_question g; table_answer := table_answer g; czar := czar g;
     roundStarted := roundStarted g; turnTimer := turnTimer g; winnerTimer := v;
     startTimeout := startTimeout g; stopTimeout := stopTimeout g; config := config g;
     heap := heap g; out := out g; entropy := entropy g; destroyed := destroyed g |}.

Definition set_startTimeout (v : bool) (g : Game) : Game :=
  {| round := round g; players := players g; state := state g;
     pauseState_state := pauseState_state g; pauseState_elapsed := pauseState_elapsed g;
     gpoints := gpoints g; idleCounts := idleCounts g; pointLimit := pointLimit g;
     decks_question := decks_question g; decks_answer := decks_answer g;
     discards_question := discards_question g; discards_answer := discards_answer g;
     table_question := table_question g; table_answer := table_answer g; czar := czar g;
     roundStarted := roundStarted g; turnTimer := turnTimer g;
     winnerTimer := winnerTimer g; startTimeout := v; stopTimeout := stopTimeout g;
     config := config g; heap := heap g; out := out g; entropy := entropy g;
     destroyed := destroyed g |}.

Definition set_stopTimeout (v : bool) (g : Game) : Game :=
  {| round := round g; players := players g; state := state g;
     pauseState_state := pauseState_state g; pauseState_elapsed := pauseState_elapsed g;
     gpoints := gpoints g; idleCounts := idleCounts g; pointLimit := pointLimit g;
     decks_question := decks_question g; decks_answer := decks_answer g;
     discards_question := discards_question g; discards_answer := discards_answer g;
     table_question := table_question g; table_answer := table_answer g; czar := czar g;
     roundStarted := roundStarted g; turnTimer := turnTimer g;
     winnerTimer := winnerTimer g; startTimeout := startTimeout g; stopTimeout := v;
     config := config g; heap := heap g; out := out g; entropy := entropy g;
     destroyed := destroyed g |}.

Definition set_config (v : Config) (g : Game) : Game :=
  {| round := round g; players := players g; state := state g;
     pauseState_state := pauseState_state g; pauseState_elapsed := pauseState_elapsed g;
     gpoints := gpoints g; idleCounts := idleCounts g; pointLimit := pointLimit g;
     decks_question := decks_question g; decks_answer := decks_answer g;
     discards_question := discards_question g; discards_answer := discards_answer g;
     table_question := table_question g; table_answer := table_answer g; czar := czar g;
     roundStarted := roundStarted g; turnTimer := turnTimer g;
     winnerTimer := winnerTimer g; startTimeout := startTimeout g;
     stopTimeout := stopTimeout g; config := v; heap := heap g; out := out g;
     entropy := entropy g; destroyed := destroyed g |}.

Definition set_heap (v : pid -> Player) (g : Game) : Game :=
  {| round := round g; players := players g; state := state g;
     pauseState_state := pauseState_state g; pauseState_elapsed := pauseState_elapsed g;
     gpoints := gpoints g; idleCounts := idleCounts g; pointLimit := pointLimit g;
     decks_question := decks_question g; decks_answer := decks_answer g;
     discards_question := discards_question g; discards_answer := discards_answer g;
     table_question := table_question g; table_answer := table_answer g; czar := czar g;
     roundStarted := roundStarted g; turnTimer := turnTimer g;
     winnerTimer := winnerTimer g; startTimeout := startTimeout g;
     stopTimeout := stopTimeout g; config := config g; heap := v; out := out g;
     entropy := entropy g; destroyed := destroyed g |}.

Definition set_out (v : list Event) (g : Game) : Game :=
  {| round := round g; players := players g; state := state g;
     pauseState_state := pauseState_state g; pauseState_elapsed := pauseState_elapsed g;
     gpoints := gpoints g; idleCounts := idleCounts g; pointLimit := pointLimit g;
     decks_question := decks_question g; decks_answer := decks_answer g;
     discards_question := discards_question g; discards_answer := discards_answer g;
     table_question := table_question g; table_answer := table_answer g; czar := czar g;
     roundStarted := roundStarted g; turnTimer := turnTimer g;
     winnerTimer := winnerTimer g; startTimeout := startTimeout g;
     stopTimeout := stopTimeout g; config := config g; heap := heap g; out := v;
     entropy := entropy g; destroyed := destroyed g |}.

Definition set_entropy (v : list nat) (g : Game) : Game :=
  {| round := round g; players := players g; state := state g;
     pauseState_state := pauseState_state g; pauseState_elapsed := pauseState_elapsed g;
     gpoints := gpoints g; idleCounts := idleCounts g; pointLimit := pointLimit g;
     decks_question := decks_question g; decks_answer := decks_answer g;
     discards_question := discards_question g; discards_answer := discards_answer g;
     table_question := table_question g; table_answer := table_answer g; czar := czar g;
     roundStarted := roundStarted g; turnTimer := turnTimer g;
     winnerTimer := winnerTimer g; startTimeout := startTimeout g;
     stopTimeout := stopTimeout g; config := config g; heap := heap g; out := out g;
     entropy := v; destroyed := destroyed g |}.

Definition set_destroyed (v : bool) (g : Game) : Game :=
  {| round := round g; players := players g; state := state g;
     pauseState_state := pauseState_state g; pauseState_elapsed := pauseState_elapsed g;
     gpoints := gpoints g; idleCounts := idleCounts g; pointLimit := pointLimit g;
     decks_question := decks_question g; decks_answer := decks_answer g;
     discards_question := discards_question g; discards_answer := discards_answer g;
     table_question := table_question g; table_answer := table_answer g; czar := czar g;
     roundStarted := roundStarted g; turnTimer := turnTimer g;
     winnerTimer := winnerTimer g; startTimeout := startTimeout g;
     stopTimeout := stopTimeout g; config := config g; heap := heap g; out := out g;
     entropy := entropy g; destroyed := v |}.

(** *** Access to the heap and to the message sink *)

Definition upd_player (p : pid) (f : Player -> Player) (g : Game) : Game :=
  set_heap (fun q => if Nat.eqb q p then f (heap g q) else heap g q) g.

Definition hand (g : Game) (p : pid) : list Card := cards (heap g p).

Definition emit (e : Event) (g : Game) : Game := set_out (out g ++ [e]) g.

Definition say (m : Msg) (g : Game) : Game := emit (Say m) g.

Definition pm (to : string) (m : Msg) (g : Game) : Game := emit (Pm to m) g.

Definition setTopic (running : bool) (g : Game) : Game :=
  if setTopicOption (config g) then emit (Topic running) g else g.

(** [_.shuffle] on a list, drawing from the session's entropy. *)
Definition shuffleM {A} (l : list A) (g : Game) : list A * Game :=
  let '(l', rs) := shuffle_with (entropy g) l in (l', set_entropy rs g).

(** [Math.round(Math.random() * (n - 1))] for [n] entries on the table: a
    position in [[0, n-1]] when [n >= 1]; for [n = 0] the product lies in
    [(-1, 0]] and rounds to [0] or [-1]. *)
Definition randomEntry (g : Game) : Z * Game :=
  let n := length (table_answer g) in
  let r := hd O (entropy g) in
  let i := match n with
           | O => - Z.of_nat (r mod 2)
           | _ => Z.of_nat (r mod n)
           end in
  (i, set_entropy (tl (entropy g)) g).

(** *** Roster lookups *)

(** [self.players.indexOf(x)], [-1] when absent (or when [x] is undefined). *)
Fixpoint indexOf (p : pid) (l : list pid) : Z :=
  match l with
  | [] => -1
  | q :: t =>
    if Nat.eqb q p then 0
    else let i := indexOf p t in if i <? 0 then -1 else i + 1
  end.

Definition indexOfCzar (g : Game) : Z :=
  match czar g with
  | Some c => indexOf c (players g)
  | None => -1
  end.

(** [_.without(self.players, player)]. *)
Definition without (p : pid) (l : list pid) : list pid :=
  List.filter (fun q => negb (Nat.eqb q p)) l.

(** [self.getPlayer({nick: n, hostname: h})]. *)
Definition getPlayer (n h : string) (g : Game) : option pid :=
  find (fun q => String.eqb (nick (heap g q)) n && String.eqb (hostname (heap g q)) h)
       (players g).

(** [self.getPlayer({nick: n})]. *)
Definition getPlayerByNick (n : string) (g : Game) : option pid :=
  find (fun q => String.eqb (nick (heap g q)) n) (players g).

(** [self.getNotPlayed()]: the players with cards in hand that have not
    played and are not the czar. *)
Definition getNotPlayed (g : Game) : list pid :=
  List.filter (fun q => negb (hasPlayed (heap g q)) && negb (isCzar (heap g q)))
    (List.filter (fun q => (0 <? numCards (hand g q))%nat) (players g)).

Definition checkAllPlayed (g : Game) : bool :=
  (length (getNotPlayed g) =? 0)%nat.

(** [self.markInactivePlayers()]. *)
Definition markInactivePlayers (g : Game) : Game :=
  fold_left (fun g q => upd_player q (fun P => set_inactiveRounds (js_incr (inactiveRounds P)) P) g)
    (getNotPlayed g) g.

(** [self.showCards(player)]: two private messages, the cards [0..6] and the
    cards from [7] on. *)
Definition showCards (p : pid) (g : Game) : Game :=
  let n := nick (heap g p) in
  pm n (MYourCards false (drop 7 (hand g p)))
     (pm n (MYourCards true (take 7 (hand g p))) g).

(** [self.showPoints()]: the ledger, ordered by decreasing points of the
    players it refers to (the order is left to the reader of the message). *)
Definition showPoints (g : Game) : Game :=
  say (MPoints (map (fun e => (nick (heap g (e_player e)), points (heap g (e_player e))))
                    (gpoints g))) g.

(** *** Decks *)

(** The loop that [clean] and [discard] run over the cards of a group: each
    card loses its owner, goes to the answer discard pile and leaves the
    group (which is not used afterwards). *)
Definition discardGroup (group : list Card) (g : Game) : Game :=
  fold_left (fun g card => set_discards_answer (addCard (set_owner None card) (discards_answer g)) g)
    group g.

(** [self.checkDecks()]: an empty deck is replaced by the cards of its
    discard pile, which becomes empty, and is shuffled. *)
Definition checkDecks (g : Game) : Game :=
  let g :=
    if (numCards (decks_answer g) =? 0)%nat then
      let '(discarded, emptied) := reset [] (discards_answer g) in
      let g := set_discards_answer emptied g in
      let g := set_decks_answer (reset discarded (decks_answer g)).2 g in
      let '(d, g) := shuffleM (decks_answer g) g in
      set_decks_answer d g
    else g in
  if (numCards (decks_question g) =? 0)%nat then
    let '(discarded, emptied) := reset [] (discards_question g) in
    let g := set_discards_question emptied g in
    let g := set_decks_question (reset discarded (decks_question g)).2 g in
    let '(d, g) := shuffleM (decks_question g) g in
    set_decks_question d g
  else g.

(** One iteration of the dealing loops: [checkDecks], draw an answer card,
    add it to the hand and set its owner. Drawing from an empty deck
    throws. *)
Definition dealOne (p : pid) (g : Game) : result Game :=
  let g := checkDecks g in
  match drawCard (decks_answer g) with
  | None => Crash
  | Some (c, rest) =>
    Ok (upd_player p (fun P => set_cards (addCard (set_owner (Some p) c) (cards P)) P)
          (set_decks_answer rest g))
  end.

Fixpoint dealN (k : nat) (p : pid) (g : Game) : result Game :=
  match k with
  | O => Ok g
  | S k' => g' ← dealOne p g; dealN k' p g'
  end.

(** [self.deal(player, num)]: without a player, every roster player is dealt
    up to 10 cards; with a player and a number, that player is dealt up to
    [num] cards; with a player alone nothing happens. *)
Definition deal (p : option pid) (num : option nat) (g : Game) : result Game :=
  match p with
  | None => foldM (fun q g => dealN (10 - numCards (hand g q)) q g) (players g) g
  | Some q =>
    match num with
    | Some n => dealN (n - numCards (hand g q)) q g
    | None => Ok g
    end
  end.

(** *** Rounds *)

(** [self.stop(player, pointLimitReached)]. The deleted properties are
    emptied and [destroyed] is set. *)
Definition stop (p : option pid) (pointLimitReached : bool) (g : Game) : Game :=
  let g := set_state Stopped g in
  let g := match p with
           | Some q => say (MStoppedBy (nick (heap g q))) g
           | None => if pointLimitReached then g else say MStopped g
           end in
  let g := if 1 <? round g then showPoints g else g in
  let g := set_winnerTimer false (set_turnTimer false
             (set_stopTimeout false (set_startTimeout false g))) in
  let g := set_destroyed true (set_table_answer [] (set_table_question None
             (set_discards_answer [] (set_discards_question []
             (set_decks_answer [] (set_decks_question []
             (set_round 0 (set_players [] g)))))))) in
  setTopic false g.

(** [self.setCzar()]: the player after the previous czar in the roster, or
    the first player. With an empty roster [self.czar] is undefined and
    reading its nick throws. *)
Definition setCzar (g : Game) : result Game :=
  let next := match lookupZ (players g) (indexOfCzar g + 1) with
              | Some q => Some q
              | None => lookupZ (players g) 0
              end in
  match next with
  | None => Crash
  | Some q => Ok (upd_player q (set_isCzar true) (set_czar (Some q) g))
  end.

Definition nonCzars (g : Game) : list pid :=
  List.filter (fun q => negb (isCzar (heap g q))) (players g).

(** [self.playQuestion()]. *)
Definition playQuestion (now : Z) (g : Game) : result Game :=
  let g := checkDecks g in
  match drawCard (decks_question g) with
  | None => Crash
  | Some (card, rest) =>
    let g := set_decks_question rest g in
    let g := say (MCard card) g in
    let g := set_table_question (Some card) g in
    let g := fold_left (fun g q => pm (nick (heap g q)) (MCard card) g) (nonCzars g) g in
    g ← (if 0 <? draw card
          then foldM (fun q g => dealN (Z.to_nat (draw card)) q g) (nonCzars g) g
          else Ok g);
    Ok (set_turnTimer true (set_roundStarted (Some now) g))
  end.

(** [self.nextRound()]. *)
Definition nextRound (now : Z) (g : Game) : result Game :=
  let g := set_stopTimeout false g in
  let winner :=
    if 0 <? pointLimit g
    then find (fun q => points (heap g q) =? pointLimit g) (players g)
    else None in
  match winner with
  | Some w =>
    Ok (stop None true (say (MLimitWinner (nick (heap g w)) (pointLimit g)) g))
  | None =>
    if (length (players g) <? 3)%nat then
      Ok (set_stopTimeout true (set_state Waiting (say MNotEnoughPlayers g)))
    else
      let g := set_round (round g + 1) g in
      g ← setCzar g;
      g ← deal None None g;
      let czarNick := match czar g with Some c => nick (heap g c) | None => ""%string end in
      let g := say (MRound (round g) czarNick) g in
      g ← playQuestion now g;
      let g := fold_left (fun g q => if isCzar (heap g q) then g else showCards q g)
                 (players g) g in
      Ok (set_state Playable g)
  end.

(** *** Revealing the entries, selecting the winner, cleaning up

    [showEntries], [selectWinner], [clean] and [removePlayer] call each
    other; the recursion is on [fuel]. *)

Definition resetRoundFlags (P : Player) : Player :=
  set_isCzar false (set_hasDiscarded false (set_hasPlayed false P)).

(** The entry of [self.points] that refers to the player object [o]. *)
Definition findEntry (o : pid) (l : list PointsEntry) : option PointsEntry :=
  find (fun e => Nat.eqb (e_player e) o) l.

(** Applies [f] to the first element that satisfies [t]. *)
Fixpoint update_first {A} (t : A -> bool) (f : A -> A) (l : list A) : list A :=
  match l with
  | [] => []
  | x :: r => if t x then f x :: r else x :: update_first t f r
  end.

Definition set_e_points (v : Z) (e : PointsEntry) : PointsEntry :=
  {| e_nick := e_nick e; e_hostname := e_hostname e; e_player := e_player e;
     e_points := v |}.

Definition set_e_player (v : pid) (e : PointsEntry) : PointsEntry :=
  {| e_nick := e_nick e; e_hostname := e_hostname e; e_player := v;
     e_points := e_points e |}.

(** The first part of [clean]: the prompt and the entries go to the discard
    piles (the entries' cards lose their owner) and the table is emptied. A
    [null] prompt is not recorded in the pile. *)
Definition clearTable (g : Game) : Game :=
  let g := match table_question g with
           | Some q => set_discards_question (addCard q (discards_question g)) g
           | None => g
           end in
  let g := set_table_question None g in
  let g := fold_left (fun g entry => discardGroup entry g) (table_answer g) g in
  set_table_answer [] g.

(** [self.idleCounts[n]++]. *)
Definition bumpIdle (n : string) (g : Game) : Game :=
  set_idleCounts (<[n := js_incr (js_get (idleCounts g) n)]> (idleCounts g)) g.

(** The first part of [removePlayer]: the hand goes to the answer discard
    pile (the cards keep their owner), the player leaves the roster, and the
    departure is announced unless [silent]. *)
Definition dropPlayer (p : pid) (silent : bool) (g : Game) : Game :=
  let '(held, emptied) := reset [] (hand g p) in
  let g := upd_player p (set_cards emptied) g in
  let g := set_players (without p (players g)) g in
  let g := set_discards_answer (discards_answer g ++ held) g in
  if silent then g else say (MLeft (nick (heap g p))) g.

(** The award of [selectWinner]: one point to the owner of the first card of
    the winning entry, copied to the owner's ledger entry, and the
    announcement. Throws on an empty entry, a card without owner, a ledger
    without an entry for the owner, or a missing prompt. *)
Definition awardPoint (entry : list Card) (g : Game) : result Game :=
  let g := set_state RoundEnd g in
  match entry with
  | [] => Crash
  | c :: _ =>
    match owner c with
    | None => Crash
    | Some o =>
      let g := upd_player o (fun P => set_points (points P + 1) P) g in
      match findEntry o (gpoints g) with
      | None => Crash
      | Some _ =>
        let g := set_gpoints
                   (update_first (fun e => Nat.eqb (e_player e) o)
                      (set_e_points (points (heap g o))) (gpoints g)) g in
        match table_question g with
        | None => Crash
        | Some q =>
          Ok (say (MWinner (nick (heap g o)) q entry (points (heap g o))) g)
        end
      end
    end
  end.

(** [typeof player !== 'undefined' && player !== self.czar]: the caller of
    [selectWinner], when there is one and it is not the czar. Internal calls
    pass no player. *)
Definition notTheCzar (caller : option pid) (g : Game) : option pid :=
  match caller with
  | Some p => if bool_decide (czar g = Some p) then None else Some p
  | None => None
  end.

Definition announceEntries (q : Card) (g : Game) : Game :=
  fold_left (fun g ie => say (MEntry (fst ie) q (snd ie)) g)
    (imap (fun i e => (i, e)) (table_answer g)) g.

Fixpoint showEntries (fuel : nat) (now : Z) (g : Game) {struct fuel} : result Game :=
  match fuel with
  | O => OutOfFuel
  | S f =>
    let g := set_state Played (set_turnTimer false g) in
    match table_answer g with
    | [] =>
      g ← clean f now (say MNoOnePlayed g);
      nextRound now g
    | [_] => selectWinner f now 0 None (say MOnlyOnePlayed g)
    | _ =>
      let g := say MEntriesHeader g in
      let '(l, g) := shuffleM (table_answer g) g in
      let g := set_table_answer l g in
      match table_question g with
      | None => Crash
      | Some q =>
        let g := announceEntries q g in
        match find (fun p => isCzar (heap g p)) (players g) with
        | None =>
          let '(i, g) := randomEntry (say MCzarFled g) in
          selectWinner f now i None g
        | Some _ =>
          match czar g with
          | None => Crash
          | Some c =>
            Ok (set_winnerTimer true (set_roundStarted (Some now)
                  (set_winnerTimer false (say (MSelectWinner (nick (heap g c))) g))))
          end
        end
      end
    end
  end

with selectWinner (fuel : nat) (now : Z) (index : Z) (caller : option pid) (g : Game)
       {struct fuel} : result Game :=
  match fuel with
  | O => OutOfFuel
  | S f =>
    if State_eqb (state g) Paused then Ok (say MCurrentlyPaused g)
    else
      let g := set_winnerTimer false g in
      let winner := lookupZ (table_answer g) index in
      if State_eqb (state g) Played then
        match notTheCzar caller g with
        | Some p => Ok (emit (ClientSay (MNotCzar (nick (heap g p)))) g)
        | None =>
          match winner with
          | None => Ok (say MInvalidWinner g)
          | Some entry => g ← awardPoint entry g; g ← clean f now g; nextRound now g
          end
        end
      else Ok g
  end

with clean (fuel : nat) (now : Z) (g : Game) {struct fuel} : result Game :=
  match fuel with
  | O => OutOfFuel
  | S f =>
    let g := clearTable g in
    ng ← foldM
            (fun p (ng : list string * Game) =>
               let '(removedNicks, g) := ng in
               let g := upd_player p resetRoundFlags g in
               if js_ge (inactiveRounds (heap g p)) 1 then
                 g ← removePlayer f now p true g;
                 let n := nick (heap g p) in
                 Ok (removedNicks ++ [n], bumpIdle n g)
               else Ok (removedNicks, g))
            (players g) ([], g);
    let '(removedNicks, g) := ng in
    let g := match removedNicks with
             | [] => g
             | _ => say (MRemovedInactive removedNicks) g
             end in
    Ok (set_state Started g)
  end

with removePlayer (fuel : nat) (now : Z) (p : pid) (silent : bool) (g : Game)
       {struct fuel} : result Game :=
  match fuel with
  | O => OutOfFuel
  | S f =>
    let g := dropPlayer p silent g in
    g ← (if State_eqb (state g) Playable && checkAllPlayed g
         then showEntries f now g else Ok g);
    if State_eqb (state g) Played && bool_decide (czar g = Some p) then
      let '(i, g) := randomEntry (say MCzarFled g) in
      selectWinner f now i None g
    else Ok g
  end.

(** *** Playing and discarding *)

Inductive verdict := Rejected | Accepted.

(** [self.playCard(cards, player)] up to the point where the entry is on the
    table: the verdict tells whether the accepting branch was taken. *)
Definition playCard_core (xs : list Z) (p : pid) (g : Game) : result (verdict * Game) :=
  if State_eqb (state g) Paused then Ok (Rejected, say MCurrentlyPaused g)
  else
    let xs := uniq xs in
    let n := nick (heap g p) in
    if negb (State_eqb (state g) Playable) || (numCards (hand g p) =? 0)%nat
    then Ok (Rejected, say (MCantPlay n) g)
    else if isCzar (heap g p) then Ok (Rejected, say (MCzarDoesNotPlay n) g)
    else if hasPlayed (heap g p) then Ok (Rejected, say (MAlreadyPlayed n) g)
    else
      match table_question g with
      | None => Crash
      | Some q =>
        if negb (Z.of_nat (length xs) =? pick q)
        then Ok (Rejected, say (MMustPick n (pick q)) g)
        else
          match pickCards xs (hand g p) with
          | None => Ok (Rejected, pm n MInvalidIndex g)
          | Some (playerCards, rest) =>
            let g := upd_player p (set_cards rest) g in
            let g := set_table_answer (table_answer g ++ [playerCards]) g in
            let g := upd_player p (set_hasPlayed true) g in
            let g := upd_player p (set_inactiveRounds (JNum 0)) g in
            Ok (Accepted, pm n (MYouPlayed q playerCards) g)
          end
      end.

(** [self.playCard(cards, player)]: after an accepted play the entries are
    shown if every player has played. *)
Definition playCard (fuel : nat) (now : Z) (xs : list Z) (p : pid) (g : Game)
  : result Game :=
  vg ← playCard_core xs p g;
  match vg with
  | (Rejected, g) => Ok g
  | (Accepted, g) => if checkAllPlayed g then showEntries fuel now g else Ok g
  end.

(** In [discard], an empty list of indexes stands for the whole hand. *)
Definition wholeHandIfNone (xs : list Z) (cs : list Card) : list Z :=
  match xs with
  | [] => map Z.of_nat (seq 0 (numCards cs))
  | _ => xs
  end.

(** [self.discard(cards, player)]. *)
Definition discard (xs : list Z) (p : pid) (g : Game) : result (verdict * Game) :=
  if State_eqb (state g) Paused then Ok (Rejected, say MCurrentlyPaused g)
  else
    let xs := uniq xs in
    let n := nick (heap g p) in
    if negb (State_eqb (state g) Playable) || (numCards (hand g p) =? 0)%nat
    then Ok (Rejected, say (MCantDiscard n) g)
    else if isCzar (heap g p) then Ok (Rejected, say (MCzarCannotDiscard n) g)
    else if hasDiscarded (heap g p) then Ok (Rejected, say (MDiscardOnce n) g)
    else if points (heap g p) <? 1 then Ok (Rejected, say (MNeedPoint n) g)
    else
      let xs := wholeHandIfNone xs (hand g p) in
      match pickCards xs (hand g p) with
      | None => Ok (Rejected, pm n MInvalidIndex g)
      | Some (playerCards, rest) =>
        let g := upd_player p (set_cards rest) g in
        g ← deal (Some p) (Some (numCards (hand g p) + numCards playerCards)%nat) g;
        let g := discardGroup playerCards g in
        let g := upd_player p (set_hasDiscarded true) g in
        let g := upd_player p (fun P => set_points (points P - 1) P) g in
        let g := pm n (MDiscarded (points (heap g p))) g in
        Ok (Accepted, showCards p g)
      end.

(** *** Timers, pause and resume *)

Definition timeLimit (g : Game) : Z := 60 * 1000 * roundMinutes (config g).

(** [self.showStatus()]: the status line of the current state (the number of
    players needed and of seconds left are not kept). Reading the czar's nick
    throws when there is no czar. *)
Definition showStatus (g : Game) : result Game :=
  match state g with
  | Playable | Played =>
    match czar g with
    | None => Crash
    | Some c =>
      Ok (say (MStatus (state g) (nick (heap g c))
                 (map (fun q => nick (heap g q)) (getNotPlayed g))) g)
    end
  | st => Ok (say (MStatus st ""%string []) g)
  end.

(** The warnings of the timer checks, by remaining time. *)
Definition warning (elapsed limit : Z) : option Z :=
  if (limit - 10 * 1000 <=? elapsed) && (elapsed <? limit) then Some 10
  else if (limit - 30 * 1000 <=? elapsed) && (elapsed <? limit - 20 * 1000) then Some 30
  else if (limit - 60 * 1000 <=? elapsed) && (elapsed <? limit - 50 * 1000) then Some 60
  else None.

(** The forced action of the round timer. *)
Definition turnTimeout (fuel : nat) (now : Z) (g : Game) : result Game :=
  showEntries fuel now (markInactivePlayers (say MTimeUp g)).

(** The branches of [turnTimerCheck] below the time limit: the warnings. *)
Definition turnWarning (roundElapsed : Z) (g : Game) : result Game :=
  match warning roundElapsed (timeLimit g) with
  | Some 60 => showStatus (say (MSecondsLeft None 60) g)
  | Some s => Ok (say (MSecondsLeft None s) g)
  | None => Ok g
  end.

(** [self.turnTimerCheck()], run every 10 seconds while [turnTimer] is set. *)
Definition turnTimerCheck (fuel : nat) (now : Z) (g : Game) : result Game :=
  match roundStarted g with
  | None => Crash
  | Some t0 =>
    let roundElapsed := now - t0 in
    if timeLimit g <=? roundElapsed then turnTimeout fuel now g
    else turnWarning roundElapsed g
  end.

(** The forced action of the winner timer. *)
Definition winnerTimeout (fuel : nat) (now : Z) (g : Game) : result Game :=
  let g := say MWinnerTimeUp g in
  match czar g with
  | None => Crash
  | Some c =>
    let g := upd_player c (fun P => set_inactiveRounds (js_incr (inactiveRounds P)) P) g in
    let '(i, g) := randomEntry g in
    selectWinner fuel now i None g
  end.

(** The branches of [winnerTimerCheck] below the time limit: the warnings,
    addressed to the czar. *)
Definition winnerWarning (roundElapsed : Z) (g : Game) : result Game :=
  match warning roundElapsed (timeLimit g) with
  | Some s =>
    match czar g with
    | None => Crash
    | Some c => Ok (say (MSecondsLeft (Some (nick (heap g c))) s) g)
    end
  | None => Ok g
  end.

(** [self.winnerTimerCheck()], run every 10 seconds while [winnerTimer] is
    set. *)
Definition winnerTimerCheck (fuel : nat) (now : Z) (g : Game) : result Game :=
  match roundStarted g with
  | None => Crash
  | Some t0 =>
    let roundElapsed := now - t0 in
    if timeLimit g <=? roundElapsed then winnerTimeout fuel now g
    else winnerWarning roundElapsed g
  end.

(** [self.pause()]. *)
Definition pause (now : Z) (g : Game) : result Game :=
  if State_eqb (state g) Paused then Ok (say MAlreadyPaused g)
  else if negb (State_eqb (state g) Playable) && negb (State_eqb (state g) Played)
  then Ok (say MCannotPause g)
  else
    match roundStarted g with
    | None => Crash
    | Some t0 =>
      let g := set_pauseState_state (state g) g in
      let g := set_pauseState_elapsed (now - t0) g in
      let g := set_state Paused g in
      let g := say MNowPaused g in
      Ok (set_winnerTimer false (set_turnTimer false g))
    end.

(** [self.resume()]. *)
Definition resume (fuel : nat) (now : Z) (g : Game) : result Game :=
  if negb (State_eqb (state g) Paused) then Ok (say MNotPaused g)
  else
    let g := set_roundStarted (Some (now - pauseState_elapsed g)) g in
    let g := set_state (pauseState_state g) g in
    let g := say MResumed g in
    if State_eqb (state g) Played then
      if indexOfCzar g <? 0 then
        let '(i, g) := randomEntry (say MCzarQuitDuringPause g) in
        selectWinner fuel now i None g
      else Ok (set_winnerTimer true g)
    else if State_eqb (state g) Playable then Ok (set_turnTimer true g)
    else Ok g.

(** *** The roster *)

Definition sameIdentity (n h : string) (e : PointsEntry) : bool :=
  String.eqb (e_nick e) n && String.eqb (e_hostname e) h.

(** [self.addPlayer(player)]: the result is the player, or [None] for
    [false]. *)
Definition addPlayer (now : Z) (p : pid) (g : Game) : result (option pid * Game) :=
  let n := nick (heap g p) in
  let h := hostname (heap g p) in
  match getPlayer n h g with
  | Some _ => Ok (None, g)
  | None =>
    let registered :=
      match find (sameIdentity n h) (gpoints g) with
      | None =>
        let g := set_gpoints
                   (gpoints g ++ [{| e_nick := n; e_hostname := h; e_player := p;
                                     e_points := 0 |}]) g in
        Some (set_idleCounts (<[n := JNum 0]> (idleCounts g)) g)
      | Some pointsPlayer =>
        if js_ge (js_get (idleCounts g) n) (idleLimit (config g)) then None
        else
          let g := set_gpoints
                     (update_first (sameIdentity n h) (set_e_player p) (gpoints g)) g in
          Some (upd_player p (set_points (e_points pointsPlayer)) g)
      end in
    match registered with
    | None => Ok (None, say (MBanned n) g)
    | Some g =>
      let g := set_players (players g ++ [p]) g in
      let g := say (MJoined n) g in
      g ← (if State_eqb (state g) Waiting && (3 <=? length (players g))%nat
           then nextRound now g else Ok g);
      Ok (Some p, g)
    end
  end.

(** [self.findAndRemoveIfPlaying(nick)], the body of the part, kick and quit
    handlers. *)
Definition findAndRemoveIfPlaying (fuel : nat) (now : Z) (n : string) (g : Game)
  : result Game :=
  match getPlayerByNick n g with
  | Some p => removePlayer fuel now p false g
  | None => Ok g
  end.

(** [self.playerNickChangeHandler(oldnick, newnick)]. *)
Definition playerNickChangeHandler (oldnick newnick : string) (g : Game) : Game :=
  match getPlayerByNick oldnick g with
  | Some p => upd_player p (set_nick newnick) g
  | None => g
  end.

(** *** Construction *)

(** [new Game(channel, client, config, cmdArgs)]: [cards] is
    [config.cards], [limitConfig] and [limitArg] are the point limits of the
    configuration and of the command when they are numbers, [rs] the random
    source, and [objects] the heap of the players that will join. *)
Definition newGame (cfg : Config) (cardList : list Card) (limitConfig limitArg : option Z)
    (rs : list nat) (objects : pid -> Player) : Game :=
  let questions := List.filter (fun c => match ctype c with Question => true | _ => false end)
                     cardList in
  let answers := List.filter (fun c => match ctype c with Answer => true | _ => false end)
                   cardList in
  let '(dq, rs) := shuffle_with rs questions in
  let '(da, rs) := shuffle_with rs answers in
  let lim := match limitArg, limitConfig with
             | Some l, _ => l
             | None, Some l => l
             | None, None => 0
             end in
  let g := {| round := 0; players := []; state := Started;
              pauseState_state := Started; pauseState_elapsed := 0;
              gpoints := []; idleCounts := ∅; pointLimit := lim;
              decks_question := dq; decks_answer := da;
              discards_question := []; discards_answer := [];
              table_question := None; table_answer := [];
              czar := None; roundStarted := None;
              turnTimer := false; winnerTimer := false;
              startTimeout := false; stopTimeout := false;
              config := cfg; heap := objects; out := []; entropy := rs;
              destroyed := false |} in
  set_startTimeout true (say MNewGame (setTopic true g)).

(** ** Notions used by the statements *)




(** What dealing and revealing a prompt leave alone: the part of the session
    and of every player object that [checkDecks], [deal], [showCards] and
    [playQuestion] do not write. *)
Definition ledgerView (g : Game) :=
  (players g, gpoints g, idleCounts g, pointLimit g, config g, table_answer g).

Definition controlView (g : Game) :=
  (round g, state g, czar g, pauseState_state g, pauseState_elapsed g, winnerTimer g,
   startTimeout g, stopTimeout g, destroyed g).

Definition promptView (g : Game) :=
  (table_question g, roundStarted g, turnTimer g).

Definition personView (P : Player) :=
  (nick P, user P, hostname P, points P, inactiveRounds P, hasPlayed P, hasDiscarded P).

Definition dealt (g g' : Game) : Prop :=
  ledgerView g' = ledgerView g /\
  controlView g' = controlView g /\
  promptView g' = promptView g /\
  forall q, personView (heap g' q) = personView (heap g q) /\
            isCzar (heap g' q) = isCzar (heap g q).

(** The identity of a player, as the specification words it: nickname, user
    id and host id, jointly. *)
Definition identityKey (P : Player) : string * string * string :=
  (nick P, user P, hostname P).

Definition rosterKeys (g : Game) : list (string * string * string) :=
  map (fun q => identityKey (heap g q)) (players g).

(** No two roster players share an identity. *)
Definition roster_unique (g : Game) : Prop := NoDup (rosterKeys g).

(** Everything in the session but the player objects, the messages sent
    and the entries on the table. *)
Definition sessionView (g : Game) :=
  (ledgerView (set_table_answer [] g), controlView g, promptView g,
   (decks_question g, decks_answer g, discards_question g, discards_answer g),
   entropy g).

(** The conditions under which [playCard] accepts the indexes [xs] from the
    player [p] for the prompt [q]. *)
Definition playable_by (xs : list Z) (p : pid) (g : Game) (q : Card) : Prop :=
  state g = Playable /\
  hand g p <> [] /\
  isCzar (heap g p) = false /\
  hasPlayed (heap g p) = false /\
  Z.of_nat (length (uniq xs)) = pick q /\
  Forall (fun i => 0 <= i < Z.of_nat (length (hand g p))) xs.

(** What a player object keeps when it plays or discards. *)
Definition staticView (P : Player) :=
  (nick P, user P, hostname P, isCzar P, idled P).

(** The effect of an accepted play of the indexes [xs] by [p] on the prompt
    [q]: the cards at the distinct indexes leave the hand and form one new
    entry on the table, the player has played and its inactivity counter is
    0; the entry is echoed to the player and nothing else changes. *)
Definition play_effect (xs : list Z) (p : pid) (q : Card) (g g1 : Game) : Prop :=
  let entry := omap (lookupZ (hand g p)) (uniq xs) in
  hand g1 p = dropAt (uniq xs) 0 (hand g p) /\
  Permutation (hand g p) (entry ++ hand g1 p) /\
  table_answer g1 = table_answer g ++ [entry] /\
  hasPlayed (heap g1 p) = true /\
  inactiveRounds (heap g1 p) = JNum 0 /\
  staticView (heap g1 p) = staticView (heap g p) /\
  points (heap g1 p) = points (heap g p) /\
  hasDiscarded (heap g1 p) = hasDiscarded (heap g p) /\
  (forall o, o <> p -> heap g1 o = heap g o) /\
  sessionView g1 = sessionView g /\
  out g1 = out g ++ [Pm (nick (heap g p)) (MYouPlayed q entry)].

Definition verdictOf (r : result (verdict * Game)) : option verdict :=
  match r with
  | Ok (v, _) => Some v
  | _ => None
  end.



Definition inHand (g : Game) (p : pid) (xs : list Z) : Prop :=
  Forall (fun i => 0 <= i < Z.of_nat (length (hand g p))) xs.



(** The positions that [discard] removes for the indexes [xs]. *)
Definition discardIndexes (xs : list Z) (g : Game) (p : pid) : list Z :=
  wholeHandIfNone (uniq xs) (hand g p).

(** The test of [clean]: [player.inactiveRounds >= 1]. *)
Definition idle (g : Game) (p : pid) : bool :=
  js_ge (inactiveRounds (heap g p)) 1.

(** The sessions [clean] is called on, once the table is cleared. *)
Definition cleaning (g : Game) : Prop :=
  (state g = Played \/ state g = RoundEnd) /\ table_answer g = [].

(** One turn of the loop of [clean] over the roster, with the call to
    [removePlayer] unfolded for a session that is [cleaning]: the removal
    cannot reveal entries, and the only winner selection it can trigger (a
    removed czar in state Played) finds no entry. That [clean] is this loop
    is proved below ([clean_unfold]). *)
Definition cleanPlayer (ng : list string * Game) (p : pid) : list string * Game :=
  let '(removedNicks, g) := ng in
  let g := upd_player p resetRoundFlags g in
  if idle g p then
    let g := dropPlayer p true g in
    let g := if State_eqb (state g) Played && bool_decide (czar g = Some p)
             then say MInvalidWinner
                    (set_winnerTimer false (randomEntry (say MCzarFled g)).2)
             else g in
    let n := nick (heap g p) in
    (removedNicks ++ [n], bumpIdle n g)
  else (removedNicks, g).

Definition finishClean (ng : list string * Game) : Game :=
  let '(removedNicks, g) := ng in
  set_state Started
    match removedNicks with
    | [] => g
    | _ => say (MRemovedInactive removedNicks) g
    end.

(** What removing players leaves alone in a player object and in the
    session. *)
Definition keeps (g g' : Game) : Prop :=
  (forall q, nick (heap g' q) = nick (heap g q) /\
             user (heap g' q) = user (heap g q) /\
             hostname (heap g' q) = hostname (heap g q) /\
             points (heap g' q) = points (heap g q) /\
             inactiveRounds (heap g' q) = inactiveRounds (heap g q)) /\
  gpoints g' = gpoints g /\
  table_answer g' = table_answer g /\
  table_question g' = table_question g /\
  state g' = state g /\
  czar g' = czar g /\
  round g' = round g /\
  pointLimit g' = pointLimit g.

(** The number of players of [l] that are idle and have the nick [n]. *)
Definition idleWithNick (g : Game) (n : string) (l : list pid) : nat :=
  length (List.filter (fun q => idle g q && String.eqb (nick (heap g q)) n) l).

(** The messages that [clean] can send while it removes players. *)
Definition cleanMessage (e : Event) : Prop :=
  e = Say MCzarFled \/ e = Say MInvalidWinner \/ exists l, e = Say (MRemovedInactive l).

(** *** Sessions used as examples *)

Definition answerCard (i : nat) : Card :=
  {| cid := i; ctype := Answer; value := "an answer"; pick := 0; draw := 0;
     owner := None |}.

Definition questionCard (i : nat) (k : Z) : Card :=
  {| cid := i; ctype := Question; value := "a question: %s"; pick := k; draw := 0;
     owner := None |}.

Definition exampleCards : list Card :=
  map (fun i => questionCard i 1) (seq 100 5) ++ map answerCard (seq 0 40).

Definition exampleConfig : Config :=
  {| roundMinutes := 1; idleLimit := 2; secondsBeforeStart := 30;
     setTopicOption := false |}.

Definition exampleObjects (p : pid) : Player :=
  match p with
  | 0%nat => newPlayer "ann" "u0" "h0"
  | 1%nat => newPlayer "bob" "u1" "h1"
  | 2%nat => newPlayer "cy" "u2" "h2"
  | _ => newPlayer "dee" "u3" "h3"
  end.

Definition orElse {A} (r : result A) (d : A) : A :=
  match r with
  | Ok a => a
  | _ => d
  end.

Definition isOk {A} (r : result A) : bool :=
  match r with
  | Ok _ => true
  | _ => false
  end.

(** A new session. *)
Definition session0 : Game :=
  newGame exampleConfig exampleCards None None [3; 1; 4; 1; 5; 9; 2; 6]%nat exampleObjects.


(** Three players have joined. *)
Definition session3 : Game :=
  orElse (r ← addPlayer 0 0%nat session0;
          r ← addPlayer 0 1%nat r.2;
          r ← addPlayer 0 2%nat r.2;
          Ok r.2) session0.

(** The first round: ann is the czar. *)
Definition round1 : Game := orElse (nextRound 1000 session3) session3.

(** bob has played the first card of the hand. *)
Definition round1_bob : Game := orElse (playCard 5 2000 [0] 1%nat round1) round1.

(** cy has played too: the entries are shown and the czar is to select. *)
Definition round1_played : Game :=
  orElse (playCard 5 3000 [3] 2%nat round1_bob) round1_bob.

(** The session after a fourth person tried to join the three. *)
Definition session4 : option pid * Game :=
  orElse (addPlayer 0 3%nat session3) (None, session3).

(** The czar's time to select: paused, then the czar leaves, then resumed. *)
Definition paused1 : Game := orElse (pause 10000 round1_played) round1_played.

Definition paused1_czar_left : Game :=
  orElse (findAndRemoveIfPlaying 5 15000 "ann" paused1) paused1.


(** The interval of the timer checks, in milliseconds. *)
Definition pollInterval : Z := 10 * 1000.

(** The czar ann selects cy's entry: cy has one point and the second round
    starts, with bob as czar. *)
Definition round2 : Game :=
  orElse (selectWinner 5 4000 1 (Some 0%nat) round1_played) round1_played.

(** Nobody plays in the second round: the session on which the round timer
    calls [clean] (through [showEntries]) once the time is up. cy, who played
    in the first round, is now idle. *)
Definition round2_timed_out : Game :=
  say MNoOnePlayed
    (set_state Played (set_turnTimer false (markInactivePlayers (say MTimeUp round2)))).

(** The second round, where bob is the czar, after ann and cy have played:
    the czar is to select. *)
Definition round2_played : Game :=
  orElse (g ← playCard 5 5000 [0] 0%nat round2; playCard 5 6000 [0] 2%nat g) round2.

(** A result that does not stem from a lack of fuel. *)
Definition settled {A} (r : result A) : Prop := r <> OutOfFuel.

(** *** Proof steps *)

(** Case analysis on the two tests of [checkDecks] and on its shuffles. *)
Ltac break_checkDecks :=
  unfold checkDecks, shuffleM, reset;
  repeat first
    [ match goal with |- context [shuffle_with ?r ?l] => destruct (shuffle_with r l) end
    | match goal with |- context [if ?b then _ else _] => destruct b end ];
  simpl.

(** ** Notions used by the further properties *)

(** The messages that a run has sent beyond those of the session [g] it
    started from; [None] when the run threw. *)
Definition sentBy (r : result Game) (g : Game) : option (list Event) :=
  match r with
  | Ok g' => Some (drop (length (out g)) (out g'))
  | _ => None
  end.

(** The test of [getNotPlayed]: a player with cards in hand who has not
    played and is not the czar. *)
Definition pending (g : Game) (q : pid) : bool :=
  (0 <? numCards (hand g q))%nat && (negb (hasPlayed (heap g q)) && negb (isCzar (heap g q))).

(** [player.inactiveRounds++]. *)
Definition markInactive (P : Player) : Player :=
  set_inactiveRounds (js_incr (inactiveRounds P)) P.

(** The first round once bob and cy have both played, before the entries
    are revealed. *)
Definition round1_both : Game :=
  orElse (vg ← playCard_core [3] 2%nat round1_bob; Ok vg.2) round1_bob.

(** A card without its back-reference to the holder. *)
Definition face (c : Card) : Card := set_owner None c.

(** The answer cards that can still be dealt: the deck and its discard
    pile. *)
Definition answerStock (g : Game) : list Card := decks_answer g ++ discards_answer g.

(** The answer cards of the session: those that can be dealt, those on the
    table and those in the hands of the roster. *)
Definition answerCards (g : Game) : list Card :=
  answerStock g ++ concat (table_answer g) ++ flat_map (hand g) (players g).

(** The same answer cards, up to their order and their holders. *)
Definition conserved (g g' : Game) : Prop :=
  Permutation (map face (answerCards g)) (map face (answerCards g')).

(** Every card in a hand refers to the player who holds it. *)
Definition owned (g : Game) : Prop :=
  forall q c, c ∈ hand g q -> owner c = Some q.

(** The flags of a player that last for one round. *)
Definition roundFlags (P : Player) : bool * bool * bool :=
  (hasPlayed P, hasDiscarded P, isCzar P).

(** cy leaves the first round while the two entries wait for the czar. *)
Definition round1_cy_left : Game :=
  orElse (removePlayer 6 3500 2%nat false round1_played) round1_played.

(** A second player object for cy, who comes back before the czar has
    selected. *)
Definition round1_cy_returns : Game :=
  upd_player 4%nat (fun _ => newPlayer "cy" "u2" "h2") round1_cy_left.

Definition round1_cy_back : Game :=
  (orElse (addPlayer 3600 4%nat round1_cy_returns) (None, round1_cy_returns)).2.

(** [self.listPlayers()]: the nicks of the roster, in its order. *)
Definition listPlayers (g : Game) : list string :=
  map (fun q => nick (heap g q)) (players g).

(** ** The commands of the channel (app/controllers/games.js) *)

(** What a command reads of the IRC message that carries it:
    [message.args[0]], [message.nick], [message.user] and [message.host]. *)
Record Message := mkMessage {
  m_channel : string;
  m_nick : string;
  m_user : string;
  m_host : string
}.

(** The texts that the dispatcher sends itself with [client.say(channel, ...)]
    (the refusal of [discard] without a game has a wording of its own), and
    the list of [listPlayers]. *)
Inductive Notice :=
| NAlreadyRunning
| NNoGame
| NNoGameDiscard
| NPickUnavailable
| NDiscardUnavailable
| NPlayers (nicks : list string).

(** After [stop] the game object has no roster, no client and no channel any
    more (they are deleted): an operation that calls a method of
    [self.players] or of [self.client] throws. *)
Definition live {A} (g : Game) (k : result A) : result A :=
  if destroyed g then Crash else k.

(** [cmdArgs[0]] as an index of the table: without an argument the index is
    [undefined], which is no position of the table. *)
Definition argIndex (cmdArgs : list Z) : Z :=
  match cmdArgs with
  | a :: _ => a
  | [] => -1
  end.

Module Games.

(** The [Games] object: [self.game], the channel the game was started on
    ([self.game.channel]), the number of [Player] objects created so far (the
    next one gets this number as its reference), the games that the
    dispatcher has let go of, and the notices sent, each with its channel. *)
Record t := mk {
  game : option Game;
  channel : string;
  allocated : nat;
  released : list Game;
  sent : list (string * Notice)
}.

Definition set_game (v : option Game) (s : t) : t :=
  {| game := v; channel := channel s; allocated := allocated s; released := released s;
     sent := sent s |}.

(** [client.say(channel, text)]. *)
Definition notify (chan : string) (n : Notice) (s : t) : t :=
  {| game := game s; channel := channel s; allocated := allocated s;
     released := released s; sent := sent s ++ [(chan, n)] |}.

(** [new Player(nick, user, hostname)], in the heap of the game [g]. *)
Definition newObject (m : Message) (s : t) (g : Game) : pid * Game :=
  (allocated s,
   upd_player (allocated s) (fun _ => newPlayer (m_nick m) (m_user m) (m_host m)) g).

(** The commands, with the names the handlers have. *)
Inductive command :=
| Start | Stop | Pause | Resume | Join | Quit | Cards | Play | List | Winner | Points
| Status | Pick | Discard.

Section Handlers.

(** The configuration module: the options, the cards, and the point limit
    when it is a number. *)
Variables (cfg : Config) (cardList : list Card) (limitConfig : option Z).

(** The clock, the random source of a new game and the arguments of the
    command (numbers, as the commands that take arguments expect them). *)
Variables (fuel : nat) (now : Z) (rs : list nat) (cmdArgs : list Z).

(** [self.start]. *)
Definition start (m : Message) (s : t) : result t :=
  match game s with
  | Some _ => Ok (notify (m_channel m) NAlreadyRunning s)
  | None =>
    let new_game := newGame cfg cardList limitConfig (head cmdArgs) rs
                      (fun _ => newPlayer "" "" "") in
    let '(player, new_game) := newObject m s new_game in
    rg ← addPlayer now player new_game;
    Ok {| game := Some rg.2; channel := m_channel m; allocated := S (allocated s);
          released := released s; sent := sent s |}
  end.

(** [self.stop]. *)
Definition stop (m : Message) (s : t) : result t :=
  match game s with
  | None => Ok (notify (m_channel m) NNoGame s)
  | Some g =>
    match getPlayer (m_nick m) (m_host m) g with
    | Some player =>
      Ok {| game := None; channel := channel s; allocated := allocated s;
            released := released s ++ [stop (Some player) false g]; sent := sent s |}
    | None => Ok s
    end
  end.

(** [self.pause]. *)
Definition pause (m : Message) (s : t) : result t :=
  match game s with
  | None => Ok (notify (m_channel m) NNoGame s)
  | Some g =>
    match getPlayer (m_nick m) (m_host m) g with
    | Some _ => g' ← pause now g; Ok (set_game (Some g') s)
    | None => Ok s
    end
  end.

(** [self.resume]. *)
Definition resume (m : Message) (s : t) : result t :=
  match game s with
  | None => Ok (notify (m_channel m) NNoGame s)
  | Some g =>
    match getPlayer (m_nick m) (m_host m) g with
    | Some _ => g' ← resume fuel now g; Ok (set_game (Some g') s)
    | None => Ok s
    end
  end.

(** [self.join]. *)
Definition join (m : Message) (s : t) : result t :=
  match game s with
  | None => Ok (notify (m_channel m) NNoGame s)
  | Some g =>
    live g
      (let '(player, g) := newObject m s g in
       rg ← addPlayer now player g;
       Ok {| game := Some rg.2; channel := channel s; allocated := S (allocated s);
             released := released s; sent := sent s |})
  end.

(** [self.quit]: [removePlayer] does nothing for a sender who is not on the
    roster. *)
Definition quit (m : Message) (s : t) : result t :=
  match game s with
  | None => Ok (notify (m_channel m) NNoGame s)
  | Some g =>
    match getPlayer (m_nick m) (m_host m) g with
    | Some player => g' ← removePlayer fuel now player false g; Ok (set_game (Some g') s)
    | None => Ok s
    end
  end.

(** [self.cards]: the test reads [seelf.game], and [seelf] is not
    declared. *)
Definition cards (m : Message) (s : t) : result t := Crash.

(** [self.play]: with a game, the lookup of the player reads [nick], which
    the handler does not declare. *)
Definition play (m : Message) (s : t) : result t :=
  match game s with
  | None => Ok (notify (m_channel m) NNoGame s)
  | Some _ => Crash
  end.

(** [self.list]. *)
Definition list (m : Message) (s : t) : result t :=
  match game s with
  | None => Ok (notify (m_channel m) NNoGame s)
  | Some g => live g (Ok (notify (channel s) (NPlayers (listPlayers g)) s))
  end.

(** [self.winner]. *)
Definition winner (m : Message) (s : t) : result t :=
  match game s with
  | None => Ok (notify (m_channel m) NNoGame s)
  | Some g =>
    match getPlayer (m_nick m) (m_host m) g with
    | Some player =>
      g' ← selectWinner fuel now (argIndex cmdArgs) (Some player) g;
      Ok (set_game (Some g') s)
    | None => Ok s
    end
  end.

(** [self.points]. *)
Definition points (m : Message) (s : t) : result t :=
  match game s with
  | None => Ok (notify (m_channel m) NNoGame s)
  | Some g => live g (Ok (set_game (Some (showPoints g)) s))
  end.

(** [self.status]. *)
Definition status (m : Message) (s : t) : result t :=
  match game s with
  | None => Ok (notify (m_channel m) NNoGame s)
  | Some g => live g (g' ← showStatus g; Ok (set_game (Some g') s))
  end.

(** [self.pick]. *)
Definition pick (m : Message) (s : t) : result t :=
  match game s with
  | None => Ok (notify (m_channel m) NNoGame s)
  | Some g =>
    match getPlayer (m_nick m) (m_host m) g with
    | Some player =>
      if State_eqb (state g) Played && String.eqb (m_channel m) (channel s) then
        g' ← selectWinner fuel now (argIndex cmdArgs) (Some player) g;
        Ok (set_game (Some g') s)
      else if State_eqb (state g) Playable then
        g' ← playCard fuel now cmdArgs player g; Ok (set_game (Some g') s)
      else Ok (notify (m_channel m) NPickUnavailable s)
    | None => Ok s
    end
  end.

(** [self.discard]: the sender is not checked to be on the roster, and
    [discard] reads the nick of the player it is given. *)
Definition discard (m : Message) (s : t) : result t :=
  match game s with
  | None => Ok (notify (m_channel m) NNoGameDiscard s)
  | Some g =>
    if State_eqb (state g) Playable then
      match getPlayer (m_nick m) (m_host m) g with
      | Some player => vg ← discard cmdArgs player g; Ok (set_game (Some vg.2) s)
      | None => Crash
      end
    else Ok (notify (m_channel m) NDiscardUnavailable s)
  end.

(** The handler of a command. *)
Definition run (c : command) (m : Message) (s : t) : result t :=
  match c with
  | Start => start m s
  | Stop => stop m s
  | Pause => pause m s
  | Resume => resume m s
  | Join => join m s
  | Quit => quit m s
  | Cards => cards m s
  | Play => play m s
  | List => list m s
  | Winner => winner m s
  | Points => points m s
  | Status => status m s
  | Pick => pick m s
  | Discard => discard m s
  end.

End Handlers.

End Games.

(** The dispatcher before any command, and a message of ann on the
    channel. *)
Definition noGames : Games.t :=
  {| Games.game := None; Games.channel := ""; Games.allocated := 0;
     Games.released := []; Games.sent := [] |}.

Definition annSays : Message :=
  {| m_channel := "#cah"; m_nick := "ann"; m_user := "u0"; m_host := "h0" |}.

(** A message of dee, who has not joined, and the dispatcher during the
    first round. *)
Definition deeSays : Message :=
  {| m_channel := "#cah"; m_nick := "dee"; m_user := "u3"; m_host := "h3" |}.

Definition duringRound1 : Games.t :=
  {| Games.game := Some round1; Games.channel := "#cah"; Games.allocated := 3;
     Games.released := []; Games.sent := [] |}.

(** ann and bob have joined; the start delay is over and the game waits for
    a third player. *)
Definition session2 : Game :=
  orElse (r ← addPlayer 0 0%nat session0;
          r ← addPlayer 0 1%nat r.2;
          Ok r.2) session0.

Definition waiting2 : Game := orElse (nextRound 1000 session2) session2.

(** * Properties *)

(** ** Results *)

Lemma bind_Ok {A B} (a : A) (k : A -> result B) : (Ok a ≫= k) = k a.
Proof. reflexivity. Qed.

Lemma isOk_orElse {A} (r : result A) (d : A) : isOk r = true -> r = Ok (orElse r d).
Proof. destruct r; simpl; intros H; try discriminate. reflexivity. Qed.

Lemma Ok_inj {A} (a b : A) : Ok a = Ok b -> a = b.
Proof. intros H. exact (f_equal (fun r => orElse r a) H). Qed.

Lemma bind_inv {A B} (r : result A) (k : A -> result B) b :
  r ≫= k = Ok b -> exists a, r = Ok a /\ k a = Ok b.
Proof. destruct r; simpl; intros H; try discriminate. eauto. Qed.

(** ** The random source and the shuffle *)

Lemma take_nth_Permutation {A} (n : nat) (l : list A) x r :
  take_nth n l = Some (x, r) -> Permutation l (x :: r).
Proof.
  revert n x r. induction l as [|y t IH]; intros [|n] x r H; simpl in H; try discriminate.
  - injection H as -> ->. reflexivity.
  - destruct (take_nth n t) as [[z r']|] eqn:E; [|discriminate].
    injection H as -> <-. rewrite (IH _ _ _ E). apply perm_swap.
Qed.

Lemma shuffle_fuel_Permutation {A} (k : nat) rs (l : list A) :
  Permutation (shuffle_fuel k rs l).1 l.
Proof.
  revert rs l. induction k as [|k IH]; intros rs l; simpl; [reflexivity|].
  destruct (take_nth _ l) as [[x rest]|] eqn:E; [|reflexivity].
  specialize (IH (tl rs) rest). destruct (shuffle_fuel k (tl rs) rest) as [t rs'].
  simpl in *. rewrite IH. symmetry. eapply take_nth_Permutation, E.
Qed.

Lemma shuffle_with_Permutation {A} rs (l : list A) :
  Permutation (shuffle_with rs l).1 l.
Proof. apply shuffle_fuel_Permutation. Qed.

Lemma shuffleM_spec {A} (l : list A) g :
  (shuffleM l g).1 = (shuffle_with (entropy g) l).1 /\
  (shuffleM l g).2 = set_entropy (shuffle_with (entropy g) l).2 g.
Proof. unfold shuffleM. destruct (shuffle_with (entropy g) l); auto. Qed.

(** ** Moving cards to the answer discard pile *)

Lemma discardGroup_eq group g :
  discardGroup group g =
    set_discards_answer (discards_answer g ++ map (set_owner None) group) g.
Proof.
  unfold discardGroup. revert g. induction group as [|c t IH]; intros g.
  - simpl. rewrite app_nil_r. destruct g; reflexivity.
  - cbn [fold_left map]. rewrite IH. unfold addCard. cbn [discards_answer set_discards_answer].
    rewrite <- app_assoc. reflexivity.
Qed.

Lemma discardGroups_eq l g :
  fold_left (fun g entry => discardGroup entry g) l g =
    set_discards_answer (discards_answer g ++ map (set_owner None) (concat l)) g.
Proof.
  revert g. induction l as [|e t IH]; intros g.
  - simpl. rewrite app_nil_r. destruct g; reflexivity.
  - cbn [fold_left concat]. rewrite IH, discardGroup_eq, map_app.
    cbn [discards_answer set_discards_answer]. rewrite <- app_assoc. reflexivity.
Qed.

Lemma clearTable_eq g :
  clearTable g =
    set_table_answer []
      (set_discards_answer
         (discards_answer g ++ map (set_owner None) (concat (table_answer g)))
         (set_table_question None
            match table_question g with
            | Some q => set_discards_question (addCard q (discards_question g)) g
            | None => g
            end)).
Proof.
  unfold clearTable. cbv zeta. rewrite discardGroups_eq.
  destruct (table_question g); reflexivity.
Qed.

(** ** Recycling the discard piles (checkDecks) *)

Lemma checkDecks_answer g :
  decks_answer (checkDecks g) =
    (if (numCards (decks_answer g) =? 0)%nat
     then (shuffle_with (entropy g) (discards_answer g)).1 else decks_answer g) /\
  discards_answer (checkDecks g) =
    (if (numCards (decks_answer g) =? 0)%nat then [] else discards_answer g).
Proof.
  unfold checkDecks.
  destruct (numCards (decks_answer g) =? 0)%nat eqn:Ea.
  - unfold shuffleM; simpl.
    destruct (shuffle_with (entropy g) (discards_answer g)) as [d rs] eqn:Es; simpl.
    destruct (numCards (decks_question g) =? 0)%nat; simpl.
    + destruct (shuffle_with rs (discards_question g)); simpl. auto.
    + auto.
  - destruct (numCards (decks_question g) =? 0)%nat; simpl; [|auto].
    unfold shuffleM; simpl. destruct (shuffle_with (entropy g) (discards_question g)); simpl; auto.
Qed.



(** ** What dealing leaves alone *)

Lemma dealt_refl g : dealt g g.
Proof. repeat split. Qed.

Lemma dealt_trans g1 g2 g3 : dealt g1 g2 -> dealt g2 g3 -> dealt g1 g3.
Proof.
  intros (L1 & C1 & T1 & P1) (L2 & C2 & T2 & P2).
  repeat (split; [congruence|]).
  intros q. destruct (P1 q), (P2 q). split; congruence.
Qed.

Lemma emit_dealt e g : dealt g (emit e g).
Proof. repeat split. Qed.

Lemma upd_cards_dealt p f g :
  dealt g (upd_player p (fun P => set_cards (f P) P) g).
Proof.
  repeat (split; [reflexivity|]).
  intros q. unfold upd_player; simpl. destruct (q =? p)%nat; split; reflexivity.
Qed.

Lemma checkDecks_dealt g : dealt g (checkDecks g).
Proof. break_checkDecks; repeat split. Qed.

Lemma dealOne_dealt p g g' : dealOne p g = Ok g' -> dealt g g'.
Proof.
  unfold dealOne. destruct (drawCard (decks_answer (checkDecks g))) as [[c rest]|]; [|discriminate].
  intros [= <-]. eapply dealt_trans; [apply checkDecks_dealt|].
  eapply dealt_trans; [|apply upd_cards_dealt]. repeat split.
Qed.

Lemma dealN_dealt k p g g' : dealN k p g = Ok g' -> dealt g g'.
Proof.
  revert g. induction k as [|k IH]; simpl; intros g.
  - intros [= <-]. apply dealt_refl.
  - destruct (dealOne p g) as [g1| |] eqn:E; simpl; try discriminate.
    intros H. eapply dealt_trans; [eapply dealOne_dealt, E|]. eapply IH, H.
Qed.

Lemma foldM_dealt {A} (f : A -> Game -> result Game) l :
  (forall x g g', f x g = Ok g' -> dealt g g') ->
  forall g g', foldM f l g = Ok g' -> dealt g g'.
Proof.
  intros Hf. induction l as [|x t IH]; simpl; intros g g'.
  - intros [= <-]. apply dealt_refl.
  - destruct (f x g) as [g1| |] eqn:E; simpl; try discriminate.
    intros H. eapply dealt_trans; eauto.
Qed.

Lemma fold_left_dealt {A} (f : Game -> A -> Game) l :
  (forall x g, dealt g (f g x)) -> forall g, dealt g (fold_left f l g).
Proof.
  intros Hf. induction l as [|x t IH]; simpl; intros g; [apply dealt_refl|].
  eapply dealt_trans; [apply Hf|apply IH].
Qed.

Lemma deal_dealt p num g g' : deal p num g = Ok g' -> dealt g g'.
Proof.
  destruct p as [q|]; simpl.
  - destruct num; [apply dealN_dealt|]. intros [= <-]. apply dealt_refl.
  - apply foldM_dealt. intros x g0 g0'. apply dealN_dealt.
Qed.

Lemma showCards_dealt p g : dealt g (showCards p g).
Proof. repeat split. Qed.

Lemma dealt_players g g' : dealt g g' -> players g' = players g.
Proof. intros (L & _). unfold ledgerView in L. congruence. Qed.

Lemma dealt_czar g g' : dealt g g' -> czar g' = czar g.
Proof. intros (_ & C & _). unfold controlView in C. congruence. Qed.

Lemma dealt_state g g' : dealt g g' -> state g' = state g.
Proof. intros (_ & C & _). unfold controlView in C. congruence. Qed.

Lemma dealt_round g g' : dealt g g' -> round g' = round g.
Proof. intros (_ & C & _). unfold controlView in C. congruence. Qed.

Lemma dealt_table_answer g g' : dealt g g' -> table_answer g' = table_answer g.
Proof. intros (L & _). unfold ledgerView in L. congruence. Qed.

Lemma dealt_table_question g g' : dealt g g' -> table_question g' = table_question g.
Proof. intros (_ & _ & T & _). unfold promptView in T. congruence. Qed.

Lemma dealt_gpoints g g' : dealt g g' -> gpoints g' = gpoints g.
Proof. intros (L & _). unfold ledgerView in L. congruence. Qed.

Lemma dealt_idleCounts g g' : dealt g g' -> idleCounts g' = idleCounts g.
Proof. intros (L & _). unfold ledgerView in L. congruence. Qed.

Lemma dealt_person g g' q : dealt g g' -> personView (heap g' q) = personView (heap g q).
Proof. intros (_ & _ & _ & P). apply P. Qed.

Lemma dealt_isCzar g g' q : dealt g g' -> isCzar (heap g' q) = isCzar (heap g q).
Proof. intros (_ & _ & _ & P). apply P. Qed.

Lemma dealt_points g g' q : dealt g g' -> points (heap g' q) = points (heap g q).
Proof. intros H. apply (dealt_person _ _ q) in H. unfold personView in H. congruence. Qed.

Lemma dealt_set_table_question v g g' :
  dealt g g' -> dealt (set_table_question v g) (set_table_question v g').
Proof.
  intros (L & C & T & P). unfold dealt, ledgerView, controlView, promptView in *; simpl.
  repeat (split; [congruence|]). apply P.
Qed.

Lemma dealt_set_clock v w g g' :
  dealt g g' ->
  dealt (set_turnTimer v (set_roundStarted w g)) (set_turnTimer v (set_roundStarted w g')).
Proof.
  intros (L & C & T & P). unfold dealt, ledgerView, controlView, promptView in *; simpl.
  repeat (split; [congruence|]). apply P.
Qed.

(** [playQuestion] reveals a prompt, deals, and starts the clock and the
    round timer. *)
Lemma playQuestion_dealt now g g' :
  playQuestion now g = Ok g' ->
  exists card g1, dealt (set_table_question (Some card) g) g1 /\
    g' = set_turnTimer true (set_roundStarted (Some now) g1).
Proof.
  unfold playQuestion.
  destruct (drawCard (decks_question (checkDecks g))) as [[card rest]|]; [|discriminate].
  set (g1 := fold_left _ _ _).
  assert (D1 : dealt (set_table_question (Some card) g) g1).
  { subst g1. eapply dealt_trans; [|apply fold_left_dealt; intros; apply emit_dealt].
    apply dealt_set_table_question.
    eapply dealt_trans; [apply checkDecks_dealt|]. repeat split. }
  destruct (0 <? draw card).
  - destruct (foldM _ _ g1) as [g2| |] eqn:E; simpl; try discriminate.
    intros [= <-]. exists card, g2. split; [|reflexivity].
    eapply dealt_trans; [apply D1|].
    eapply foldM_dealt; [|apply E]. intros x g0 g0'. apply dealN_dealt.
  - simpl. intros [= <-]. exists card, g1. auto.
Qed.

(** ** The czar rotation (setCzar, nextRound) *)

Lemma lookupZ_of_nat {A} (l : list A) (i : nat) : lookupZ l (Z.of_nat i) = l !! i.
Proof.
  unfold lookupZ. destruct (Z.leb_spec 0 (Z.of_nat i)); [|lia].
  rewrite Nat2Z.id. clear. revert i. induction l as [|x t IH]; intros [|i]; simpl; auto.
Qed.

Lemma lookupZ_neg {A} (l : list A) (i : Z) : i < 0 -> lookupZ l i = None.
Proof. unfold lookupZ. intros H. destruct (Z.leb_spec 0 i); [lia|reflexivity]. Qed.

Lemma indexOf_range p l : -1 <= indexOf p l < Z.of_nat (length l).
Proof.
  induction l as [|q t IH]; simpl; [lia|].
  destruct (q =? p)%nat; [lia|]. destruct (Z.ltb_spec (indexOf p t) 0); lia.
Qed.

Lemma indexOf_notin p l : p ∉ l -> indexOf p l = -1.
Proof.
  induction l as [|q t IH]; simpl; intros H; [reflexivity|].
  apply not_elem_of_cons in H as [Hne Ht].
  destruct (Nat.eqb_spec q p); [congruence|]. rewrite (IH Ht). reflexivity.
Qed.

Lemma indexOf_lookup p l i :
  NoDup l -> l !! i = Some p -> indexOf p l = Z.of_nat i.
Proof.
  revert i. induction l as [|q t IH]; intros i Hnd Hi; [discriminate|].
  apply NoDup_cons in Hnd as [Hq Hnd]. simpl.
  destruct i as [|i]; simpl in Hi.
  - injection Hi as ->. rewrite Nat.eqb_refl. reflexivity.
  - destruct (Nat.eqb_spec q p) as [->|Hne].
    + exfalso. apply Hq. eapply list_elem_of_lookup_2, Hi.
    + rewrite (IH i Hnd Hi). destruct (Z.ltb_spec (Z.of_nat i) 0); lia.
Qed.

Lemma setCzar_spec g g' :
  setCzar g = Ok g' ->
  czar g' = match lookupZ (players g) (indexOfCzar g + 1) with
            | Some q => Some q
            | None => lookupZ (players g) 0
            end /\
  ledgerView g' = ledgerView g /\
  round g' = round g /\
  (forall q, personView (heap g' q) = personView (heap g q)).
Proof.
  unfold setCzar.
  destruct (match lookupZ (players g) (indexOfCzar g + 1) with
            | Some q => Some q | None => lookupZ (players g) 0 end) as [c|]; [|discriminate].
  intros [= <-]. repeat split.
  intros q. unfold upd_player; simpl. destruct (q =? c)%nat; reflexivity.
Qed.

(** The three outcomes of [nextRound]: the session stops on the point limit,
    waits for players, or starts a round. *)
Lemma nextRound_cases now g g' :
  nextRound now g = Ok g' ->
  (state g' = Stopped /\ players g' = [] /\ table_answer g' = [] /\ table_question g' = None /\
   gpoints g' = gpoints g /\ idleCounts g' = idleCounts g /\ heap g' = heap g) \/
  (state g' = Waiting /\ ledgerView g' = ledgerView g /\ heap g' = heap g /\
   table_question g' = table_question g /\ czar g' = czar g /\ round g' = round g) \/
  (state g' = Playable /\ (3 <= length (players g))%nat /\ round g' = round g + 1 /\
   is_Some (table_question g') /\
   exists gc, setCzar (set_round (round g + 1) (set_stopTimeout false g)) = Ok gc /\
     czar g' = czar gc /\ ledgerView g' = ledgerView g /\
     forall q, personView (heap g' q) = personView (heap g q)).
Proof.
  unfold nextRound.
  destruct (if 0 <? pointLimit _ then _ else None) as [w|].
  { intros [= <-]. left. unfold stop; simpl.
    destruct (1 <? round g); unfold setTopic; simpl;
      destruct (setTopicOption (config g)); simpl; repeat split. }
  destruct (length (players _) <? 3)%nat eqn:E3.
  { intros [= <-]. right; left. repeat split. }
  intros H. simpl in E3.
  apply bind_inv in H as (gc & Ec & H). apply bind_inv in H as (gd & Ed & H).
  apply bind_inv in H as (gq & Eq & H). revert H.
  intros [= <-]. right; right.
  pose proof (setCzar_spec _ _ Ec) as (Hc & Lc & Rc & Pc).
  apply deal_dealt in Ed.
  apply playQuestion_dealt in Eq as (card & g1 & D1 & ->).
  set (gs := fold_left _ _ _).
  assert (Ds : dealt (set_turnTimer true (set_roundStarted (Some now) g1)) gs).
  { apply fold_left_dealt. intros q g0. destruct (isCzar (heap g0 q));
      [apply dealt_refl|apply showCards_dealt]. }
  assert (Dall : dealt (set_turnTimer true (set_roundStarted (Some now)
                        (set_table_question (Some card) gd))) gs).
  { eapply dealt_trans; [|apply Ds]. apply dealt_set_clock.
    eapply dealt_trans; [|apply D1]. repeat split. }
  simpl. apply Nat.ltb_ge in E3. repeat split; auto.
  - rewrite (dealt_round _ _ Dall). simpl. rewrite (dealt_round _ _ Ed). apply Rc.
  - rewrite (dealt_table_question _ _ Dall). simpl. eauto.
  - exists gc. split; [exact Ec|]. split; [|split].
    + rewrite (dealt_czar _ _ Dall). simpl. apply (dealt_czar _ _ Ed).
    + destruct Dall as (L & _). destruct Ed as (L' & _).
      unfold ledgerView in *; simpl in *. congruence.
    + intros q. rewrite (dealt_person _ _ q Dall). simpl.
      rewrite (dealt_person _ _ q Ed). apply Pc.
Qed.

(** C4. When [nextRound] starts a round on a roster of [K] distinct players,
    the roster is unchanged and the new czar is the player one position after
    the previous czar, modulo [K]; it is the player at position 0 when there
    was no previous czar, and also when the previous czar is no longer on the
    roster. *)
Theorem nextRound_czar_round_robin (now : Z) (g g' : Game) :
  NoDup (players g) ->
  nextRound now g = Ok g' ->
  state g' = Playable ->
  players g' = players g /\
  (czar g = None -> czar g' = players g !! 0%nat) /\
  (forall c, czar g = Some c -> c ∉ players g -> czar g' = players g !! 0%nat) /\
  (forall c i, czar g = Some c -> players g !! i = Some c ->
     czar g' = players g !! ((i + 1) mod length (players g))%nat) /\
  is_Some (czar g').
Proof.
  intros Hnd Hn Hst.
  apply nextRound_cases in Hn as [(H & _)|[(H & _)|(_ & H3 & _ & _ & gc & Hc & Hcz & L & _)]];
    try congruence.
  apply setCzar_spec in Hc as (Hc & _). simpl in Hc.
  unfold indexOfCzar in Hc; simpl in Hc. rewrite <- Hcz in Hc.
  assert (H0 : is_Some (players g !! 0%nat)) by (apply lookup_lt_is_Some; lia).
  split; [unfold ledgerView in L; congruence|].
  split; [|split; [|split]].
  - intros E. rewrite E in Hc. simpl in Hc. rewrite (lookupZ_of_nat _ 0) in Hc.
    destruct H0 as [x Hx]. rewrite Hx in Hc |- *. exact Hc.
  - intros c E Hnot. rewrite E, (indexOf_notin _ _ Hnot) in Hc. simpl in Hc.
    rewrite (lookupZ_of_nat _ 0) in Hc.
    destruct H0 as [x Hx]. rewrite Hx in Hc |- *. exact Hc.
  - intros c i E Hi. rewrite E, (indexOf_lookup _ _ _ Hnd Hi) in Hc.
    replace (Z.of_nat i + 1) with (Z.of_nat (i + 1)) in Hc by lia.
    rewrite lookupZ_of_nat, (lookupZ_of_nat _ 0) in Hc.
    pose proof (lookup_lt_Some _ _ _ Hi) as Hlt.
    destruct (decide (i + 1 < length (players g))%nat) as [Hin|Hout].
    + rewrite Nat.mod_small by lia.
      destruct (lookup_lt_is_Some_2 (players g) (i + 1)%nat Hin) as [x Hx].
      rewrite Hx in Hc |- *. exact Hc.
    + assert (Heq : (i + 1)%nat = length (players g)) by lia.
      rewrite (lookup_ge_None_2 (players g) (i + 1)%nat) in Hc by lia.
      rewrite Heq, Nat.Div0.mod_same. exact Hc.
  - rewrite Hc. destruct (lookupZ _ _); [eauto|].
    rewrite (lookupZ_of_nat _ 0). exact H0.
Qed.

(** From the first round, where ann (position 0) is the czar, the next round
    makes bob (position 1) the czar. *)
Lemma nextRound_czar_round_robin_witness :
  czar (orElse (nextRound 5000 round1) round1) = Some 1%nat.
Proof.
  assert (Hnd : NoDup (players round1)).
  { apply (bool_decide_unpack _). vm_compute. exact I. }
  assert (Hrun : nextRound 5000 round1 = Ok (orElse (nextRound 5000 round1) round1)).
  { apply isOk_orElse. vm_compute. reflexivity. }
  assert (Hst : state (orElse (nextRound 5000 round1) round1) = Playable).
  { vm_compute. reflexivity. }
  destruct (nextRound_czar_round_robin 5000 round1 _ Hnd Hrun Hst) as (_ & _ & _ & H & _).
  rewrite (H 0%nat 0%nat); vm_compute; reflexivity.
Defined.

(** ** The roster (addPlayer) *)

Lemma getPlayer_None n h g :
  getPlayer n h g = None ->
  forall q, q ∈ players g -> ~ (nick (heap g q) = n /\ hostname (heap g q) = h).
Proof.
  unfold getPlayer. intros Hf q Hq [Hn Hh].
  apply list_elem_of_In in Hq. pose proof (find_none _ _ Hf q Hq) as Hb. simpl in Hb.
  rewrite Hn, Hh, !String.eqb_refl in Hb. discriminate.
Qed.

Lemma getPlayer_found n h g q :
  q ∈ players g -> nick (heap g q) = n -> hostname (heap g q) = h ->
  is_Some (getPlayer n h g).
Proof.
  unfold getPlayer. intros Hq Hn Hh.
  destruct (find _ (players g)) eqn:Hf; [eauto|].
  apply list_elem_of_In in Hq. pose proof (find_none _ _ Hf q Hq) as Hb. simpl in Hb.
  rewrite Hn, Hh, !String.eqb_refl in Hb. discriminate.
Qed.

Lemma rosterKeys_ext g g' :
  players g' = players g ->
  (forall q, identityKey (heap g' q) = identityKey (heap g q)) ->
  rosterKeys g' = rosterKeys g.
Proof.
  unfold rosterKeys. intros -> H. apply map_ext. intros q. apply H.
Qed.

Lemma personView_identity P P' : personView P' = personView P -> identityKey P' = identityKey P.
Proof. unfold personView, identityKey. congruence. Qed.

Lemma nextRound_roster_unique now g g' :
  nextRound now g = Ok g' -> roster_unique g -> roster_unique g'.
Proof.
  intros H U. unfold roster_unique in *.
  apply nextRound_cases in H
    as [(_ & Hp & _)|[(_ & L & Hh & _)|(_ & _ & _ & _ & gc & _ & _ & L & P)]].
  - unfold rosterKeys. rewrite Hp. constructor.
  - rewrite (rosterKeys_ext g g'); [exact U| |intros q; rewrite Hh; reflexivity].
    unfold ledgerView in L. congruence.
  - rewrite (rosterKeys_ext g g'); [exact U| |intros q; apply personView_identity, P].
    unfold ledgerView in L. congruence.
Qed.

(** C9. [addPlayer] keeps the roster free of two players with the same
    identity (nickname, user id and host id jointly); a player whose identity
    is already on the roster is refused: the result is the failure value and
    the session, its roster included, is unchanged. *)
Theorem addPlayer_roster_unique (now : Z) (p : pid) (g : Game) (r : option pid) (g' : Game) :
  roster_unique g ->
  addPlayer now p g = Ok (r, g') ->
  roster_unique g' /\
  (identityKey (heap g p) ∈ rosterKeys g -> r = None /\ players g' = players g /\ g' = g).
Proof.
  intros U. unfold addPlayer.
  destruct (getPlayer _ _ g) as [q|] eqn:Hget.
  { intros [= <- <-]. auto. }
  pose proof (getPlayer_None _ _ _ Hget) as Hnone.
  assert (Hfresh : identityKey (heap g p) ∉ rosterKeys g).
  { unfold rosterKeys. intros Hin. apply list_elem_of_fmap in Hin as (q & Hk & Hq).
    apply (Hnone q Hq). unfold identityKey in Hk. split; congruence. }
  intros Hrun. split; [|intros Hin; contradiction].
  revert Hrun.
  set (registered := match find _ (gpoints g) with None => _ | Some _ => _ end).
  assert (Hreg : forall g1, registered = Some g1 ->
            players g1 = players g /\
            forall q, identityKey (heap g1 q) = identityKey (heap g q)).
  { subst registered. intros g1.
    destruct (find _ (gpoints g)) as [e|].
    - destruct (js_ge _ _); [discriminate|]. intros [= <-]. split; [reflexivity|].
      intros q. unfold upd_player; simpl. destruct (q =? p)%nat; reflexivity.
    - intros [= <-]. split; reflexivity. }
  destruct registered as [g1|].
  2:{ intros [= <- <-]. exact U. }
  destruct (Hreg g1 eq_refl) as [Hp Hk]. clear Hreg.
  set (g2 := say _ (set_players _ g1)).
  assert (U2 : roster_unique g2).
  { unfold roster_unique, rosterKeys. subst g2. simpl. rewrite Hp, map_app. simpl.
    rewrite (map_ext _ (fun q => identityKey (heap g q))) by (intros; apply Hk).
    rewrite Hk. apply NoDup_app. split; [exact U|]. split.
    - intros k Hin Hk'. apply list_elem_of_singleton in Hk'. subst k. contradiction.
    - apply NoDup_singleton. }
  intros Hrun. apply bind_inv in Hrun as (g3 & Hn & Hrun). injection Hrun as <- <-.
  destruct (_ && _).
  - eapply nextRound_roster_unique; eauto.
  - injection Hn as <-. exact U2.
Qed.

(** The three already on the roster stay unique when a fourth player joins. *)
Lemma addPlayer_roster_unique_witness : roster_unique session4.2.
Proof.
  assert (U : roster_unique session3).
  { apply (bool_decide_unpack _). vm_compute. exact I. }
  assert (Hrun : addPlayer 0 3%nat session3 = Ok (session4.1, session4.2)).
  { rewrite <- surjective_pairing. apply isOk_orElse. vm_compute. reflexivity. }
  exact (proj1 (addPlayer_roster_unique 0 3%nat session3 _ _ U Hrun)).
Defined.

(** ** Pause and resume *)

Lemma State_eqb_eq a b : State_eqb a b = true <-> a = b.
Proof. destruct a, b; simpl; split; intros H; try reflexivity; discriminate. Qed.

Lemma State_eqb_refl a : State_eqb a a = true.
Proof. destruct a; reflexivity. Qed.

Lemma State_eqb_neq a b : a <> b -> State_eqb a b = false.
Proof.
  intros H. destruct (State_eqb a b) eqn:E; [|reflexivity].
  apply State_eqb_eq in E. contradiction.
Qed.





(** ** Picking cards from a hand *)

Lemma uniq_elem_of x l : x ∈ uniq l <-> x ∈ l.
Proof.
  induction l as [|y t IH]; simpl; [reflexivity|].
  rewrite !elem_of_cons, <- IH. split.
  - intros [->|H]; [auto|]. apply list_elem_of_In, filter_In in H as [H _].
    right. apply list_elem_of_In, H.
  - intros [->|H]; [auto|]. destruct (Z.eq_dec x y) as [->|Hne]; [auto|].
    right. apply list_elem_of_In, filter_In. split; [apply list_elem_of_In, H|].
    apply negb_true_iff, Z.eqb_neq, Hne.
Qed.

Lemma NoDup_filter_bool {A} (f : A -> bool) (l : list A) : NoDup l -> NoDup (List.filter f l).
Proof.
  induction 1 as [|x t Hx Hnd IH]; simpl; [constructor|].
  destruct (f x); [|exact IH]. constructor; [|exact IH].
  intros Hin. apply Hx. apply list_elem_of_In, filter_In in Hin as [Hin _].
  apply list_elem_of_In, Hin.
Qed.

Lemma uniq_NoDup l : NoDup (uniq l).
Proof.
  induction l as [|y t IH]; simpl; constructor.
  - intros Hin. apply list_elem_of_In, filter_In in Hin as [_ Hin].
    rewrite Z.eqb_refl in Hin. discriminate.
  - apply NoDup_filter_bool, IH.
Qed.

Lemma uniq_idem l : uniq (uniq l) = uniq l.
Proof.
  assert (H : forall l, NoDup l -> uniq l = l).
  { clear. induction 1 as [|x t Hx Hnd IH]; simpl; [reflexivity|]. rewrite IH. f_equal.
    clear -Hx. induction t as [|y t IH]; simpl; [reflexivity|].
    apply not_elem_of_cons in Hx as [Hne Hx]. destruct (Z.eqb_spec y x); [congruence|].
    simpl. rewrite (IH Hx). reflexivity. }
  apply H, uniq_NoDup.
Qed.

Lemma validIndex_spec cs i : validIndex cs i = true <-> 0 <= i < Z.of_nat (length cs).
Proof. unfold validIndex. rewrite andb_true_iff, Z.leb_le, Z.ltb_lt. reflexivity. Qed.

Lemma forallb_valid_uniq cs xs :
  forallb (validIndex cs) (uniq xs) = true <->
  Forall (fun i => 0 <= i < Z.of_nat (length cs)) xs.
Proof.
  rewrite forallb_forall, Forall_forall. split; intros H i Hi.
  - apply validIndex_spec, H, list_elem_of_In, uniq_elem_of, Hi.
  - apply validIndex_spec, H, uniq_elem_of, list_elem_of_In, Hi.
Qed.

Lemma pickCards_Some xs cs :
  Forall (fun i => 0 <= i < Z.of_nat (length cs)) xs ->
  pickCards xs cs = Some (omap (lookupZ cs) (uniq xs), dropAt (uniq xs) 0 cs).
Proof.
  intros H. unfold pickCards. cbv zeta.
  apply forallb_valid_uniq in H. rewrite H. reflexivity.
Qed.

Lemma pickCards_None xs cs :
  ~ Forall (fun i => 0 <= i < Z.of_nat (length cs)) xs -> pickCards xs cs = None.
Proof.
  intros H. unfold pickCards. cbv zeta.
  destruct (forallb (validIndex cs) (uniq xs)) eqn:E; [|reflexivity].
  apply forallb_valid_uniq in E. contradiction.
Qed.

Lemma pickCards_uniq xs cs : pickCards (uniq xs) cs = pickCards xs cs.
Proof. unfold pickCards. cbv zeta. rewrite uniq_idem. reflexivity. Qed.

Lemma dropAt_nil i cs : dropAt [] i cs = cs.
Proof. revert i. induction cs as [|c t IH]; intros i; simpl; [reflexivity|]. rewrite IH. reflexivity. Qed.

Lemma dropAt_below j idx b cs : j < b -> dropAt (j :: idx) b cs = dropAt idx b cs.
Proof.
  revert b. induction cs as [|c t IH]; intros b Hb; simpl; [reflexivity|].
  destruct (Z.eqb_spec b j); [lia|]. simpl. rewrite IH by lia. reflexivity.
Qed.

Lemma lookupZ_cons {A} (x : A) l i : 0 < i -> lookupZ (x :: l) i = lookupZ l (i - 1).
Proof.
  intros Hi. unfold lookupZ.
  destruct (Z.leb_spec 0 i), (Z.leb_spec 0 (i - 1)); try lia.
  replace (Z.to_nat i) with (S (Z.to_nat (i - 1))) by lia. reflexivity.
Qed.

Lemma existsb_eqb_false b (t : list Z) : b ∉ t -> existsb (Z.eqb b) t = false.
Proof.
  intros H. destruct (existsb (Z.eqb b) t) eqn:E; [|reflexivity].
  apply existsb_exists in E as (x & Hx & Hb). apply Z.eqb_eq in Hb. subst x.
  exfalso. apply H, list_elem_of_In, Hx.
Qed.

Lemma dropAt_extract i t b cs c :
  i ∉ t -> b <= i -> lookupZ cs (i - b) = Some c ->
  Permutation (dropAt t b cs) (c :: dropAt (i :: t) b cs).
Proof.
  intros Hi. revert b. induction cs as [|x r IH]; intros b Hb Hc.
  - unfold lookupZ in Hc. destruct (0 <=? i - b); [destruct (Z.to_nat (i - b))|]; discriminate.
  - simpl. destruct (Z.eqb_spec b i) as [->|Hne].
    + simpl. rewrite existsb_eqb_false by exact Hi.
      replace (i - i) with 0 in Hc by lia. injection Hc as ->.
      rewrite dropAt_below by lia. reflexivity.
    + simpl. rewrite lookupZ_cons in Hc by lia.
      replace (i - b - 1) with (i - (b + 1)) in Hc by lia.
      specialize (IH (b + 1) ltac:(lia) Hc).
      destruct (existsb (Z.eqb b) t); [exact IH|].
      rewrite IH. apply perm_swap.
Qed.

(** The picked cards and the remaining cards are the cards of the hand. *)
Lemma pick_partition idx cs :
  NoDup idx -> Forall (fun i => 0 <= i < Z.of_nat (length cs)) idx ->
  Permutation cs (omap (lookupZ cs) idx ++ dropAt idx 0 cs) /\
  length (omap (lookupZ cs) idx) = length idx.
Proof.
  induction 1 as [|i t Hi Hnd IH]; intros Hv.
  - simpl. rewrite dropAt_nil. auto.
  - apply Forall_cons in Hv as [Hvi Hv]. destruct (IH Hv) as [IHp IHl].
    assert (Hc : is_Some (lookupZ cs i)).
    { replace i with (Z.of_nat (Z.to_nat i)) by lia. rewrite lookupZ_of_nat.
      apply lookup_lt_is_Some. lia. }
    destruct Hc as [c Hc]. simpl. rewrite Hc. simpl. split; [|f_equal; exact IHl].
    rewrite IHp at 1.
    rewrite (dropAt_extract i t 0 cs c Hi) by (rewrite ?Z.sub_0_r; auto; lia).
    symmetry. apply Permutation_middle.
Qed.

Lemma Forall_valid_uniq (cs : list Card) xs :
  Forall (fun i => 0 <= i < Z.of_nat (length cs)) xs ->
  Forall (fun i => 0 <= i < Z.of_nat (length cs)) (uniq xs).
Proof.
  rewrite !Forall_forall. intros H i Hi. apply H, uniq_elem_of, Hi.
Qed.

(** ** Playing cards (playCard) *)

Lemma hand_nonempty g p : (numCards (hand g p) =? 0)%nat = false <-> hand g p <> [].
Proof.
  unfold numCards. rewrite Nat.eqb_neq. destruct (hand g p); simpl; split; intros; congruence || lia.
Qed.

Lemma playCard_core_spec xs p g q :
  table_question g = Some q ->
  match playCard_core xs p g with
  | Ok (Accepted, g1) => playable_by xs p g q /\ play_effect xs p q g g1
  | Ok (Rejected, g') => ~ playable_by xs p g q /\ exists e, g' = emit e g
  | _ => False
  end.
Proof.
  intros Hq. unfold playCard_core, playable_by.
  destruct (State_eqb (state g) Paused) eqn:Ep.
  { apply State_eqb_eq in Ep. split; [|eexists; reflexivity]. intros (H & _). congruence. }
  destruct (State_eqb (state g) Playable) eqn:Es; simpl.
  2:{ split; [|eexists; reflexivity]. intros (H & _).
      rewrite H in Es. discriminate. }
  apply State_eqb_eq in Es.
  destruct (numCards (hand g p) =? 0)%nat eqn:Eh.
  { split; [|eexists; reflexivity]. intros (_ & H & _).
    apply hand_nonempty in H. congruence. }
  apply hand_nonempty in Eh.
  destruct (isCzar (heap g p)) eqn:Ec.
  { split; [|eexists; reflexivity]. intros (_ & _ & H & _). congruence. }
  destruct (hasPlayed (heap g p)) eqn:Epl.
  { split; [|eexists; reflexivity]. intros (_ & _ & _ & H & _). congruence. }
  rewrite Hq. destruct (Z.eqb_spec (Z.of_nat (length (uniq xs))) (pick q)) as [Ek|Ek]; simpl.
  2:{ split; [|eexists; reflexivity]. intros (_ & _ & _ & _ & H & _). congruence. }
  rewrite pickCards_uniq.
  destruct (decide (Forall (fun i => 0 <= i < Z.of_nat (length (hand g p))) xs)) as [Hv|Hv].
  - rewrite (pickCards_Some _ _ Hv). split; [auto 10|].
    destruct (pick_partition (uniq xs) (hand g p) (uniq_NoDup xs) (Forall_valid_uniq _ _ Hv))
      as [Hperm _].
    unfold play_effect, hand, upd_player; simpl. rewrite Nat.eqb_refl.
    split; [reflexivity|]. split; [exact Hperm|].
    repeat (split; [reflexivity|]). split; [|split; reflexivity].
    intros o Ho. apply Nat.eqb_neq in Ho. rewrite Ho. reflexivity.
  - rewrite (pickCards_None _ _ Hv). split; [|eexists; reflexivity].
    intros (_ & _ & _ & _ & _ & H). contradiction.
Qed.

(** C1 (amended). With a prompt [q] on the table, [playCard] accepts the
    indexes [xs] from [p] if and only if the state is Playable, [p] holds
    cards, is not the czar, has not played this round, the number of distinct
    indexes equals the pick-count of [q], and every index is a position of
    [p]'s hand. An accepted play moves the picked cards from the hand to the
    table as one entry, marks [p] as having played and resets its inactivity
    counter to 0 (then the entries are shown if everybody has played); in
    every other case the call only sends a message. *)
Theorem playCard_accepted_iff (xs : list Z) (p : pid) (g : Game) (q : Card) :
  table_question g = Some q ->
  (playable_by xs p g q <-> exists g1, playCard_core xs p g = Ok (Accepted, g1)) /\
  (forall g1, playCard_core xs p g = Ok (Accepted, g1) ->
     play_effect xs p q g g1 /\
     forall fuel now, playCard fuel now xs p g =
       if checkAllPlayed g1 then showEntries fuel now g1 else Ok g1) /\
  (~ playable_by xs p g q ->
     exists e, playCard_core xs p g = Ok (Rejected, emit e g) /\
       forall fuel now, playCard fuel now xs p g = Ok (emit e g)).
Proof.
  intros Hq. pose proof (playCard_core_spec xs p g q Hq) as H.
  destruct (playCard_core xs p g) as [[[|] g1]| |] eqn:E; try contradiction.
  - destruct H as (Hn & e & ->). split; [|split].
    + split; [contradiction|]. intros (g1 & [= ]).
    + intros g1 [= ].
    + intros _. exists e. split; [reflexivity|]. intros fuel now.
      unfold playCard. rewrite E. reflexivity.
  - destruct H as (Hy & He). split; [|split].
    + split; eauto.
    + intros g2 [= <-]. split; [exact He|]. intros fuel now.
      unfold playCard. rewrite E. reflexivity.
    + contradiction.
Qed.

(** In the first round bob, who holds ten cards and is not the czar, plays
    the card at index 0 for a prompt that asks for one card. *)
Lemma playCard_accepted_iff_witness :
  exists g1, playCard_core [0] 1%nat round1 = Ok (Accepted, g1).
Proof.
  assert (Hq : table_question round1 = Some (questionCard 103 1)) by (vm_compute; reflexivity).
  apply (proj1 (proj1 (playCard_accepted_iff [0] 1%nat round1 _ Hq))).
  assert (Hh : hand round1 1%nat = map (fun i => set_owner (Some 1%nat) (answerCard i)) (seq 10 10)).
  { vm_compute. reflexivity. }
  unfold playable_by. rewrite Hh.
  split; [vm_compute; reflexivity|]. split; [discriminate|].
  split; [vm_compute; reflexivity|]. split; [vm_compute; reflexivity|].
  split; [reflexivity|]. constructor; [simpl; lia|constructor].
Defined.

(** C1 as stated fails in both directions: an index outside the hand is
    rejected although the state is Playable, the player is neither czar nor
    has played, and one index was submitted for a pick-count of one; and two
    equal indexes are accepted for a pick-count of one. *)
Lemma playCard_counterexample :
  exists q, table_question round1 = Some q /\
    state round1 = Playable /\
    isCzar (heap round1 1%nat) = false /\
    hasPlayed (heap round1 1%nat) = false /\
    (Z.of_nat (length [99]) = pick q /\
     verdictOf (playCard_core [99] 1%nat round1) = Some Rejected) /\
    (Z.of_nat (length [0; 0]) <> pick q /\
     verdictOf (playCard_core [0; 0] 1%nat round1) = Some Accepted).
Proof.
  exists (questionCard 103 1).
  split; [vm_compute; reflexivity|]. split; [vm_compute; reflexivity|].
  split; [vm_compute; reflexivity|]. split; [vm_compute; reflexivity|].
  split; (split; [simpl; lia|vm_compute; reflexivity]).
Qed.

(** ** Rejected commands *)

Lemma playCard_rejected fuel now xs p g e :
  playCard_core xs p g = Ok (Rejected, emit e g) -> playCard fuel now xs p g = Ok (emit e g).
Proof. intros H. unfold playCard. rewrite H. reflexivity. Qed.







(** A refused winner selection in state Played cancels the winner timer. *)
Remark refused_selection_clears_winnerTimer :
  state round1_played = Played /\
  czar round1_played = Some 0%nat /\
  winnerTimer round1_played = true /\
  winnerTimer (orElse (selectWinner 5 4000 0 (Some 1%nat) round1_played) round1_played) = false /\
  table_answer (orElse (selectWinner 5 4000 0 (Some 1%nat) round1_played) round1_played)
    = table_answer round1_played.
Proof.
  split; [vm_compute; reflexivity|]. split; [vm_compute; reflexivity|].
  split; [vm_compute; reflexivity|]. split; vm_compute; reflexivity.
Qed.

(** ** Dealing from the answer deck *)

Lemma checkDecks_heap g : heap (checkDecks g) = heap g.
Proof. break_checkDecks; reflexivity. Qed.

Lemma checkDecks_answer_total g :
  (length (decks_answer (checkDecks g)) + length (discards_answer (checkDecks g)) =
   length (decks_answer g) + length (discards_answer g))%nat /\
  (decks_answer g <> [] \/ discards_answer g <> [] -> decks_answer (checkDecks g) <> []) /\
  (discards_answer (checkDecks g) = discards_answer g \/ discards_answer (checkDecks g) = []).
Proof.
  destruct (checkDecks_answer g) as [Hd Hp]. rewrite Hd, Hp. unfold numCards.
  destruct (decks_answer g) as [|c t] eqn:E; simpl.
  - pose proof (shuffle_with_Permutation (entropy g) (discards_answer g)) as HP.
    rewrite (Permutation_length HP). split; [lia|]. split; [|auto].
    intros [H|H]; [congruence|]. intros Hnil. rewrite Hnil in HP.
    apply Permutation_nil in HP. congruence.
  - split; [reflexivity|]. split; [discriminate|auto].
Qed.

(** Dealing [k] cards succeeds when the answer deck and its discard pile
    hold [k] cards together: the hand grows by [k] cards owned by the
    player, every other hand is untouched, and the discard pile is as before
    or was recycled. *)
Lemma dealN_enough k p g :
  (k <= length (decks_answer g) + length (discards_answer g))%nat ->
  exists g' new,
    dealN k p g = Ok g' /\
    hand g' p = hand g p ++ new /\
    length new = k /\
    Forall (fun c => owner c = Some p) new /\
    (forall o, o <> p -> hand g' o = hand g o) /\
    (discards_answer g' = discards_answer g \/ discards_answer g' = []) /\
    dealt g g'.
Proof.
  revert g. induction k as [|k IH]; intros g Hk.
  - exists g, []. simpl. rewrite app_nil_r.
    split; [reflexivity|]. split; [reflexivity|]. split; [reflexivity|].
    split; [constructor|]. split; [reflexivity|]. split; [auto|apply dealt_refl].
  - change (dealN (S k) p g) with (g1 ← dealOne p g; dealN k p g1).
    unfold dealOne.
    destruct (checkDecks_answer_total g) as (Htot & Hne & Hdis).
    destruct (decks_answer (checkDecks g)) as [|c rest] eqn:Ed.
    { exfalso. apply Hne; [|reflexivity].
      destruct (decks_answer g), (discards_answer g); simpl in Hk; try lia; auto. }
    cbn [drawCard]. rewrite bind_Ok.
    set (g1 := upd_player p _ (set_decks_answer rest (checkDecks g))).
    assert (Hk1 : (k <= length (decks_answer g1) + length (discards_answer g1))%nat).
    { subst g1. simpl in *. lia. }
    destruct (IH g1 Hk1) as (g' & new & Hrun & Hh & Hl & Ho & Hoth & Hd & Hdealt).
    exists g', (set_owner (Some p) c :: new). split; [exact Hrun|].
    assert (Hh1 : hand g1 p = hand g p ++ [set_owner (Some p) c]).
    { subst g1. unfold hand, upd_player. simpl. rewrite Nat.eqb_refl. simpl.
      rewrite checkDecks_heap. reflexivity. }
    split; [rewrite Hh, Hh1, <- app_assoc; reflexivity|].
    split; [simpl; congruence|]. split; [constructor; [reflexivity|exact Ho]|].
    split; [|split].
    + intros o Hne'. rewrite (Hoth o Hne'). subst g1. unfold hand, upd_player. simpl.
      apply Nat.eqb_neq in Hne'. rewrite Hne', checkDecks_heap. reflexivity.
    + assert (Hd1 : discards_answer g1 = discards_answer (checkDecks g)) by reflexivity.
      rewrite Hd1 in Hd. destruct Hd as [Hd|Hd], Hdis as [Hdis|Hdis]; rewrite Hd; auto.
    + eapply dealt_trans; [|exact Hdealt].
      eapply dealt_trans; [apply checkDecks_dealt|].
      subst g1. eapply dealt_trans; [|apply upd_cards_dealt]. repeat split.
Qed.

(** ** Discarding (discard) *)

Lemma uniq_NoDup_id l : NoDup l -> uniq l = l.
Proof.
  induction 1 as [|x t Hx Hnd IH]; simpl; [reflexivity|]. rewrite IH. f_equal.
  clear -Hx. induction t as [|y t IH]; simpl; [reflexivity|].
  apply not_elem_of_cons in Hx as [Hne Hx]. destruct (Z.eqb_spec y x); [congruence|].
  simpl. rewrite (IH Hx). reflexivity.
Qed.

Lemma discardIndexes_ok xs g p :
  inHand g p xs ->
  NoDup (discardIndexes xs g p) /\ inHand g p (discardIndexes xs g p).
Proof.
  intros Hv. unfold discardIndexes, wholeHandIfNone, inHand, numCards.
  destruct (uniq xs) as [|x t] eqn:E.
  - split.
    + apply NoDup_fmap_2; [intros a b H; lia|]. apply NoDup_seq.
    + apply Forall_forall. intros i Hi. apply list_elem_of_In in Hi.
      apply in_map_iff in Hi as (n & <- & Hn). apply in_seq in Hn. lia.
  - rewrite <- E. split; [apply uniq_NoDup|apply Forall_valid_uniq, Hv].
Qed.

(** C3. A player who is not the czar, has at least one point and has not
    discarded this round discards in state Playable (the indexes are in the
    hand, and the answer deck with its discard pile holds enough cards): the
    requested cards leave the hand, as many new cards are dealt so that the
    hand has its former size, the removed cards end on the answer discard
    pile without owner, the player loses exactly one point and is marked as
    having discarded; any further discard by the player is then refused with
    a message and no other change. *)
Theorem discard_costs_one_point (xs : list Z) (p : pid) (g : Game) :
  state g = Playable ->
  isCzar (heap g p) = false ->
  hasDiscarded (heap g p) = false ->
  1 <= points (heap g p) ->
  hand g p <> [] ->
  inHand g p xs ->
  (length (discardIndexes xs g p) <= length (decks_answer g) + length (discards_answer g))%nat ->
  exists g' new recycled,
    let removed := omap (lookupZ (hand g p)) (discardIndexes xs g p) in
    discard xs p g = Ok (Accepted, g') /\
    Permutation (hand g p) (removed ++ dropAt (discardIndexes xs g p) 0 (hand g p)) /\
    hand g' p = dropAt (discardIndexes xs g p) 0 (hand g p) ++ new /\
    length new = length removed /\
    length (hand g' p) = length (hand g p) /\
    discards_answer g' = recycled ++ map (set_owner None) removed /\
    (recycled = discards_answer g \/ recycled = []) /\
    points (heap g' p) = points (heap g p) - 1 /\
    hasDiscarded (heap g' p) = true /\
    state g' = Playable /\
    (forall ys, exists e, discard ys p g' = Ok (Rejected, emit e g')).
Proof.
  intros Hs Hc Hd Hpt Hh Hv Hk.
  destruct (discardIndexes_ok xs g p Hv) as [Hnd Hvi].
  destruct (pick_partition _ _ Hnd Hvi) as [Hperm Hlen].
  set (idx := discardIndexes xs g p) in *.
  set (removed := omap (lookupZ (hand g p)) idx) in *.
  set (rest := dropAt idx 0 (hand g p)) in *.
  assert (Hpick : pickCards idx (hand g p) = Some (removed, rest)).
  { rewrite (pickCards_Some _ _ Hvi), (uniq_NoDup_id _ Hnd). reflexivity. }
  set (g1 := upd_player p (set_cards rest) g).
  assert (Hh1 : hand g1 p = rest).
  { subst g1. unfold hand, upd_player. simpl. rewrite Nat.eqb_refl. reflexivity. }
  assert (Hk1 : (length removed <= length (decks_answer g1) + length (discards_answer g1))%nat).
  { subst g1. simpl. rewrite Hlen. exact Hk. }
  destruct (dealN_enough _ p g1 Hk1) as (g2 & new & Hrun & Hh2 & Hln & _ & _ & Hdis & Hdealt).
  assert (Hdeal : deal (Some p) (Some (numCards (hand g1 p) + numCards removed)%nat) g1 = Ok g2).
  { unfold deal, numCards.
    replace (length (hand g1 p) + length removed - length (hand g1 p))%nat
      with (length removed) by lia. exact Hrun. }
  assert (Hrun' : exists g',
    discard xs p g = Ok (Accepted, g') /\
    heap g' p = set_points (points (heap g2 p) - 1) (set_hasDiscarded true (heap g2 p)) /\
    discards_answer g' = discards_answer g2 ++ map (set_owner None) removed /\
    state g' = state g2).
  { unfold discard. rewrite Hs. cbn [State_eqb negb orb]. cbv zeta.
    apply hand_nonempty in Hh. rewrite Hh, Hc, Hd.
    destruct (Z.ltb_spec (points (heap g p)) 1); [lia|].
    fold (discardIndexes xs g p). fold idx. rewrite Hpick. fold g1. rewrite Hdeal, bind_Ok.
    rewrite discardGroup_eq.
    eexists. split; [reflexivity|]. unfold showCards, pm, emit, upd_player. simpl.
    rewrite !Nat.eqb_refl. split; [reflexivity|]. split; reflexivity. }
  destruct Hrun' as (g' & Hg' & Hheap & Hdisc & Hst).
  assert (Hhand' : hand g' p = rest ++ new).
  { unfold hand. rewrite Hheap. simpl. fold (hand g2 p). rewrite Hh2, Hh1. reflexivity. }
  pose proof (dealt_person _ _ p Hdealt) as Hpers.
  assert (Hpers1 : personView (heap g1 p) = personView (heap g p)).
  { subst g1. unfold upd_player. simpl. rewrite Nat.eqb_refl. reflexivity. }
  rewrite Hpers1 in Hpers. unfold personView in Hpers.
  exists g', new, (discards_answer g2).
  split; [exact Hg'|]. split; [exact Hperm|]. split; [exact Hhand'|].
  split; [exact Hln|]. split.
  { rewrite Hhand', length_app, Hln, (Permutation_length Hperm), length_app. fold rest. lia. }
  split; [exact Hdisc|]. split; [exact Hdis|].
  split; [rewrite Hheap; simpl; congruence|].
  split; [rewrite Hheap; reflexivity|].
  assert (Hst' : state g' = Playable).
  { rewrite Hst, (dealt_state _ _ Hdealt). exact Hs. }
  split; [exact Hst'|].
  intros ys. unfold discard. rewrite Hst'. simpl.
  destruct (numCards (hand g' p) =? 0)%nat; [eexists; reflexivity|].
  destruct (isCzar (heap g' p)); [eexists; reflexivity|].
  rewrite Hheap. simpl. eexists; reflexivity.
Qed.

(** In the second round cy, who won the first, discards two cards. *)
Lemma discard_costs_one_point_witness :
  exists g', discard [0; 1] 2%nat round2 = Ok (Accepted, g') /\
    points (heap g' 2%nat) = 0 /\
    length (hand g' 2%nat) = 10%nat /\
    hasDiscarded (heap g' 2%nat) = true.
Proof.
  assert (Hs : state round2 = Playable) by (vm_compute; reflexivity).
  assert (Hc : isCzar (heap round2 2%nat) = false) by (vm_compute; reflexivity).
  assert (Hd : hasDiscarded (heap round2 2%nat) = false) by (vm_compute; reflexivity).
  assert (Hp : points (heap round2 2%nat) = 1) by (vm_compute; reflexivity).
  assert (Hl : length (hand round2 2%nat) = 10%nat) by (vm_compute; reflexivity).
  assert (Hi : discardIndexes [0; 1] round2 2%nat = [0; 1]) by (vm_compute; reflexivity).
  assert (Hk : (length (decks_answer round2) + length (discards_answer round2) = 10)%nat)
    by (vm_compute; reflexivity).
  destruct (discard_costs_one_point [0; 1] 2%nat round2 Hs Hc Hd)
    as (g' & new & recycled & Hrun & _ & _ & _ & Hlen & _ & _ & Hpts & Hdis & _).
  - rewrite Hp. lia.
  - intros E. rewrite E in Hl. discriminate Hl.
  - unfold inHand. rewrite Hl. constructor; [lia|]. constructor; [lia|]. constructor.
  - rewrite Hi, Hk. simpl. lia.
  - exists g'. rewrite Hp in Hpts. rewrite Hl in Hlen.
    exact (conj Hrun (conj Hpts (conj Hlen Hdis))).
Defined.

(** ** Cleaning up (clean, removePlayer) *)

(** One unfolding of each of the four mutually recursive operations. *)
Lemma removePlayer_S f now p silent g :
  removePlayer (S f) now p silent g =
    (let g := dropPlayer p silent g in
     g ← (if State_eqb (state g) Playable && checkAllPlayed g
          then showEntries f now g else Ok g);
     if State_eqb (state g) Played && bool_decide (czar g = Some p) then
       let '(i, g) := randomEntry (say MCzarFled g) in
       selectWinner f now i None g
     else Ok g).
Proof. reflexivity. Qed.

Lemma selectWinner_S f now index caller g :
  selectWinner (S f) now index caller g =
    (if State_eqb (state g) Paused then Ok (say MCurrentlyPaused g)
     else
       let g := set_winnerTimer false g in
       let winner := lookupZ (table_answer g) index in
       if State_eqb (state g) Played then
         match notTheCzar caller g with
         | Some p => Ok (emit (ClientSay (MNotCzar (nick (heap g p)))) g)
         | None =>
           match winner with
           | None => Ok (say MInvalidWinner g)
           | Some entry => g ← awardPoint entry g; g ← clean f now g; nextRound now g
           end
         end
       else Ok g).
Proof. reflexivity. Qed.

Lemma clean_S f now g :
  clean (S f) now g =
    (let g := clearTable g in
     ng ← foldM
            (fun p (ng : list string * Game) =>
               let '(removedNicks, g) := ng in
               let g := upd_player p resetRoundFlags g in
               if js_ge (inactiveRounds (heap g p)) 1 then
                 g ← removePlayer f now p true g;
                 let n := nick (heap g p) in
                 Ok (removedNicks ++ [n], bumpIdle n g)
               else Ok (removedNicks, g))
            (players g) ([], g);
     let '(removedNicks, g) := ng in
     let g := match removedNicks with
              | [] => g
              | _ => say (MRemovedInactive removedNicks) g
              end in
     Ok (set_state Started g)).
Proof. reflexivity. Qed.

Lemma cleanPlayer_cleaning rn g p :
  cleaning g -> cleaning (cleanPlayer (rn, g) p).2 /\ state (cleanPlayer (rn, g) p).2 = state g.
Proof.
  intros [Hs Ht]. unfold cleanPlayer, cleaning.
  destruct (idle _ p); [|simpl; auto].
  destruct (_ && _); simpl; auto.
Qed.

Lemma lookupZ_nil {A} (i : Z) : lookupZ (@nil A) i = None.
Proof. unfold lookupZ. destruct (0 <=? i); [destruct (Z.to_nat i)|]; reflexivity. Qed.

Lemma removePlayer_cleaning fuel now rn g p :
  cleaning g ->
  (let g := upd_player p resetRoundFlags g in
   if js_ge (inactiveRounds (heap g p)) 1 then
     g ← removePlayer (S (S fuel)) now p true g;
     let n := nick (heap g p) in
     Ok (rn ++ [n], bumpIdle n g)
   else Ok (rn, g)) = Ok (cleanPlayer (rn, g) p).
Proof.
  intros [Hs Ht]. unfold cleanPlayer, idle. cbv zeta.
  destruct (js_ge _ 1); [|reflexivity].
  set (g1 := upd_player p resetRoundFlags g).
  rewrite removePlayer_S. cbv zeta.
  set (g2 := dropPlayer p true g1).
  assert (Hs2 : state g2 = state g) by reflexivity.
  assert (Ht2 : table_answer g2 = []) by exact Ht.
  assert (Hnp : State_eqb (state g2) Playable = false).
  { rewrite Hs2. destruct Hs as [->| ->]; reflexivity. }
  rewrite Hnp. cbn [andb]. rewrite bind_Ok.
  destruct (State_eqb (state g2) Played && bool_decide (czar g2 = Some p)) eqn:Ec;
    [|reflexivity].
  apply andb_true_iff in Ec as [Ep _]. apply State_eqb_eq in Ep.
  unfold randomEntry. cbn [snd]. rewrite selectWinner_S. cbv zeta.
  set (g3 := set_entropy _ (say MCzarFled g2)).
  assert (Hs3 : state g3 = Played) by exact Ep.
  assert (Ht3 : table_answer (set_winnerTimer false g3) = []) by exact Ht2.
  assert (Hs4 : state (set_winnerTimer false g3) = Played) by exact Ep.
  rewrite Hs3, Hs4, Ht3, lookupZ_nil. reflexivity.
Qed.

Lemma foldM_pure {A S} (f : A -> S -> result S) (h : S -> A -> S) (I : S -> Prop) l :
  (forall x s, I s -> f x s = Ok (h s x) /\ I (h s x)) ->
  forall s, I s -> foldM f l s = Ok (fold_left h l s).
Proof.
  intros Hf. induction l as [|x t IH]; intros s Hs; [reflexivity|].
  cbn [foldM fold_left]. destruct (Hf x s Hs) as [-> HI]. rewrite bind_Ok. apply IH, HI.
Qed.

Lemma foldM_cleanPlayer fuel now l rn g :
  cleaning g ->
  foldM (fun p (ng : list string * Game) =>
           let '(removedNicks, g) := ng in
           let g := upd_player p resetRoundFlags g in
           if js_ge (inactiveRounds (heap g p)) 1 then
             g ← removePlayer (S (S fuel)) now p true g;
             let n := nick (heap g p) in
             Ok (removedNicks ++ [n], bumpIdle n g)
           else Ok (removedNicks, g)) l (rn, g)
  = Ok (fold_left cleanPlayer l (rn, g)).
Proof.
  intros Hc. apply (foldM_pure _ cleanPlayer (fun ng => cleaning ng.2)); [|exact Hc].
  intros p [rn' g'] Hc'. split.
  - apply (removePlayer_cleaning fuel now rn' g' p Hc').
  - apply cleanPlayer_cleaning, Hc'.
Qed.

(** [clean], in the states it is called in, is the loop [cleanPlayer] over
    the roster after the table was cleared. *)
Lemma clean_unfold fuel now g :
  state g = Played \/ state g = RoundEnd ->
  clean (S (S (S fuel))) now g =
    Ok (finishClean (fold_left cleanPlayer (players g) ([], clearTable g))).
Proof.
  intros Hs.
  assert (Hc : cleaning (clearTable g)).
  { rewrite clearTable_eq. split; [|reflexivity]. destruct (table_question g); exact Hs. }
  assert (Hp : players (clearTable g) = players g).
  { rewrite clearTable_eq. destruct (table_question g); reflexivity. }
  rewrite clean_S. cbv zeta.
  rewrite Hp, (foldM_cleanPlayer fuel now _ _ _ Hc), bind_Ok.
  unfold finishClean. destruct (fold_left _ _ _) as [rn g']. reflexivity.
Qed.

Lemma keeps_refl g : keeps g g.
Proof. repeat split. Qed.

Lemma keeps_trans g1 g2 g3 : keeps g1 g2 -> keeps g2 g3 -> keeps g1 g3.
Proof.
  intros (H1 & A1) (H2 & A2). split.
  - intros q. destruct (H1 q) as (a1 & b1 & c1 & d1 & e1), (H2 q) as (a2 & b2 & c2 & d2 & e2).
    repeat split; congruence.
  - destruct A1 as (a1 & b1 & c1 & d1 & e1 & f1 & h1), A2 as (a2 & b2 & c2 & d2 & e2 & f2 & h2).
    repeat split; congruence.
Qed.

Lemma keeps_idle g g' q : keeps g g' -> idle g' q = idle g q.
Proof. intros (H & _). unfold idle. destruct (H q) as (_ & _ & _ & _ & ->). reflexivity. Qed.

Lemma keeps_nick g g' q : keeps g g' -> nick (heap g' q) = nick (heap g q).
Proof. intros (H & _). apply H. Qed.

Lemma keeps_points g g' q : keeps g g' -> points (heap g' q) = points (heap g q).
Proof. intros (H & _). apply H. Qed.

Lemma js_get_insert m n v k :
  js_get (<[n := v]> m) k = if decide (n = k) then v else js_get m k.
Proof.
  unfold js_get. rewrite lookup_insert. destruct (decide (n = k)); reflexivity.
Qed.

(** One player of the loop of [clean]. *)
Lemma cleanPlayer_spec rn g p :
  let n := nick (heap g p) in
  let ng := cleanPlayer (rn, g) p in
  keeps g ng.2 /\
  players ng.2 = (if idle g p then without p (players g) else players g) /\
  idleCounts ng.2 =
    (if idle g p then <[n := js_incr (js_get (idleCounts g) n)]> (idleCounts g)
     else idleCounts g) /\
  ng.1 = (if idle g p then rn ++ [n] else rn) /\
  exists ev, out ng.2 = out g ++ ev /\ Forall cleanMessage ev.
Proof.
  cbv zeta. unfold cleanPlayer.
  assert (Hidle : idle (upd_player p resetRoundFlags g) p = idle g p).
  { unfold idle, upd_player. simpl. rewrite Nat.eqb_refl. reflexivity. }
  rewrite Hidle.
  assert (Hk : forall q, nick (heap (upd_player p resetRoundFlags g) q) = nick (heap g q) /\
             user (heap (upd_player p resetRoundFlags g) q) = user (heap g q) /\
             hostname (heap (upd_player p resetRoundFlags g) q) = hostname (heap g q) /\
             points (heap (upd_player p resetRoundFlags g) q) = points (heap g q) /\
             inactiveRounds (heap (upd_player p resetRoundFlags g) q) = inactiveRounds (heap g q)).
  { intros q. unfold upd_player. simpl. destruct (q =? p)%nat; repeat split. }
  destruct (idle g p).
  - set (g1 := upd_player p resetRoundFlags g) in *.
    set (g2 := dropPlayer p true g1).
    assert (Hk2 : forall q, nick (heap g2 q) = nick (heap g q) /\
             user (heap g2 q) = user (heap g q) /\
             hostname (heap g2 q) = hostname (heap g q) /\
             points (heap g2 q) = points (heap g q) /\
             inactiveRounds (heap g2 q) = inactiveRounds (heap g q)).
    { intros q. destruct (Hk q) as (a & b & c & d & e).
      subst g2. unfold dropPlayer, upd_player. simpl. fold g1.
      destruct (q =? p)%nat; simpl; repeat split; assumption. }
    set (g3 := if State_eqb (state g2) Played && bool_decide (czar g2 = Some p)
               then say MInvalidWinner (set_winnerTimer false (randomEntry (say MCzarFled g2)).2)
               else g2).
    assert (H3 : heap g3 = heap g2 /\ players g3 = players g2 /\
                 idleCounts g3 = idleCounts g2 /\
                 (gpoints g3 = gpoints g /\ table_answer g3 = table_answer g /\
                  table_question g3 = table_question g /\ state g3 = state g /\
                  czar g3 = czar g /\ round g3 = round g /\ pointLimit g3 = pointLimit g) /\
                 exists ev, out g3 = out g ++ ev /\ Forall cleanMessage ev).
    { subst g3. destruct (State_eqb _ Played && _).
      - repeat (split; [reflexivity|]). split; [repeat split|].
        exists [Say MCzarFled; Say MInvalidWinner]. split.
        + simpl. rewrite <- app_assoc. reflexivity.
        + constructor; [left; reflexivity|]. constructor; [right; left; reflexivity|constructor].
      - repeat (split; [reflexivity|]). split; [repeat split|].
        exists []. rewrite app_nil_r. split; [reflexivity|constructor]. }
    destruct H3 as (Hh3 & Hp3 & Hi3 & Hrest & Hev).
    cbn [fst snd]. fold g3.
    assert (Hn : nick (heap g3 p) = nick (heap g p)) by (rewrite Hh3; apply Hk2).
    rewrite Hn. set (gF := bumpIdle (nick (heap g p)) g3).
    assert (HhF : heap gF = heap g2) by exact Hh3.
    split; [split; [intros q; rewrite HhF; apply Hk2|exact Hrest]|].
    split; [exact Hp3|]. split; [|split; [reflexivity|exact Hev]].
    subst gF. unfold bumpIdle. cbn [idleCounts set_idleCounts]. rewrite Hi3. reflexivity.
  - cbn [fst snd]. split; [split; [exact Hk|repeat split]|].
    repeat (split; [reflexivity|]).
    exists []. rewrite app_nil_r. split; [reflexivity|constructor].
Qed.

Lemma filter_filter_bool {A} (f h : A -> bool) (l : list A) :
  List.filter f (List.filter h l) = List.filter (fun x => h x && f x) l.
Proof.
  induction l as [|x t IH]; simpl; [reflexivity|].
  destruct (h x); simpl; [destruct (f x)|]; rewrite IH; reflexivity.
Qed.

(** The loop of [clean] over the players [l]. *)
Lemma cleanLoop_spec l rn g :
  let ng := fold_left cleanPlayer l (rn, g) in
  keeps g ng.2 /\
  players ng.2 =
    List.filter (fun q => negb (idle g q && existsb (Nat.eqb q) l)) (players g) /\
  (forall n, js_get (idleCounts ng.2) n =
             Nat.iter (idleWithNick g n l) js_incr (js_get (idleCounts g) n)) /\
  ng.1 = rn ++ map (fun q => nick (heap g q)) (List.filter (idle g) l) /\
  exists ev, out ng.2 = out g ++ ev /\ Forall cleanMessage ev.
Proof.
  cbv zeta. revert rn g. induction l as [|p t IH]; intros rn g.
  - cbn [fold_left fst snd]. split; [apply keeps_refl|]. split.
    + symmetry. rewrite <- (filter_ext (fun _ => true)).
      * clear. induction (players g) as [|x r IHr]; simpl; congruence.
      * intros q. simpl. rewrite andb_false_r. reflexivity.
    + split; [reflexivity|]. split; [simpl; rewrite app_nil_r; reflexivity|].
      exists []. rewrite app_nil_r. split; [reflexivity|constructor].
  - cbn [fold_left].
    pose proof (cleanPlayer_spec rn g p) as Hstep. cbv zeta in Hstep.
    destruct (cleanPlayer (rn, g) p) as [rn1 g1]. cbn [fst snd] in Hstep.
    destruct Hstep as (Hk & Hp & Hi & Hr & ev1 & Ho1 & Hev1).
    destruct (IH rn1 g1) as (Hk' & Hp' & Hi' & Hr' & ev2 & Ho2 & Hev2).
    assert (Hidle : forall q, idle g1 q = idle g q) by (intros; apply keeps_idle, Hk).
    assert (Hnick : forall q, nick (heap g1 q) = nick (heap g q)) by (intros; apply keeps_nick, Hk).
    split; [eapply keeps_trans; eauto|]. split; [|split; [|split]].
    + rewrite Hp', Hp.
      rewrite (filter_ext _ (fun q => negb (idle g q && existsb (Nat.eqb q) t)))
        by (intros q; rewrite Hidle; reflexivity).
      destruct (idle g p) eqn:Ep.
      * unfold without. rewrite filter_filter_bool. apply filter_ext. intros q. simpl.
        destruct (Nat.eqb_spec q p) as [->|Hne]; simpl.
        -- rewrite Ep. reflexivity.
        -- reflexivity.
      * apply filter_ext. intros q. simpl.
        destruct (Nat.eqb_spec q p) as [->|Hne]; simpl; [rewrite Ep|]; reflexivity.
    + intros n. rewrite Hi'. unfold idleWithNick.
      rewrite (filter_ext _ (fun q => idle g q && String.eqb (nick (heap g q)) n))
        by (intros q; rewrite Hidle, Hnick; reflexivity).
      cbn [List.filter]. rewrite Hi. destruct (idle g p) eqn:Ep; cbn [andb]; [|reflexivity].
      rewrite js_get_insert.
      destruct (String.eqb_spec (nick (heap g p)) n) as [->|Hne].
      * rewrite decide_True by reflexivity. cbn [length]. rewrite Nat.iter_succ_r. reflexivity.
      * rewrite decide_False by exact Hne. reflexivity.
    + rewrite Hr', Hr.
      rewrite (filter_ext _ (idle g)) by exact Hidle.
      rewrite (map_ext _ (fun q => nick (heap g q))) by exact Hnick.
      cbn [List.filter]. destruct (idle g p); [|reflexivity].
      cbn [map]. rewrite <- app_assoc. reflexivity.
    + exists (ev1 ++ ev2). rewrite Ho2, Ho1, app_assoc. split; [reflexivity|].
      apply Forall_app. split; assumption.
Qed.

Lemma existsb_eqb_In q l : In q l -> existsb (Nat.eqb q) l = true.
Proof.
  intros H. apply existsb_exists. exists q. split; [exact H|apply Nat.eqb_refl].
Qed.

(** [clean] in the states it is called in. *)
Lemma clean_spec fuel now g :
  state g = Played \/ state g = RoundEnd ->
  exists g' ev,
    clean (S (S (S fuel))) now g = Ok g' /\
    state g' = Started /\ table_answer g' = [] /\ table_question g' = None /\
    (forall q, nick (heap g' q) = nick (heap g q) /\
               user (heap g' q) = user (heap g q) /\
               hostname (heap g' q) = hostname (heap g q) /\
               points (heap g' q) = points (heap g q) /\
               inactiveRounds (heap g' q) = inactiveRounds (heap g q)) /\
    (gpoints g' = gpoints g /\ czar g' = czar g /\ round g' = round g /\
     pointLimit g' = pointLimit g) /\
    players g' = List.filter (fun q => negb (idle g q)) (players g) /\
    (forall n, js_get (idleCounts g') n =
               Nat.iter (idleWithNick g n (players g)) js_incr (js_get (idleCounts g) n)) /\
    out g' = out g ++ ev /\ Forall cleanMessage ev.
Proof.
  intros Hs. rewrite (clean_unfold fuel now g Hs).
  pose proof (cleanLoop_spec (players g) [] (clearTable g)) as H. cbv zeta in H.
  destruct (fold_left cleanPlayer (players g) ([], clearTable g)) as [rn g1].
  cbn [fst snd] in H. destruct H as (Hk & Hp & Hi & Hr & ev & Ho & Hev).
  assert (Hc : heap (clearTable g) = heap g /\ players (clearTable g) = players g /\
               idleCounts (clearTable g) = idleCounts g /\ out (clearTable g) = out g /\
               gpoints (clearTable g) = gpoints g /\ czar (clearTable g) = czar g /\
               round (clearTable g) = round g /\ pointLimit (clearTable g) = pointLimit g /\
               table_answer (clearTable g) = [] /\ table_question (clearTable g) = None).
  { rewrite clearTable_eq. destruct (table_question g); repeat split. }
  destruct Hc as (Hh & Hpl & Hic & Hout & Hgp & Hcz & Hrd & Hpt & Hta & Htq).
  assert (Hidle : forall q, idle (clearTable g) q = idle g q).
  { intros q. unfold idle. rewrite Hh. reflexivity. }
  destruct Hk as (Hk1 & Hk2 & Hk3 & Hk4 & Hk5 & Hk6 & Hk7 & Hk8).
  assert (Hfin : exists ev', out (finishClean (rn, g1)) = out g1 ++ ev' /\ Forall cleanMessage ev' /\
                 heap (finishClean (rn, g1)) = heap g1 /\
                 players (finishClean (rn, g1)) = players g1 /\
                 idleCounts (finishClean (rn, g1)) = idleCounts g1 /\
                 gpoints (finishClean (rn, g1)) = gpoints g1 /\
                 table_answer (finishClean (rn, g1)) = table_answer g1 /\
                 table_question (finishClean (rn, g1)) = table_question g1 /\
                 czar (finishClean (rn, g1)) = czar g1 /\
                 round (finishClean (rn, g1)) = round g1 /\
                 pointLimit (finishClean (rn, g1)) = pointLimit g1 /\
                 state (finishClean (rn, g1)) = Started).
  { unfold finishClean. destruct rn as [|n rn'].
    - exists []. rewrite app_nil_r. repeat split. constructor.
    - eexists [_]. split; [reflexivity|]. split; [|repeat split].
      constructor; [|constructor]. right; right. eexists. reflexivity. }
  destruct Hfin as (ev' & Fo & Fev & Fh & Fp & Fi & Fg & Fta & Ftq & Fc & Fr & Fpl & Fs).
  exists (finishClean (rn, g1)), (ev ++ ev').
  split; [reflexivity|]. split; [exact Fs|].
  split; [rewrite Fta, Hk3; exact Hta|]. split; [rewrite Ftq, Hk4; exact Htq|].
  split; [intros q; rewrite Fh, <- Hh; apply Hk1|].
  split; [repeat split; congruence|].
  split.
  { rewrite Fp, Hp, Hpl. apply filter_ext_in. intros q Hq.
    rewrite Hidle, (existsb_eqb_In _ _ Hq), andb_true_r. reflexivity. }
  split.
  { intros n. rewrite Fi, Hi, Hic. f_equal. unfold idleWithNick. f_equal.
    apply filter_ext. intros q. rewrite Hidle, Hh. reflexivity. }
  split; [rewrite Fo, Ho, Hout, app_assoc; reflexivity|].
  apply Forall_app. split; assumption.
Qed.




(** ** Selecting the winner (selectWinner) *)

Lemma find_update_first {A} (t : A -> bool) (f : A -> A) (l : list A) e :
  find t l = Some e -> (forall x, t (f x) = t x) ->
  find t (update_first t f l) = Some (f e).
Proof.
  intros Hf Ht. induction l as [|x r IH]; simpl in *; [discriminate|].
  destruct (t x) eqn:E.
  - injection Hf as <-. simpl. rewrite Ht, E. reflexivity.
  - simpl. rewrite E. apply IH, Hf.
Qed.

Lemma awardPoint_spec entry card rest o q g :
  entry = card :: rest -> owner card = Some o ->
  is_Some (findEntry o (gpoints g)) ->
  table_question g = Some q ->
  exists ga,
    awardPoint entry g = Ok ga /\
    state ga = RoundEnd /\
    points (heap ga o) = points (heap g o) + 1 /\
    (forall p, p <> o -> heap ga p = heap g p) /\
    (exists e, findEntry o (gpoints ga) = Some e /\ e_points e = points (heap g o) + 1) /\
    out ga = out g ++ [Say (MWinner (nick (heap g o)) q entry (points (heap g o) + 1))] /\
    table_answer ga = table_answer g /\ table_question ga = table_question g /\
    players ga = players g /\ idleCounts ga = idleCounts g /\
    (forall p, inactiveRounds (heap ga p) = inactiveRounds (heap g p) /\
               nick (heap ga p) = nick (heap g p)).
Proof.
  intros -> Ho [e He] Hq. unfold awardPoint. rewrite Ho. cbv zeta.
  set (g1 := upd_player o _ (set_state RoundEnd g)).
  assert (Hg1 : gpoints g1 = gpoints g) by reflexivity.
  assert (Hp1 : points (heap g1 o) = points (heap g o) + 1).
  { subst g1. unfold upd_player. simpl. rewrite Nat.eqb_refl. reflexivity. }
  assert (Hn1 : forall p, inactiveRounds (heap g1 p) = inactiveRounds (heap g p) /\
                          nick (heap g1 p) = nick (heap g p)).
  { intros p. subst g1. unfold upd_player. simpl. destruct (p =? o)%nat; split; reflexivity. }
  rewrite Hg1, He.
  assert (Hq1 : table_question (set_gpoints (update_first (fun e0 => (e_player e0 =? o)%nat)
                  (set_e_points (points (heap g1 o))) (gpoints g)) g1) = Some q) by exact Hq.
  rewrite Hq1. eexists. split; [reflexivity|]. split; [reflexivity|].
  split; [exact Hp1|]. split.
  { intros p Hne. simpl. apply Nat.eqb_neq in Hne. rewrite Hne. reflexivity. }
  split.
  { exists (set_e_points (points (heap g1 o)) e). split; [|exact Hp1].
    unfold findEntry in *. cbn [gpoints say emit set_out set_gpoints].
    apply (find_update_first _ _ _ _ He). intros x. reflexivity. }
  split.
  { cbn [out say emit set_out].
    change (heap (set_gpoints _ g1)) with (heap g1).
    rewrite Hp1, (proj2 (Hn1 o)). reflexivity. }
  repeat (split; [reflexivity|]). exact Hn1.
Qed.

(** What [nextRound] leaves alone when it returns: the points and the
    ledger; the table has no entry when it had none. *)
Lemma nextRound_keeps now g g' :
  nextRound now g = Ok g' ->
  (forall p, points (heap g' p) = points (heap g p)) /\
  gpoints g' = gpoints g /\
  (table_answer g = [] -> table_answer g' = []) /\
  (state g' = Playable -> round g' = round g + 1 /\ is_Some (table_question g')) /\
  (state g' <> Playable -> table_question g = None -> table_question g' = None).
Proof.
  intros H. apply nextRound_cases in H
    as [(Hs & _ & Ht & Hq & Hg & _ & Hh)|[(Hs & L & Hh & Hq & _)|(Hs & _ & Hr & Hq & gc & _ & _ & L & P)]].
  - split; [intros p; rewrite Hh; reflexivity|]. split; [exact Hg|]. split; [auto|].
    split; [intros E; congruence|auto].
  - unfold ledgerView in L. split; [intros p; rewrite Hh; reflexivity|].
    split; [congruence|]. split; [intros E; congruence|].
    split; [intros E; congruence|]. intros _ E. congruence.
  - unfold ledgerView in L. split.
    { intros p. specialize (P p). unfold personView in P. congruence. }
    split; [congruence|]. split; [intros E; congruence|]. split; [auto|].
    intros E. contradiction.
Qed.




(** ** The winner timer and the czar's inactivity counter *)

(** An inactivity counter that was never assigned does not count: the
    increment of [undefined] is [NaN], and [NaN >= 1] is false. *)
Lemma unassigned_counter_never_idle :
  js_incr JUndefined = JNaN /\ js_incr JNaN = JNaN /\
  js_ge JUndefined 1 = false /\ js_ge JNaN 1 = false.
Proof. repeat split. Qed.

Lemma randomEntry_valid g :
  table_answer g <> [] ->
  exists entry, lookupZ (table_answer g) (randomEntry g).1 = Some entry /\
                entry ∈ table_answer g.
Proof.
  intros Hne. unfold randomEntry. cbn [fst].
  destruct (length (table_answer g)) as [|m] eqn:El.
  { destruct (table_answer g); [contradiction|discriminate]. }
  rewrite lookupZ_of_nat.
  assert (Hlt : (hd 0%nat (entropy g) mod S m < length (table_answer g))%nat).
  { rewrite El. apply Nat.mod_upper_bound. discriminate. }
  destruct (lookup_lt_is_Some_2 (table_answer g) _ Hlt) as [entry Hentry].
  exists entry. split; [exact Hentry|]. eapply list_elem_of_lookup_2, Hentry.
Qed.

(** When the czar's inactivity counter is a number, a winner-selection
    timeout does what C10 says: the counter goes up by one before the winner
    is picked, and the cleanup that follows removes the czar from the roster
    (every entry on the table is taken to be well formed: its first card has
    an owner with a ledger entry, and the prompt is on the table). *)
Lemma winnerTimeout_removes_counting_czar fuel now g c n q :
  state g = Played ->
  czar g = Some c ->
  inactiveRounds (heap g c) = JNum n -> 0 <= n ->
  table_question g = Some q ->
  table_answer g <> [] ->
  Forall (fun entry => exists card rest o, entry = card :: rest /\ owner card = Some o /\
                         is_Some (findEntry o (gpoints g))) (table_answer g) ->
  exists ga gc,
    inactiveRounds (heap ga c) = JNum (n + 1) /\
    clean (S (S (S fuel))) now ga = Ok gc /\
    winnerTimeout (S (S (S (S fuel)))) now g = nextRound now gc /\
    (c ∉ players gc) /\
    (forall k, js_get (idleCounts ga) k = js_get (idleCounts g) k) /\
    (forall k, js_get (idleCounts gc) k =
               Nat.iter (idleWithNick ga k (players ga)) js_incr (js_get (idleCounts ga) k)).
Proof.
  intros Hs Hc Hn Hn0 Hq Hne Hall. unfold winnerTimeout. cbv zeta.
  change (czar (say MWinnerTimeUp g)) with (czar g). rewrite Hc.
  set (g2 := upd_player c _ (say MWinnerTimeUp g)).
  assert (Ht2 : table_answer g2 = table_answer g) by reflexivity.
  assert (Hin2 : inactiveRounds (heap g2 c) = JNum (n + 1)).
  { subst g2. unfold upd_player. simpl. rewrite Nat.eqb_refl. simpl. rewrite Hn. reflexivity. }
  destruct (randomEntry_valid g2) as (entry & Hentry & Hmem); [rewrite Ht2; exact Hne|].
  rewrite Ht2 in Hmem. rewrite Forall_forall in Hall.
  destruct (Hall entry Hmem) as (card & rest & o & -> & Ho & He).
  destruct (randomEntry g2) as [i g3] eqn:Er. cbn [fst] in Hentry.
  assert (Hg3 : g3 = set_entropy (tl (entropy g2)) g2).
  { unfold randomEntry in Er. apply (f_equal snd) in Er. symmetry. exact Er. }
  assert (H3 : state g3 = Played /\ table_answer g3 = table_answer g2 /\
               table_question g3 = Some q /\ gpoints g3 = gpoints g /\
               heap g3 = heap g2 /\ idleCounts g3 = idleCounts g).
  { rewrite Hg3. repeat split; assumption. }
  destruct H3 as (Hs3 & Ht3 & Hq3 & Hgp3 & Hh3 & Hi3).
  destruct (awardPoint_spec (card :: rest) card rest o q (set_winnerTimer false g3)
              eq_refl Ho) as (ga & Ha & Hsa & _ & _ & _ & _ & _ & _ & Hpa & Hia & Hka).
  { change (gpoints (set_winnerTimer false g3)) with (gpoints g3). rewrite Hgp3. exact He. }
  { exact Hq3. }
  destruct (clean_spec fuel now ga (or_intror Hsa))
    as (gc & ev & Hcl & _ & _ & _ & _ & _ & Hpc & Hic & _).
  assert (Hidle : idle ga c = true).
  { unfold idle. rewrite (proj1 (Hka c)).
    change (heap (set_winnerTimer false g3)) with (heap g3). rewrite Hh3, Hin2.
    simpl. apply Z.leb_le. lia. }
  exists ga, gc. split.
  { rewrite (proj1 (Hka c)). change (heap (set_winnerTimer false g3)) with (heap g3).
    rewrite Hh3. exact Hin2. }
  split; [exact Hcl|]. split.
  { rewrite selectWinner_S. cbv zeta. rewrite Hs3. cbn [State_eqb].
    change (state (set_winnerTimer false g3)) with (state g3).
    change (table_answer (set_winnerTimer false g3)) with (table_answer g3).
    rewrite Hs3, Ht3, Hentry. cbn [State_eqb notTheCzar].
    rewrite Ha, bind_Ok, Hcl, bind_Ok. reflexivity. }
  split.
  { intros Hin. rewrite Hpc in Hin. apply list_elem_of_In, filter_In in Hin as [_ Hin].
    rewrite Hidle in Hin. discriminate. }
  split; [|exact Hic].
  intros k. rewrite Hia. change (idleCounts (set_winnerTimer false g3)) with (idleCounts g3).
  rewrite Hi3. reflexivity.
Qed.

(** C10, at an input where the code departs from it. In the first round the
    czar ann has not played any card yet, so the czar's inactivity counter was
    never assigned. The winner selection times out: the timer check
    increments the counter, which becomes [NaN], and picks a winner; the
    cleanup does not remove the czar, whose idle counter stays 0 and who is on
    the roster of the second round. *)
Theorem winner_timeout_fresh_czar_stays :
  state round1_played = Played /\
  czar round1_played = Some 0%nat /\
  roundStarted round1_played = Some 3000 /\
  timeLimit round1_played = 60000 /\
  inactiveRounds (heap round1_played 0%nat) = JUndefined /\
  isOk (winnerTimerCheck 5 70000 round1_played) = true /\
  inactiveRounds (heap (orElse (winnerTimerCheck 5 70000 round1_played) round1_played) 0%nat)
    = JNaN /\
  players (orElse (winnerTimerCheck 5 70000 round1_played) round1_played) = [0; 1; 2]%nat /\
  js_get (idleCounts (orElse (winnerTimerCheck 5 70000 round1_played) round1_played)) "ann"
    = JNum 0 /\
  round (orElse (winnerTimerCheck 5 70000 round1_played) round1_played) = 2.
Proof.
  split; [vm_compute; reflexivity|]. split; [vm_compute; reflexivity|].
  split; [vm_compute; reflexivity|]. split; [vm_compute; reflexivity|].
  split; [vm_compute; reflexivity|]. split; [vm_compute; reflexivity|].
  split; [vm_compute; reflexivity|]. split; [vm_compute; reflexivity|].
  split; vm_compute; reflexivity.
Qed.

(** The same timeout for a czar who has played before: in the second round
    the czar bob, whose counter [playCard] set to 0 in the first round, lets
    the selection time out; the counter becomes 1, the cleanup removes bob and
    the idle counter of the nick goes from 0 to 1. *)
Remark winner_timeout_removes_counting_czar :
  state round2_played = Played /\
  czar round2_played = Some 1%nat /\
  inactiveRounds (heap round2_played 1%nat) = JNum 0 /\
  js_get (idleCounts round2_played) "bob" = JNum 0 /\
  isOk (winnerTimerCheck 5 70000 round2_played) = true /\
  inactiveRounds (heap (orElse (winnerTimerCheck 5 70000 round2_played) round2_played) 1%nat)
    = JNum 1 /\
  players (orElse (winnerTimerCheck 5 70000 round2_played) round2_played) = [0; 2]%nat /\
  js_get (idleCounts (orElse (winnerTimerCheck 5 70000 round2_played) round2_played)) "bob"
    = JNum 1.
Proof.
  split; [vm_compute; reflexivity|]. split; [vm_compute; reflexivity|].
  split; [vm_compute; reflexivity|]. split; [vm_compute; reflexivity|].
  split; [vm_compute; reflexivity|]. split; [vm_compute; reflexivity|].
  split; vm_compute; reflexivity.
Qed.

(** ** The fuel is immaterial

    A result other than [OutOfFuel] is the result for every larger fuel. *)

Lemma showEntries_S f now g :
  showEntries (S f) now g =
    (let g := set_state Played (set_turnTimer false g) in
     match table_answer g with
     | [] =>
       g ← clean f now (say MNoOnePlayed g);
       nextRound now g
     | [_] => selectWinner f now 0 None (say MOnlyOnePlayed g)
     | _ =>
       let g := say MEntriesHeader g in
       let '(l, g) := shuffleM (table_answer g) g in
       let g := set_table_answer l g in
       match table_question g with
       | None => Crash
       | Some q =>
         let g := announceEntries q g in
         match find (fun p => isCzar (heap g p)) (players g) with
         | None =>
           let '(i, g) := randomEntry (say MCzarFled g) in
           selectWinner f now i None g
         | Some _ =>
           match czar g with
           | None => Crash
           | Some c =>
             Ok (set_winnerTimer true (set_roundStarted (Some now)
                   (set_winnerTimer false (say (MSelectWinner (nick (heap g c))) g))))
           end
         end
       end
     end).
Proof. reflexivity. Qed.

Lemma bind_settled {A B} (r : result A) (k : A -> result B) :
  settled (r ≫= k) -> settled r.
Proof. unfold settled. destruct r; simpl; congruence. Qed.

Lemma bind_mono {A B} (r r' : result A) (k k' : A -> result B) :
  settled (r ≫= k) ->
  (settled r -> r' = r) ->
  (forall a, r = Ok a -> settled (k a) -> k' a = k a) ->
  r' ≫= k' = r ≫= k.
Proof.
  intros Hs Hr Hk. rewrite (Hr (bind_settled _ _ Hs)).
  destruct r as [a| |]; simpl in *; auto.
Qed.

Lemma foldM_mono {A S} (f f' : A -> S -> result S) l s :
  (forall x s, settled (f x s) -> f' x s = f x s) ->
  settled (foldM f l s) -> foldM f' l s = foldM f l s.
Proof.
  intros Hf. revert s. induction l as [|x t IH]; intros s Hs; [reflexivity|].
  cbn [foldM] in *. apply bind_mono; auto.
Qed.

Lemma fuel_step f :
  (forall now g, settled (showEntries f now g) ->
     showEntries (S f) now g = showEntries f now g) /\
  (forall now i c g, settled (selectWinner f now i c g) ->
     selectWinner (S f) now i c g = selectWinner f now i c g) /\
  (forall now g, settled (clean f now g) -> clean (S f) now g = clean f now g) /\
  (forall now p s g, settled (removePlayer f now p s g) ->
     removePlayer (S f) now p s g = removePlayer f now p s g).
Proof.
  induction f as [|f (IHshow & IHsel & IHclean & IHrem)].
  { repeat split; intros; exfalso; match goal with H : settled _ |- _ => apply H end;
      reflexivity. }
  split; [|split; [|split]].
  - intros now g. rewrite (showEntries_S (S f)), (showEntries_S f). cbv zeta.
    destruct (table_answer _) as [|e [|e' t]].
    + intros Hs. apply bind_mono; [exact Hs|apply IHclean|reflexivity].
    + apply IHsel.
    + destruct (shuffleM _ _) as [l g1]. destruct (table_question _); [|reflexivity].
      destruct (find _ _); [reflexivity|]. destruct (randomEntry _) as [i g2]. apply IHsel.
  - intros now i c g. rewrite (selectWinner_S (S f)), (selectWinner_S f). cbv zeta.
    destruct (State_eqb (state g) Paused); [reflexivity|].
    destruct (State_eqb _ Played); [|reflexivity].
    destruct (notTheCzar _ _); [reflexivity|].
    destruct (lookupZ _ _); [|reflexivity].
    intros Hs. apply bind_mono; [exact Hs|reflexivity|].
    intros ga _ Hs'. apply bind_mono; [exact Hs'|apply IHclean|reflexivity].
  - intros now g. rewrite (clean_S (S f)), (clean_S f). cbv zeta.
    intros Hs. apply bind_mono; [exact Hs| |reflexivity].
    intros Hs'. apply foldM_mono; [|exact Hs'].
    intros p [rn g1]. destruct (js_ge _ 1); [|reflexivity].
    intros Hs''. apply bind_mono; [exact Hs''|apply IHrem|reflexivity].
  - intros now p s g. rewrite (removePlayer_S (S f)), (removePlayer_S f). cbv zeta.
    set (g0 := dropPlayer p s g).
    intros Hs. apply bind_mono; [exact Hs| |].
    + intros Hs'. destruct (State_eqb (state g0) Playable && checkAllPlayed g0);
        [apply IHshow, Hs'|reflexivity].
    + intros g1 _ Hs'.
      destruct (State_eqb (state g1) Played && bool_decide (czar g1 = Some p));
        [|reflexivity].
      destruct (randomEntry _) as [i g2]. apply IHsel, Hs'.
Qed.

(** More fuel does not change a settled result. *)
Lemma fuel_immaterial f k :
  (forall now g, settled (showEntries f now g) ->
     showEntries (k + f) now g = showEntries f now g) /\
  (forall now i c g, settled (selectWinner f now i c g) ->
     selectWinner (k + f) now i c g = selectWinner f now i c g) /\
  (forall now g, settled (clean f now g) -> clean (k + f) now g = clean f now g) /\
  (forall now p s g, settled (removePlayer f now p s g) ->
     removePlayer (k + f) now p s g = removePlayer f now p s g).
Proof.
  induction k as [|k (IHshow & IHsel & IHclean & IHrem)]; [repeat split|].
  destruct (fuel_step (k + f)) as (Hshow & Hsel & Hclean & Hrem).
  cbn [Nat.add]. split; [|split; [|split]]; intros.
  - rewrite Hshow; rewrite IHshow; auto.
  - rewrite Hsel; rewrite IHsel; auto.
  - rewrite Hclean; rewrite IHclean; auto.
  - rewrite Hrem; rewrite IHrem; auto.
Qed.

(** * Further properties of the session *)

(** ** The warnings of the timers (turnTimerCheck, winnerTimerCheck) *)

Lemma warning_window e L s :
  warning e L = Some s <->
  (s = 10 \/ s = 30 \/ s = 60) /\ L - 1000 * s <= e < L - 1000 * s + 10 * 1000.
Proof.
  unfold warning.
  destruct (Z.leb_spec (L - 10 * 1000) e), (Z.ltb_spec e L); cbn [andb];
    try (split; [intros [= <-]; lia | intros [[-> | [-> | ->]] ?]; first [reflexivity | lia]]);
    destruct (Z.leb_spec (L - 30 * 1000) e), (Z.ltb_spec e (L - 20 * 1000)); cbn [andb];
    try (split; [intros [= <-]; lia | intros [[-> | [-> | ->]] ?]; first [reflexivity | lia]]);
    destruct (Z.leb_spec (L - 60 * 1000) e), (Z.ltb_spec e (L - 50 * 1000)); cbn [andb];
    (split; [first [intros [= <-]; lia | discriminate]
            | intros [[-> | [-> | ->]] ?]; first [reflexivity | lia]]).
Qed.

Lemma poll_in_window (w phase : Z) :
  0 <= phase -> phase < w ->
  exists k, 1 <= k /\ forall j, (w <= phase + pollInterval * j < w + 10 * 1000 <-> j = k).
Proof.
  intros H0 Hw. unfold pollInterval.
  exists ((w - phase + 9999) / 10000).
  pose proof (Z.div_mod (w - phase + 9999) 10000 ltac:(lia)) as Hd.
  pose proof (Z.mod_pos_bound (w - phase + 9999) 10000 ltac:(lia)) as Hm.
  split; [|intros j; split]; nia.
Qed.

Lemma set_out_id g : set_out (out g) g = g.
Proof. destruct g; reflexivity. Qed.

Lemma out_say_ne m g : Ok g <> Ok (say m g).
Proof.
  intros H. apply Ok_inj in H. apply (f_equal (fun x => length (out x))) in H.
  unfold say, emit in H. cbn in H. rewrite length_app in H. cbn in H. lia.
Qed.

Lemma say_inj m m' g : Ok (say m g) = Ok (say m' g) -> m = m'.
Proof.
  intros H. apply Ok_inj in H. apply (f_equal out) in H.
  unfold say, emit in H. cbn in H. apply app_inv_head in H. congruence.
Qed.

Lemma drop_out_say m g : drop (length (out g)) (out (say m g)) = [Say m].
Proof. unfold say, emit. cbn. rewrite drop_app_length. reflexivity. Qed.

Lemma drop_out_say2 m m' g :
  drop (length (out g)) (out (say m' (say m g))) = [Say m; Say m'].
Proof. unfold say, emit. cbn. rewrite <- app_assoc. rewrite drop_app_length. reflexivity. Qed.

(** What a check of the round timer does before the limit. *)
Lemma turnWarning_spec e g c :
  czar g = Some c ->
  exists g', turnWarning e g = Ok g' /\ g' = set_out (out g') g /\
    forall s, Say (MSecondsLeft None s) ∈ drop (length (out g)) (out g') <->
              warning e (timeLimit g) = Some s.
Proof.
  intros Hc. unfold turnWarning.
  destruct (warning e (timeLimit g)) as [s0|] eqn:Hw.
  - assert (Hsay : exists g', Ok (say (MSecondsLeft None s0) g) = Ok g' /\
                     g' = set_out (out g') g /\
                     forall s, Say (MSecondsLeft None s) ∈ drop (length (out g)) (out g') <->
                               Some s0 = Some s).
    { eexists. split; [reflexivity|]. split; [reflexivity|]. intros s.
      rewrite drop_out_say. rewrite list_elem_of_singleton. split; congruence. }
    assert (Hst : s0 = 60 ->
              exists g', showStatus (say (MSecondsLeft None s0) g) = Ok g' /\
                g' = set_out (out g') g /\
                forall s, Say (MSecondsLeft None s) ∈ drop (length (out g)) (out g') <->
                          Some s0 = Some s).
    { intros ->. unfold showStatus.
      change (czar (say (MSecondsLeft None 60) g)) with (czar g). rewrite Hc.
      change (state (say (MSecondsLeft None 60) g)) with (state g).
      destruct (state g); (eexists; split; [reflexivity|]; split; [reflexivity|]);
        intros s; rewrite drop_out_say2;
        rewrite elem_of_cons, list_elem_of_singleton;
        (split; [intros [H | H]; congruence | intros H; left; congruence]). }
    apply warning_window in Hw as [Hs _].
    destruct Hs as [-> | [-> | ->]]; [exact Hsay|exact Hsay|apply Hst; reflexivity].
  - exists g. split; [reflexivity|]. split; [symmetry; apply set_out_id|].
    intros s. rewrite drop_all. split; [intros H; inversion H|discriminate].
Qed.

(** X1. With the timer checked every ten seconds, each of the warnings
    (60, 30 and 10 seconds left) is given by exactly one check of a round
    whose window opens after the start, and by none when the window opens
    before the first check (the one-minute warning of a one-minute round);
    the check that warns changes nothing but the messages sent. *)
Theorem timer_warnings_once (f : nat) (g : Game) (t0 : Z) (c : pid) (phase s : Z) :
  roundStarted g = Some t0 ->
  czar g = Some c ->
  0 <= phase < pollInterval ->
  s = 10 \/ s = 30 \/ s = 60 ->
  let checkTime j := t0 + (phase + pollInterval * j) in
  let czarWarned j :=
    winnerTimerCheck f (checkTime j) g
      = Ok (say (MSecondsLeft (Some (nick (heap g c))) s) g) in
  let playersWarned j :=
    exists g', turnTimerCheck f (checkTime j) g = Ok g' /\ g' = set_out (out g') g /\
      Say (MSecondsLeft None s) ∈ drop (length (out g)) (out g') in
  (phase < timeLimit g - 1000 * s ->
   exists k, 1 <= k /\ phase + pollInterval * k < timeLimit g /\
     forall j, 1 <= j -> phase + pollInterval * j < timeLimit g ->
       (czarWarned j <-> j = k) /\ (playersWarned j <-> j = k)) /\
  (timeLimit g - 1000 * s <= phase ->
   forall j, 1 <= j -> phase + pollInterval * j < timeLimit g ->
     ~ czarWarned j /\ ~ playersWarned j).
Proof.
  intros Ht0 Hc Hph Hs checkTime czarWarned playersWarned.
  assert (Hwin : forall j, phase + pollInterval * j < timeLimit g ->
            (czarWarned j <-> warning (phase + pollInterval * j) (timeLimit g) = Some s)).
  { intros j Hj. unfold czarWarned, winnerTimerCheck, checkTime. rewrite Ht0.
    replace (t0 + (phase + pollInterval * j) - t0) with (phase + pollInterval * j) by lia.
    destruct (Z.leb_spec (timeLimit g) (phase + pollInterval * j)); [lia|].
    unfold winnerWarning. rewrite Hc.
    destruct (warning (phase + pollInterval * j) (timeLimit g)) as [s0|].
    - split; [intros E; apply say_inj in E; congruence | intros [= ->]; reflexivity].
    - split; [intros E; exfalso; exact (out_say_ne _ _ E) | discriminate]. }
  assert (Hturn : forall j, phase + pollInterval * j < timeLimit g ->
            (playersWarned j <-> warning (phase + pollInterval * j) (timeLimit g) = Some s)).
  { intros j Hj. unfold playersWarned, turnTimerCheck, checkTime. rewrite Ht0.
    replace (t0 + (phase + pollInterval * j) - t0) with (phase + pollInterval * j) by lia.
    destruct (Z.leb_spec (timeLimit g) (phase + pollInterval * j)); [lia|].
    destruct (turnWarning_spec (phase + pollInterval * j) g c Hc) as (g' & Hrun & Hfr & Hsent).
    rewrite Hrun. split.
    - intros (g'' & Heq & _ & Hin). apply Ok_inj in Heq. subst g''. apply Hsent, Hin.
    - intros Hw. exists g'. split; [reflexivity|]. split; [exact Hfr|]. apply Hsent, Hw. }
  split.
  - intros Hopen.
    destruct (poll_in_window (timeLimit g - 1000 * s) phase) as (k & Hk & Hiff); [lia|lia|].
    exists k. split; [exact Hk|].
    assert (Hin : timeLimit g - 1000 * s <= phase + pollInterval * k
                    < timeLimit g - 1000 * s + 10 * 1000) by (apply Hiff; reflexivity).
    split; [lia|]. intros j Hj Hlim.
    rewrite (Hwin j Hlim), (Hturn j Hlim), warning_window. rewrite <- (Hiff j).
    split; (split; [intros [_ H]; exact H | intros H; split; [exact Hs|exact H]]).
  - intros Hearly j Hj Hlim.
    rewrite (Hwin j Hlim), (Hturn j Hlim), warning_window.
    unfold pollInterval in *. split; intros [_ H]; lia.
Qed.

(** In the first round, once the entries are shown, one check tells the czar
    that ten seconds are left. *)
Lemma timer_warnings_once_witness :
  exists k, 1 <= k /\
    winnerTimerCheck 5 (3000 + (0 + pollInterval * k)) round1_played
      = Ok (say (MSecondsLeft (Some (nick (heap round1_played 0%nat))) 10) round1_played).
Proof.
  assert (Ht : roundStarted round1_played = Some 3000) by (vm_compute; reflexivity).
  assert (Hc : czar round1_played = Some 0%nat) by (vm_compute; reflexivity).
  assert (HL : timeLimit round1_played = 60000) by (vm_compute; reflexivity).
  assert (Hph : 0 <= 0 < pollInterval) by (unfold pollInterval; lia).
  assert (Hs : 10 = 10 \/ 10 = 30 \/ 10 = 60) by (left; reflexivity).
  destruct (timer_warnings_once 5 round1_played 3000 0%nat 0 10 Ht Hc Hph Hs) as [H _].
  assert (Ho : 0 < timeLimit round1_played - 1000 * 10) by (rewrite HL; lia).
  destruct (H Ho) as (k & Hk & Hlim & Hj).
  destruct (Hj k Hk Hlim) as [[_ Hz] _].
  exists k. split; [exact Hk|]. apply Hz. reflexivity.
Defined.

(** ** Marking the players who did not play (getNotPlayed, markInactivePlayers) *)

Lemma getNotPlayed_pending g : getNotPlayed g = List.filter (pending g) (players g).
Proof. unfold getNotPlayed. rewrite filter_filter_bool. reflexivity. Qed.

Lemma upd_player_heap p f g q :
  heap (upd_player p f g) q = if Nat.eqb q p then f (heap g q) else heap g q.
Proof. reflexivity. Qed.

Lemma upd_player_frame p f g : upd_player p f g = set_heap (heap (upd_player p f g)) g.
Proof. reflexivity. Qed.

Lemma set_heap_set_heap h h' g : set_heap h (set_heap h' g) = set_heap h g.
Proof. reflexivity. Qed.

Lemma set_heap_id g : set_heap (heap g) g = g.
Proof. destruct g; reflexivity. Qed.

Lemma markLoop_spec l : forall g,
  NoDup l ->
  let g' := fold_left (fun g q => upd_player q markInactive g) l g in
  g' = set_heap (heap g') g /\
  forall q, heap g' q = if bool_decide (q ∈ l) then markInactive (heap g q) else heap g q.
Proof.
  induction l as [|p l IH]; intros g Hnd; cbn [fold_left].
  - split; [symmetry; apply set_heap_id|]. intros q. reflexivity.
  - apply NoDup_cons in Hnd as [Hp Hnd].
    destruct (IH (upd_player p markInactive g) Hnd) as [Hfr Hheap].
    split.
    + rewrite Hfr at 1. rewrite upd_player_frame, set_heap_set_heap. reflexivity.
    + intros q. rewrite Hheap, upd_player_heap.
      destruct (Nat.eqb_spec q p) as [->|Hne].
      * rewrite (bool_decide_eq_false_2 _ Hp).
        rewrite bool_decide_eq_true_2 by apply list_elem_of_here. reflexivity.
      * destruct (decide (q ∈ l)) as [Hin|Hin].
        -- rewrite !bool_decide_eq_true_2; [reflexivity|right; exact Hin|exact Hin].
        -- rewrite !bool_decide_eq_false_2; [reflexivity| |exact Hin].
           intros H. apply elem_of_cons in H as [?|?]; [congruence|contradiction].
Qed.

Lemma markInactivePlayers_heap g :
  NoDup (players g) ->
  markInactivePlayers g = set_heap (heap (markInactivePlayers g)) g /\
  forall q, heap (markInactivePlayers g) q =
            if bool_decide (q ∈ players g) && pending g q
            then markInactive (heap g q) else heap g q.
Proof.
  intros Hnd. unfold markInactivePlayers. rewrite getNotPlayed_pending.
  change (fun g0 q0 => upd_player q0 (fun P => set_inactiveRounds (js_incr (inactiveRounds P)) P) g0)
    with (fun g0 q0 => upd_player q0 markInactive g0).
  destruct (markLoop_spec (List.filter (pending g) (players g)) g
              (NoDup_filter_bool _ _ Hnd)) as [Hfr Hheap].
  split; [exact Hfr|]. intros q. rewrite Hheap.
  destruct (decide (q ∈ players g)) as [Hq|Hq].
  - rewrite (bool_decide_eq_true_2 _ Hq). cbn [andb].
    destruct (pending g q) eqn:Hp.
    + rewrite bool_decide_eq_true_2; [reflexivity|].
      apply list_elem_of_In, filter_In. split; [apply list_elem_of_In, Hq|exact Hp].
    + rewrite bool_decide_eq_false_2; [reflexivity|].
      intros Hin. apply list_elem_of_In, filter_In in Hin as [_ Hin]. congruence.
  - rewrite (bool_decide_eq_false_2 _ Hq). cbn [andb].
    rewrite bool_decide_eq_false_2; [reflexivity|].
    intros Hin. apply list_elem_of_In, filter_In in Hin as [Hin _].
    apply Hq, list_elem_of_In, Hin.
Qed.

(** X2. When the round times out, the inactivity counter is incremented
    once for exactly the roster players who hold cards, have not played and
    are not the czar; nothing else changes, neither for them nor for anyone
    else. *)
Theorem markInactivePlayers_marks_pending (g : Game) :
  NoDup (players g) ->
  let g' := markInactivePlayers g in
  g' = set_heap (heap g') g /\
  (forall q, q ∈ players g -> pending g q = true ->
     heap g' q = set_inactiveRounds (js_incr (inactiveRounds (heap g q))) (heap g q)) /\
  (forall q, q ∉ players g \/ pending g q = false -> heap g' q = heap g q).
Proof.
  intros Hnd. destruct (markInactivePlayers_heap g Hnd) as [Hfr Hheap].
  split; [exact Hfr|]. split.
  - intros q Hq Hp. rewrite Hheap, (bool_decide_eq_true_2 _ Hq), Hp. reflexivity.
  - intros q [Hq|Hp]; rewrite Hheap.
    + rewrite (bool_decide_eq_false_2 _ Hq). reflexivity.
    + rewrite Hp, andb_false_r. reflexivity.
Qed.

(** In the second round bob is the czar; cy, who played in the first round,
    is marked, and bob is not. *)
Lemma markInactivePlayers_marks_pending_witness :
  inactiveRounds (heap (markInactivePlayers round2) 2%nat) = JNum 1 /\
  heap (markInactivePlayers round2) 1%nat = heap round2 1%nat.
Proof.
  assert (Hnd : NoDup (players round2)).
  { apply (bool_decide_unpack _). vm_compute. exact I. }
  destruct (markInactivePlayers_marks_pending round2 Hnd) as (_ & Hm & Hk).
  split.
  - rewrite Hm.
    + vm_compute. reflexivity.
    + apply (bool_decide_unpack _). vm_compute. exact I.
    + vm_compute. reflexivity.
  - apply Hk. right. vm_compute. reflexivity.
Defined.

(** ** The round that times out without an entry (turnTimerCheck, showEntries, clean) *)

Lemma idle_heap_ext g g' q : heap g' q = heap g q -> idle g' q = idle g q.
Proof. unfold idle. intros ->. reflexivity. Qed.

(** X3. When the round timer expires and nobody has played, the check
    announces it, cleans up and goes to the next round, and the cleanup
    removes every pending player whose counter is a number (a player who has
    played a card before); a pending player whose counter was never assigned
    stays, as does a player who was not pending and not idle. *)
Theorem turn_timeout_without_entries (f : nat) (now t0 : Z) (g : Game) :
  NoDup (players g) ->
  roundStarted g = Some t0 ->
  timeLimit g <= now - t0 ->
  table_answer g = [] ->
  exists gc ev,
    turnTimerCheck (S (S (S (S f)))) now g = nextRound now gc /\
    state gc = Started /\
    out gc = out g ++ [Say MTimeUp; Say MNoOnePlayed] ++ ev /\
    players gc = List.filter (fun q => negb (idle (markInactivePlayers g) q)) (players g) /\
    (forall q n, q ∈ players g -> pending g q = true ->
       inactiveRounds (heap g q) = JNum n -> 0 <= n -> q ∉ players gc) /\
    (forall q, q ∈ players g -> pending g q = true ->
       inactiveRounds (heap g q) = JUndefined \/ inactiveRounds (heap g q) = JNaN ->
       q ∈ players gc) /\
    (forall q, q ∈ players g -> pending g q = false -> idle g q = false -> q ∈ players gc).
Proof.
  intros Hnd Ht0 Hlim Htab.
  unfold turnTimerCheck. rewrite Ht0.
  destruct (Z.leb_spec (timeLimit g) (now - t0)) as [_|?]; [|lia].
  unfold turnTimeout.
  destruct (markInactivePlayers_heap (say MTimeUp g) Hnd) as [Hfr Hheap].
  destruct (markInactivePlayers_heap g Hnd) as [_ Hheap0].
  set (gm := markInactivePlayers (say MTimeUp g)) in *.
  assert (Hsame : forall q, heap gm q = heap (markInactivePlayers g) q).
  { intros q. rewrite Hheap, Hheap0. reflexivity. }
  assert (Hpl : players gm = players g) by (rewrite Hfr; reflexivity).
  assert (Htm : table_answer gm = []) by (rewrite Hfr; exact Htab).
  assert (Hout : out gm = out g ++ [Say MTimeUp]) by (rewrite Hfr; reflexivity).
  rewrite showEntries_S. cbv zeta.
  change (table_answer (set_state Played (set_turnTimer false gm))) with (table_answer gm).
  rewrite Htm.
  set (g1 := say MNoOnePlayed (set_state Played (set_turnTimer false gm))).
  destruct (clean_spec f now g1 (or_introl eq_refl))
    as (gc & ev & Hrun & Hst & _ & _ & _ & _ & Hplc & _ & Houtc & _).
  rewrite Hrun. exists gc, ev.
  assert (Hroster : players gc =
            List.filter (fun q => negb (idle (markInactivePlayers g) q)) (players g)).
  { rewrite Hplc. change (players g1) with (players gm). rewrite Hpl.
    apply filter_ext_in_iff. intros q _. f_equal.
    apply idle_heap_ext. change (heap g1 q) with (heap gm q). apply Hsame. }
  split; [reflexivity|]. split; [exact Hst|]. split.
  { rewrite Houtc. change (out g1) with (out gm ++ [Say MNoOnePlayed]).
    rewrite Hout, <- !app_assoc. reflexivity. }
  split; [exact Hroster|].
  assert (Hin : forall q, q ∈ players g ->
            (q ∈ players gc <-> idle (markInactivePlayers g) q = false)).
  { intros q Hq. rewrite Hroster. rewrite list_elem_of_In, filter_In, negb_true_iff.
    rewrite <- list_elem_of_In. tauto. }
  split; [|split].
  - intros q n Hq Hp Hn Hn0. rewrite (Hin q Hq). unfold idle.
    rewrite Hheap0, (bool_decide_eq_true_2 _ Hq), Hp. cbn. rewrite Hn. cbn.
    destruct (Z.leb_spec 1 (n + 1)); [discriminate|lia].
  - intros q Hq Hp Hn. rewrite (Hin q Hq). unfold idle.
    rewrite Hheap0, (bool_decide_eq_true_2 _ Hq), Hp. cbn.
    destruct Hn as [-> | ->]; reflexivity.
  - intros q Hq Hp Hi. rewrite (Hin q Hq). unfold idle.
    rewrite Hheap0, Hp, andb_false_r. exact Hi.
Qed.

(** Nobody plays in the second round: cy, who played in the first round, is
    removed when the time is up. *)
Lemma turn_timeout_without_entries_witness :
  exists gc, turnTimerCheck 5 70000 round2 = nextRound 70000 gc /\ 2%nat ∉ players gc.
Proof.
  assert (Hnd : NoDup (players round2)).
  { apply (bool_decide_unpack _). vm_compute. exact I. }
  assert (Ht : roundStarted round2 = Some 4000) by (vm_compute; reflexivity).
  assert (HL : timeLimit round2 <= 70000 - 4000) by (vm_compute; discriminate).
  assert (Htab : table_answer round2 = []) by (vm_compute; reflexivity).
  destruct (turn_timeout_without_entries 1 70000 4000 round2 Hnd Ht HL Htab)
    as (gc & ev & Hrun & _ & _ & _ & Hgone & _).
  exists gc. split; [exact Hrun|].
  apply (Hgone 2%nat 0).
  - apply (bool_decide_unpack _). vm_compute. exact I.
  - vm_compute. reflexivity.
  - vm_compute. reflexivity.
  - lia.
Defined.

(** ** Revealing the entries (showEntries) *)

Lemma announce_loop q (l : list (nat * list Card)) : forall g,
  fold_left (fun g ie => say (MEntry (fst ie) q (snd ie)) g) l g
  = set_out (out g ++ map (fun ie => Say (MEntry (fst ie) q (snd ie))) l) g.
Proof.
  induction l as [|x l IH]; intros g; cbn [fold_left map].
  - rewrite app_nil_r, set_out_id. reflexivity.
  - rewrite IH. unfold say, emit. cbn [out set_out]. rewrite <- app_assoc. reflexivity.
Qed.

Lemma map_imap_shift {A B} (h : nat -> A -> B) (l : list A) : forall k : nat -> nat,
  map (fun ie => h (fst ie) (snd ie)) (imap (fun i e => (k i, e)) l)
  = imap (fun i => h (k i)) l.
Proof.
  induction l as [|x l IH]; intros k; [reflexivity|].
  cbn [imap map fst snd]. f_equal. apply (IH (k ∘ S)).
Qed.

Lemma map_imap_pair {A B} (h : nat -> A -> B) (l : list A) :
  map (fun ie => h (fst ie) (snd ie)) (imap (fun i e => (i, e)) l) = imap h l.
Proof. apply (map_imap_shift h l (fun i => i)). Qed.

(** X4. With two or more entries on the table and the czar on the roster,
    revealing the entries shuffles them, announces each under the index it
    has after the shuffle, asks the czar to select, stops the round timer
    and starts the winner timer from the current time; the hands, the
    scores and the roster are left as they were. *)
Theorem showEntries_reveals (f : nat) (now : Z) (g : Game) (q : Card) (c p : pid)
    (e1 e2 : list Card) (rest : list (list Card)) :
  table_answer g = e1 :: e2 :: rest ->
  table_question g = Some q ->
  czar g = Some c ->
  p ∈ players g -> isCzar (heap g p) = true ->
  exists g',
    showEntries (S f) now g = Ok g' /\
    state g' = Played /\
    Permutation (table_answer g') (table_answer g) /\
    turnTimer g' = false /\ winnerTimer g' = true /\ roundStarted g' = Some now /\
    out g' = out g ++ [Say MEntriesHeader]
               ++ imap (fun i entry => Say (MEntry i q entry)) (table_answer g')
               ++ [Say (MSelectWinner (nick (heap g c)))] /\
    g' = set_winnerTimer true (set_roundStarted (Some now) (set_turnTimer false
           (set_state Played (set_entropy (entropy g') (set_table_answer (table_answer g')
              (set_out (out g') g)))))).
Proof.
  intros Htab Hq Hc Hp Hflag. rewrite showEntries_S. cbv zeta.
  change (table_answer (set_state Played (set_turnTimer false g))) with (table_answer g).
  rewrite Htab.
  set (g1 := say MEntriesHeader (set_state Played (set_turnTimer false g))).
  change (table_answer g1) with (table_answer g). rewrite Htab.
  destruct (shuffleM_spec (e1 :: e2 :: rest) g1) as [Hl Hg].
  destruct (shuffleM (e1 :: e2 :: rest) g1) as [l g2]. cbn [fst snd] in Hl, Hg.
  cbv beta iota zeta.
  assert (Hperm : Permutation l (e1 :: e2 :: rest)).
  { rewrite Hl. apply shuffle_with_Permutation. }
  change (table_question (set_table_answer l g2)) with (table_question g2).
  assert (Hq2 : table_question g2 = Some q) by (rewrite Hg; exact Hq).
  rewrite Hq2. unfold announceEntries.
  change (table_answer (set_table_answer l g2)) with l.
  rewrite announce_loop, (map_imap_pair (fun i e => Say (MEntry i q e))).
  set (g3 := set_out _ (set_table_answer l g2)).
  assert (Hfind : exists x, find (fun p0 => isCzar (heap g3 p0)) (players g3) = Some x).
  { destruct (find (fun p0 => isCzar (heap g3 p0)) (players g3)) as [x|] eqn:E; [eauto|].
    exfalso. pose proof (find_none _ _ E p) as Hn. cbv beta in Hn.
    assert (Hh : heap g3 p = heap g p) by (subst g3; rewrite Hg; reflexivity).
    rewrite Hh, Hflag in Hn. discriminate Hn.
    apply list_elem_of_In. subst g3. rewrite Hg. exact Hp. }
  destruct Hfind as [x ->].
  assert (Hc3 : czar g3 = Some c) by (subst g3; rewrite Hg; exact Hc).
  rewrite Hc3. subst g3 g2 g1. eexists. split; [reflexivity|].
  split; [reflexivity|]. split; [exact Hperm|].
  do 3 (split; [reflexivity|]).
  split.
  - unfold say, emit. cbn. rewrite <- !app_assoc. reflexivity.
  - reflexivity.
Qed.

(** In the first round, once bob and cy have played, the two entries are
    revealed and ann is asked to select. *)
Lemma showEntries_reveals_witness :
  exists g', showEntries 5 3000 round1_both = Ok g' /\ state g' = Played /\
    winnerTimer g' = true.
Proof.
  assert (Hlen : length (table_answer round1_both) = 2%nat) by (vm_compute; reflexivity).
  destruct (table_answer round1_both) as [|e1 [|e2 rest]] eqn:Htab;
    [discriminate Hlen|discriminate Hlen|].
  assert (Hq : table_question round1_both = Some (questionCard 103 1))
    by (vm_compute; reflexivity).
  assert (Hc : czar round1_both = Some 0%nat) by (vm_compute; reflexivity).
  assert (Hp : 0%nat ∈ players round1_both).
  { apply (bool_decide_unpack _). vm_compute. exact I. }
  assert (Hf : isCzar (heap round1_both 0%nat) = true) by (vm_compute; reflexivity).
  destruct (showEntries_reveals 4 3000 round1_both _ _ _ _ _ _ Htab Hq Hc Hp Hf)
    as (g' & Hrun & Hst & _ & _ & Hw & _).
  exists g'. exact (conj Hrun (conj Hst Hw)).
Defined.

(** ** The play that ends the round (playCard, checkAllPlayed, getNotPlayed) *)

Lemma playCard_core_accepted xs p g g1 :
  playCard_core xs p g = Ok (Accepted, g1) ->
  exists q, table_question g = Some q /\ playable_by xs p g q /\ play_effect xs p q g g1.
Proof.
  intros H. destruct (table_question g) as [q|] eqn:Hq.
  - exists q. split; [reflexivity|].
    pose proof (playCard_core_spec xs p g q Hq) as Hs. rewrite H in Hs. exact Hs.
  - exfalso. unfold playCard_core in H. rewrite Hq in H.
    destruct (State_eqb (state g) Paused); [discriminate H|].
    destruct (negb (State_eqb (state g) Playable) || (numCards (hand g p) =? 0)%nat);
      [discriminate H|].
    destruct (isCzar (heap g p)); [discriminate H|].
    destruct (hasPlayed (heap g p)); discriminate H.
Qed.

Lemma sessionView_state g g' : sessionView g' = sessionView g -> state g' = state g.
Proof. unfold sessionView, controlView. intros H. congruence. Qed.

Lemma sessionView_players g g' : sessionView g' = sessionView g -> players g' = players g.
Proof. unfold sessionView, ledgerView. cbn. intros H. congruence. Qed.

(** X5. An accepted play ends the round exactly when no other roster player
    is still pending (holds cards, has not played, is not the czar): then the
    entries are revealed at once; otherwise the session stays Playable, the
    pending players are the same but for the one who played, and any further
    play by that player in the round is refused. *)
Theorem play_ends_round_when_last (fuel : nat) (now : Z) (xs : list Z) (p : pid)
    (g g1 : Game) :
  playCard_core xs p g = Ok (Accepted, g1) ->
  let others := List.filter (fun q => negb (Nat.eqb q p) && pending g q) (players g) in
  getNotPlayed g1 = others /\
  table_answer g1 <> [] /\
  (others = [] -> playCard fuel now xs p g = showEntries fuel now g1) /\
  (others <> [] ->
     playCard fuel now xs p g = Ok g1 /\ state g1 = Playable /\
     forall ys, exists e, playCard fuel now ys p g1 = Ok (emit e g1)).
Proof.
  intros Hacc others.
  destruct (playCard_core_accepted xs p g g1 Hacc) as (q & Hq & Hpl & Heff).
  destruct Hpl as (Hst & _ & Hcz & _).
  destruct Heff as (_ & _ & Htab & Hplayed & _ & Hstatic & _ & _ & Hoth & Hsv & _).
  assert (Hnot : getNotPlayed g1 = others).
  { rewrite getNotPlayed_pending, (sessionView_players _ _ Hsv). unfold others.
    apply filter_ext_in_iff. intros r _.
    destruct (Nat.eqb_spec r p) as [->|Hne]; cbn [negb andb].
    - unfold pending. rewrite Hplayed. cbn. rewrite andb_false_r. reflexivity.
    - unfold pending, hand. rewrite (Hoth r Hne). reflexivity. }
  assert (Hrun : playCard fuel now xs p g =
                   if checkAllPlayed g1 then showEntries fuel now g1 else Ok g1).
  { unfold playCard. rewrite Hacc. reflexivity. }
  split; [exact Hnot|]. split.
  { rewrite Htab. intros E. apply app_eq_nil in E as [_ E]. discriminate E. }
  split.
  - intros He. rewrite Hrun. unfold checkAllPlayed. rewrite Hnot, He. reflexivity.
  - intros Hne. rewrite Hrun. unfold checkAllPlayed. rewrite Hnot.
    destruct others as [|o os] eqn:Eo; [contradiction|]. cbn [length Nat.eqb].
    split; [reflexivity|].
    assert (Hst1 : state g1 = Playable) by (rewrite (sessionView_state _ _ Hsv); exact Hst).
    split; [exact Hst1|].
    intros ys.
    assert (Hrej : exists e, playCard_core ys p g1 = Ok (Rejected, emit e g1)).
    { unfold playCard_core. rewrite Hst1. cbn [State_eqb negb orb].
      destruct (numCards (hand g1 p) =? 0)%nat; [eexists; reflexivity|].
      assert (Hcz1 : isCzar (heap g1 p) = false).
      { unfold staticView in Hstatic. congruence. }
      rewrite Hcz1, Hplayed. eexists; reflexivity. }
    destruct Hrej as [e He]. exists e. apply playCard_rejected, He.
Qed.

(** In the first round bob plays first: cy is still to play and the session
    waits. *)
Lemma play_ends_round_when_last_witness :
  exists g1, playCard 5 2000 [0] 1%nat round1 = Ok g1 /\ state g1 = Playable /\
    getNotPlayed g1 = [2%nat].
Proof.
  assert (Hv : verdictOf (playCard_core [0] 1%nat round1) = Some Accepted)
    by (vm_compute; reflexivity).
  destruct (playCard_core [0] 1%nat round1) as [[v g1]| |] eqn:Hacc;
    [|discriminate Hv|discriminate Hv].
  assert (v = Accepted) as -> by (cbn in Hv; congruence).
  assert (Ho : List.filter (fun q => negb (Nat.eqb q 1) && pending round1 q) (players round1)
               = [2%nat]) by (vm_compute; reflexivity).
  destruct (play_ends_round_when_last 5 2000 [0] 1%nat round1 g1 Hacc)
    as (Hnot & _ & _ & Hwait).
  rewrite Ho in Hnot, Hwait.
  destruct (Hwait ltac:(discriminate)) as (Hrun & Hst & _).
  exists g1. exact (conj Hrun (conj Hst Hnot)).
Defined.

(** ** Dealing (checkDecks, deal, playQuestion) *)

Lemma checkDecks_stock g : Permutation (answerStock (checkDecks g)) (answerStock g).
Proof.
  unfold answerStock. destruct (checkDecks_answer g) as [Hd Hp]. rewrite Hd, Hp.
  unfold numCards. destruct (decks_answer g) as [|c t]; cbn [length Nat.eqb]; [|reflexivity].
  rewrite app_nil_r. cbn [app]. apply shuffle_with_Permutation.
Qed.

Lemma checkDecks_table g : table_answer (checkDecks g) = table_answer g.
Proof. apply dealt_table_answer, checkDecks_dealt. Qed.

Lemma checkDecks_players g : players (checkDecks g) = players g.
Proof. apply dealt_players, checkDecks_dealt. Qed.

(** One card dealt: it leaves the stock and joins the hand, owned by the
    player. *)
Lemma dealOne_spec p g g' :
  dealOne p g = Ok g' ->
  exists c,
    hand g' p = hand g p ++ [set_owner (Some p) c] /\
    (forall o, o <> p -> hand g' o = hand g o) /\
    Permutation (answerStock g) (c :: answerStock g') /\
    dealt g g'.
Proof.
  intros H. pose proof (dealOne_dealt p g g' H) as Hd. revert H. unfold dealOne.
  destruct (decks_answer (checkDecks g)) as [|c rest] eqn:Ed; [discriminate|].
  cbn [drawCard]. intros H. apply Ok_inj in H. subst g'. exists c.
  split; [|split; [|split; [|exact Hd]]].
  - unfold hand, upd_player. cbn. rewrite Nat.eqb_refl. cbn.
    rewrite checkDecks_heap. reflexivity.
  - intros o Ho. unfold hand, upd_player. cbn. apply Nat.eqb_neq in Ho. rewrite Ho.
    rewrite checkDecks_heap. reflexivity.
  - rewrite <- (checkDecks_stock g). unfold answerStock. rewrite Ed. reflexivity.
Qed.

Lemma dealN_spec k p : forall g g',
  dealN k p g = Ok g' ->
  exists new,
    hand g' p = hand g p ++ map (set_owner (Some p)) new /\
    length new = k /\
    (forall o, o <> p -> hand g' o = hand g o) /\
    Permutation (answerStock g) (new ++ answerStock g') /\
    dealt g g'.
Proof.
  induction k as [|k IH]; intros g g' H.
  - apply Ok_inj in H. subst g'. exists []. cbn. rewrite app_nil_r.
    repeat (split; [reflexivity|]). apply dealt_refl.
  - change (dealN (S k) p g) with (g1 ← dealOne p g; dealN k p g1) in H.
    apply bind_inv in H as (g1 & H1 & H).
    destruct (dealOne_spec p g g1 H1) as (c & Hh1 & Ho1 & Hs1 & Hd1).
    destruct (IH g1 g' H) as (new & Hh & Hl & Ho & Hs & Hd).
    exists (c :: new). split; [|split; [|split; [|split]]].
    + rewrite Hh, Hh1, <- app_assoc. reflexivity.
    + cbn. lia.
    + intros o Hne. rewrite (Ho o Hne). apply Ho1, Hne.
    + rewrite Hs1, Hs. reflexivity.
    + eapply dealt_trans; eassumption.
Qed.

Lemma owner_set_owner o c : owner (set_owner o c) = o.
Proof. reflexivity. Qed.

Lemma face_set_owner o c : face (set_owner o c) = face c.
Proof. reflexivity. Qed.

Lemma map_face_set_owner o l : map face (map (set_owner o) l) = map face l.
Proof. rewrite map_map. reflexivity. Qed.

(** A loop that deals to each player of [l] a number of cards that depends
    on the player's hand. *)
Lemma dealLoop_spec (kf : list Card -> nat) l : forall g g',
  NoDup l ->
  foldM (fun q g => dealN (kf (hand g q)) q g) l g = Ok g' ->
  dealt g g' /\
  forall q, exists new,
    hand g' q = hand g q ++ new /\
    Forall (fun c => owner c = Some q) new /\
    length new = if bool_decide (q ∈ l) then kf (hand g q) else 0%nat.
Proof.
  induction l as [|x l IH]; intros g g' Hnd H.
  - apply Ok_inj in H. subst g'. split; [apply dealt_refl|].
    intros q. exists []. rewrite app_nil_r. repeat split. constructor.
  - apply NoDup_cons in Hnd as [Hx Hnd].
    cbn [foldM] in H. apply bind_inv in H as (g1 & H1 & H).
    destruct (dealN_spec _ x g g1 H1) as (new1 & Hh1 & Hl1 & Ho1 & _ & Hd1).
    destruct (IH g1 g' Hnd H) as [Hd Hq].
    split; [eapply dealt_trans; eassumption|].
    intros q. destruct (Hq q) as (new & Hh & Hown & Hlen).
    destruct (decide (q = x)) as [->|Hne].
    + exists (map (set_owner (Some x)) new1 ++ new).
      rewrite bool_decide_eq_false_2 in Hlen by exact Hx.
      rewrite bool_decide_eq_true_2 by apply list_elem_of_here.
      split; [rewrite Hh, Hh1, <- app_assoc; reflexivity|]. split.
      * apply Forall_app. split; [|exact Hown].
        apply Forall_forall. intros c Hc.
        apply list_elem_of_In, in_map_iff in Hc as (c0 & <- & _). reflexivity.
      * rewrite length_app, length_map, Hl1, Hlen. lia.
    + exists new. rewrite (Ho1 q Hne) in Hh, Hlen.
      split; [exact Hh|]. split; [exact Hown|]. rewrite Hlen.
      destruct (decide (q ∈ l)) as [Hin|Hin].
      * rewrite !bool_decide_eq_true_2; [reflexivity|right; exact Hin|exact Hin].
      * rewrite !bool_decide_eq_false_2; [reflexivity| |exact Hin].
        intros E. apply elem_of_cons in E as [?|?]; [congruence|contradiction].
Qed.

Lemma pm_loop_out (m : Msg) l : forall g,
  exists ev, fold_left (fun g q => pm (nick (heap g q)) m g) l g = set_out (out g ++ ev) g.
Proof.
  induction l as [|x l IH]; intros g; cbn [fold_left].
  - exists []. rewrite app_nil_r, set_out_id. reflexivity.
  - destruct (IH (pm (nick (heap g x)) m g)) as [ev Hev]. rewrite Hev.
    exists (Pm (nick (heap g x)) m :: ev). unfold pm, emit. cbn [out set_out].
    rewrite <- app_assoc. reflexivity.
Qed.

Lemma showCards_loop_out l : forall g,
  exists ev,
    fold_left (fun g q => if isCzar (heap g q) then g else showCards q g) l g
    = set_out (out g ++ ev) g.
Proof.
  induction l as [|x l IH]; intros g; cbn [fold_left].
  - exists []. rewrite app_nil_r, set_out_id. reflexivity.
  - destruct (IH (if isCzar (heap g x) then g else showCards x g)) as [ev Hev]. rewrite Hev.
    destruct (isCzar (heap g x)).
    + exists ev. reflexivity.
    + eexists. unfold showCards, pm, emit. cbn [out set_out heap].
      rewrite <- !app_assoc. reflexivity.
Qed.

Lemma elem_of_nonCzars g q :
  q ∈ nonCzars g <-> q ∈ players g /\ isCzar (heap g q) = false.
Proof.
  unfold nonCzars. rewrite list_elem_of_In, filter_In, negb_true_iff, <- list_elem_of_In.
  reflexivity.
Qed.

(** The prompt: one question card is put on the table and every roster
    player who is not flagged as czar draws the number of cards it asks
    for. *)
Lemma playQuestion_spec now g g' :
  NoDup (players g) ->
  playQuestion now g = Ok g' ->
  exists card,
    table_question g' = Some card /\
    (forall q, exists new,
       hand g' q = hand g q ++ new /\
       Forall (fun c => owner c = Some q) new /\
       length new = if bool_decide (q ∈ players g) && negb (isCzar (heap g q))
                    then Z.to_nat (draw card) else 0%nat).
Proof.
  intros Hnd. unfold playQuestion.
  destruct (drawCard (decks_question (checkDecks g))) as [[card rest]|]; [|discriminate].
  set (g0 := set_table_question (Some card) (say (MCard card)
               (set_decks_question rest (checkDecks g)))).
  destruct (pm_loop_out (MCard card) (nonCzars g0) g0) as [ev Hev]. rewrite Hev.
  set (g1 := set_out (out g0 ++ ev) g0).
  assert (Hheap1 : heap g1 = heap g) by (subst g1 g0; cbn; apply checkDecks_heap).
  assert (Hpl1 : players g1 = players g) by (subst g1 g0; cbn; apply checkDecks_players).
  assert (Hnc : nonCzars g1 = nonCzars g) by (unfold nonCzars; rewrite Hheap1, Hpl1; reflexivity).
  assert (Hq1 : table_question g1 = Some card) by reflexivity.
  assert (Hhand1 : forall q, hand g1 q = hand g q) by (intros q; unfold hand; rewrite Hheap1; reflexivity).
  destruct (Z.ltb_spec 0 (draw card)) as [Hdraw|Hdraw].
  - intros H. apply bind_inv in H as (g2 & Hloop & H). apply Ok_inj in H. subst g'.
    exists card.
    destruct (dealLoop_spec (fun _ => Z.to_nat (draw card)) (nonCzars g1) g1 g2) as [Hd Hq].
    { rewrite Hnc. apply NoDup_filter_bool, Hnd. }
    { exact Hloop. }
    split.
    { change (table_question g2 = Some card).
      rewrite (dealt_table_question _ _ Hd). exact Hq1. }
    intros q. destruct (Hq q) as (new & Hh & Hown & Hlen). exists new.
    rewrite Hhand1 in Hh. split; [exact Hh|]. split; [exact Hown|]. rewrite Hlen, Hnc.
    destruct (decide (q ∈ nonCzars g)) as [Hin|Hin].
    + rewrite (bool_decide_eq_true_2 _ Hin). apply elem_of_nonCzars in Hin as [Hin Hcz].
      rewrite (bool_decide_eq_true_2 _ Hin), Hcz. reflexivity.
    + rewrite (bool_decide_eq_false_2 _ Hin).
      destruct (decide (q ∈ players g)) as [Hp|Hp].
      * rewrite (bool_decide_eq_true_2 _ Hp). cbn [andb].
        destruct (isCzar (heap g q)) eqn:Hcz; [reflexivity|].
        exfalso. apply Hin, elem_of_nonCzars. split; assumption.
      * rewrite (bool_decide_eq_false_2 _ Hp). reflexivity.
  - rewrite bind_Ok. intros H. apply Ok_inj in H. subst g'. exists card.
    split; [reflexivity|]. intros q. exists []. rewrite app_nil_r.
    split; [apply Hhand1|]. split; [constructor|].
    replace (Z.to_nat (draw card)) with 0%nat by lia.
    destruct (bool_decide (q ∈ players g) && negb (isCzar (heap g q))); reflexivity.
Qed.

Lemma lookupZ_elem {A} (l : list A) i x : lookupZ l i = Some x -> x ∈ l.
Proof.
  unfold lookupZ. destruct (0 <=? i); [|discriminate].
  intros H. apply list_elem_of_In. eapply nth_error_In, H.
Qed.

Lemma state_stop p b g : state (stop p b g) = Stopped.
Proof.
  unfold stop, setTopic. cbn.
  destruct p; [|destruct b]; cbn; destruct (1 <? round g); cbn;
    destruct (setTopicOption (config g)); reflexivity.
Qed.

(** The round that [nextRound] starts: the czar is flagged, every roster
    player is dealt up to ten cards, and the prompt makes every other roster
    player draw. *)
Lemma nextRound_round now g g' :
  NoDup (players g) ->
  nextRound now g = Ok g' ->
  state g' = Playable ->
  exists c card,
    czar g' = Some c /\ c ∈ players g /\
    table_question g' = Some card /\
    players g' = players g /\
    (forall q, isCzar (heap g' q) = if Nat.eqb q c then true else isCzar (heap g q)) /\
    (forall q, exists new,
       hand g' q = hand g q ++ new /\
       Forall (fun x => owner x = Some q) new /\
       length new =
         ((if bool_decide (q ∈ players g) then 10 - length (hand g q) else 0)
          + (if bool_decide (q ∈ players g) && negb (isCzar (heap g' q))
             then Z.to_nat (draw card) else 0))%nat).
Proof.
  intros Hnd H Hst. unfold nextRound in H.
  destruct (if 0 <? pointLimit _ then _ else None) as [w|].
  { exfalso. apply Ok_inj in H. subst g'. rewrite state_stop in Hst. discriminate Hst. }
  destruct (length (players _) <? 3)%nat.
  { exfalso. apply Ok_inj in H. subst g'. discriminate Hst. }
  apply bind_inv in H as (gc & Ec & H). apply bind_inv in H as (gd & Ed & H).
  apply bind_inv in H as (gq & Eq & H). apply Ok_inj in H.
  set (g0 := set_round (round (set_stopTimeout false g) + 1) (set_stopTimeout false g)) in *.
  unfold setCzar in Ec.
  destruct (match lookupZ (players g0) (indexOfCzar g0 + 1) with
            | Some q => Some q | None => lookupZ (players g0) 0 end) as [c|] eqn:Elk;
    [|discriminate Ec].
  apply Ok_inj in Ec.
  assert (Hc : c ∈ players g).
  { change (players g0) with (players g) in Elk.
    destruct (lookupZ (players g) (indexOfCzar g0 + 1)) as [x|] eqn:E1.
    - injection Elk as ->. eapply lookupZ_elem, E1.
    - eapply lookupZ_elem, Elk. }
  assert (Hplc : players gc = players g) by (subst gc; reflexivity).
  assert (Hhc : forall q, hand gc q = hand g q).
  { intros q. subst gc. unfold hand, upd_player. cbn. destruct (q =? c)%nat; reflexivity. }
  assert (Hcc : forall q, isCzar (heap gc q) = if Nat.eqb q c then true else isCzar (heap g q)).
  { intros q. subst gc. unfold upd_player. cbn. destruct (q =? c)%nat; reflexivity. }
  assert (Hczc : czar gc = Some c) by (subst gc; reflexivity).
  pose proof (deal_dealt _ _ _ _ Ed) as Dd.
  destruct (dealLoop_spec (fun h => (10 - numCards h)%nat) (players gc) gc gd) as [_ Hdeal].
  { rewrite Hplc. exact Hnd. }
  { exact Ed. }
  set (gr := say _ gd) in Eq.
  assert (Hplr : players gr = players g).
  { change (players gr) with (players gd). rewrite (dealt_players _ _ Dd). exact Hplc. }
  destruct (playQuestion_spec now gr gq) as (card & Hq & Hdraw).
  { rewrite Hplr. exact Hnd. }
  { exact Eq. }
  destruct (playQuestion_dealt now gr gq Eq) as (card' & gx & Dx & Hgx).
  destruct (showCards_loop_out (players gq) gq) as [ev Hev].
  rewrite Hev in H. subst g'.
  assert (Hczq : forall q, isCzar (heap gq q) = isCzar (heap gc q)).
  { intros q. rewrite Hgx. change (isCzar (heap gx q) = isCzar (heap gc q)).
    rewrite (dealt_isCzar _ _ q Dx). change (isCzar (heap gd q) = isCzar (heap gc q)).
    apply (dealt_isCzar _ _ q Dd). }
  exists c, card.
  split.
  { change (czar gq = Some c). rewrite Hgx. change (czar gx = Some c).
    rewrite (dealt_czar _ _ Dx). change (czar gd = Some c).
    rewrite (dealt_czar _ _ Dd). exact Hczc. }
  split; [exact Hc|]. split; [exact Hq|]. split.
  { change (players gq = players g). rewrite Hgx. change (players gx = players g).
    rewrite (dealt_players _ _ Dx). exact Hplr. }
  split.
  { intros q. change (isCzar (heap gq q) = if (q =? c)%nat then true else isCzar (heap g q)).
    rewrite Hczq. apply Hcc. }
  intros q. destruct (Hdeal q) as (new1 & Hh1 & Ho1 & Hl1).
  destruct (Hdraw q) as (new2 & Hh2 & Ho2 & Hl2).
  exists (new1 ++ new2). split; [|split].
  - change (hand gq q = hand g q ++ new1 ++ new2).
    rewrite Hh2. change (hand gr q) with (hand gd q). rewrite Hh1, Hhc, <- app_assoc.
    reflexivity.
  - apply Forall_app. split; assumption.
  - rewrite length_app, Hl1, Hl2, Hplc, Hplr, Hhc.
    change (heap gr q) with (heap gd q).
    change (isCzar (heap (set_state Playable (set_out (out gq ++ ev) gq)) q))
      with (isCzar (heap gq q)).
    rewrite Hczq, (dealt_isCzar _ _ q Dd). reflexivity.
Qed.

(** ** The round that starts (nextRound, setCzar, deal, playQuestion) *)

(** X6. When no roster player carries the czar flag (as after a cleanup),
    the round that [nextRound] starts has exactly one flagged roster player,
    and it is the player [self.czar] refers to. *)
Theorem nextRound_single_czar (now : Z) (g g' : Game) :
  NoDup (players g) ->
  (forall q, q ∈ players g -> isCzar (heap g q) = false) ->
  nextRound now g = Ok g' ->
  state g' = Playable ->
  exists c, czar g' = Some c /\ c ∈ players g' /\
    forall q, q ∈ players g' -> (isCzar (heap g' q) = true <-> q = c).
Proof.
  intros Hnd Hnone Hrun Hst.
  destruct (nextRound_round now g g' Hnd Hrun Hst) as (c & card & Hc & Hin & _ & Hpl & Hcz & _).
  exists c. split; [exact Hc|]. rewrite Hpl. split; [exact Hin|].
  intros q Hq. rewrite Hcz. destruct (Nat.eqb_spec q c) as [->|Hne].
  - split; reflexivity.
  - rewrite (Hnone q Hq). split; [discriminate|contradiction].
Qed.

Lemma session3_roster : players session3 = [0; 1; 2]%nat.
Proof. vm_compute. reflexivity. Qed.

Lemma session3_unflagged q : q ∈ players session3 -> isCzar (heap session3 q) = false.
Proof.
  rewrite session3_roster. intros Hq.
  apply elem_of_cons in Hq as [->|Hq]; [vm_compute; reflexivity|].
  apply elem_of_cons in Hq as [->|Hq]; [vm_compute; reflexivity|].
  apply list_elem_of_singleton in Hq as ->. vm_compute. reflexivity.
Qed.

Lemma session3_NoDup : NoDup (players session3).
Proof. apply (bool_decide_unpack _). vm_compute. exact I. Qed.

Lemma session3_round1 : nextRound 1000 session3 = Ok round1.
Proof. apply isOk_orElse. vm_compute. reflexivity. Qed.

Lemma round1_state : state round1 = Playable.
Proof. vm_compute. reflexivity. Qed.

(** The first round of the three players has one czar. *)
Lemma nextRound_single_czar_witness :
  exists c, czar round1 = Some c /\ c ∈ players round1 /\
    forall q, q ∈ players round1 -> (isCzar (heap round1 q) = true <-> q = c).
Proof.
  exact (nextRound_single_czar 1000 session3 round1 session3_NoDup session3_unflagged
           session3_round1 round1_state).
Defined.

(** X7. The round that [nextRound] starts leaves every roster player with
    ten cards, or with the cards already held if there were more, plus, for
    everyone but the czar, the number of cards the prompt makes them draw;
    the cards already held keep their positions in the hand, and every new
    card refers to its holder. *)
Theorem nextRound_fills_hands (now : Z) (g g' : Game) :
  NoDup (players g) ->
  (forall q, q ∈ players g -> isCzar (heap g q) = false) ->
  nextRound now g = Ok g' ->
  state g' = Playable ->
  exists c card, czar g' = Some c /\ table_question g' = Some card /\
    forall q, q ∈ players g' ->
      exists new,
        hand g' q = hand g q ++ new /\
        Forall (fun x => owner x = Some q) new /\
        length (hand g' q) =
          (Nat.max 10 (length (hand g q))
           + (if Nat.eqb q c then 0 else Z.to_nat (draw card)))%nat.
Proof.
  intros Hnd Hnone Hrun Hst.
  destruct (nextRound_round now g g' Hnd Hrun Hst)
    as (c & card & Hc & _ & Hq & Hpl & Hcz & Hh).
  exists c, card. split; [exact Hc|]. split; [exact Hq|].
  rewrite Hpl. intros q Hin. destruct (Hh q) as (new & Hhand & Hown & Hlen).
  exists new. split; [exact Hhand|]. split; [exact Hown|].
  rewrite Hhand, length_app, Hlen, (bool_decide_eq_true_2 _ Hin), Hcz. cbn [andb].
  destruct (Nat.eqb_spec q c) as [->|Hne]; cbn [negb].
  - lia.
  - rewrite (Hnone q Hin). cbn [negb]. lia.
Qed.

(** In the first round of the three players everybody holds ten cards. *)
Lemma nextRound_fills_hands_witness :
  Forall (fun q => length (hand round1 q) = 10%nat) (players round1).
Proof.
  apply Forall_forall.
  destruct (nextRound_fills_hands 1000 session3 round1 session3_NoDup session3_unflagged
              session3_round1 round1_state) as (c & card & _ & Hq & Hh).
  intros q Hin. destruct (Hh q Hin) as (new & _ & _ & Hlen). rewrite Hlen.
  assert (Hcard : table_question round1 = Some (questionCard 103 1))
    by (vm_compute; reflexivity).
  rewrite Hcard in Hq. injection Hq as <-.
  assert (Hpl : players round1 = [0; 1; 2]%nat) by (vm_compute; reflexivity).
  rewrite Hpl in Hin.
  assert (He : forall r, r ∈ [0; 1; 2]%nat -> length (hand session3 r) = 0%nat).
  { intros r Hr.
    apply elem_of_cons in Hr as [->|Hr]; [vm_compute; reflexivity|].
    apply elem_of_cons in Hr as [->|Hr]; [vm_compute; reflexivity|].
    apply list_elem_of_singleton in Hr as ->. vm_compute. reflexivity. }
  rewrite (He q Hin). cbn [draw questionCard Z.to_nat].
  destruct (q =? c)%nat; reflexivity.
Defined.

(** ** The flags of the round (clean) *)

Lemma idle_resetRoundFlags p g : idle (upd_player p resetRoundFlags g) p = idle g p.
Proof. unfold idle, upd_player. cbn. rewrite Nat.eqb_refl. reflexivity. Qed.

Lemma cleanPlayer_heap rn g p q :
  heap (cleanPlayer (rn, g) p).2 q =
    if Nat.eqb q p
    then (if idle g p then set_cards [] (resetRoundFlags (heap g p))
          else resetRoundFlags (heap g p))
    else heap g q.
Proof.
  unfold cleanPlayer. rewrite idle_resetRoundFlags.
  set (g1 := upd_player p resetRoundFlags g).
  assert (H1 : heap g1 q = if Nat.eqb q p then resetRoundFlags (heap g p) else heap g q).
  { subst g1. unfold upd_player. cbn. destruct (Nat.eqb_spec q p) as [->|]; reflexivity. }
  destruct (idle g p).
  - set (g2 := dropPlayer p true g1).
    assert (H2 : heap g2 q = if Nat.eqb q p then set_cards [] (heap g1 q) else heap g1 q).
    { subst g2. unfold dropPlayer, reset, upd_player. reflexivity. }
    cbn [snd]. unfold bumpIdle. cbn [heap set_idleCounts].
    destruct (State_eqb (state g2) Played && bool_decide (czar g2 = Some p)).
    + change (heap g2 q = if (q =? p)%nat then set_cards [] (resetRoundFlags (heap g p))
                          else heap g q).
      rewrite H2, H1. destruct (q =? p)%nat; reflexivity.
    + rewrite H2, H1. destruct (q =? p)%nat; reflexivity.
  - cbn [snd]. exact H1.
Qed.

Lemma cleanLoop_flags l : forall rn g q,
  roundFlags (heap (fold_left cleanPlayer l (rn, g)).2 q) =
    if bool_decide (q ∈ l) then (false, false, false) else roundFlags (heap g q).
Proof.
  induction l as [|p l IH]; intros rn g q; cbn [fold_left]; [reflexivity|].
  destruct (cleanPlayer (rn, g) p) as [rn1 g1] eqn:E.
  assert (H1 : heap g1 q = heap (cleanPlayer (rn, g) p).2 q) by (rewrite E; reflexivity).
  rewrite cleanPlayer_heap in H1. rewrite IH.
  destruct (decide (q ∈ l)) as [Hin|Hin].
  - rewrite !bool_decide_eq_true_2; [reflexivity|right; exact Hin|exact Hin].
  - rewrite (bool_decide_eq_false_2 _ Hin), H1.
    destruct (Nat.eqb_spec q p) as [->|Hne].
    + rewrite bool_decide_eq_true_2 by apply list_elem_of_here.
      destruct (idle g p); reflexivity.
    + rewrite bool_decide_eq_false_2; [reflexivity|].
      intros H. apply elem_of_cons in H as [?|?]; [congruence|contradiction].
Qed.

(** X8. The cleanup at the end of a round clears the played, discarded and
    czar flags of every player who was on the roster, removed or not, and of
    nobody else; it leaves [self.czar] referring to the czar of the round
    that ended. *)
Theorem clean_resets_round_flags (fuel : nat) (now : Z) (g : Game) :
  state g = Played \/ state g = RoundEnd ->
  exists g',
    clean (S (S (S fuel))) now g = Ok g' /\
    state g' = Started /\
    czar g' = czar g /\
    (forall q, q ∈ players g ->
       hasPlayed (heap g' q) = false /\ hasDiscarded (heap g' q) = false /\
       isCzar (heap g' q) = false) /\
    (forall q, q ∉ players g -> roundFlags (heap g' q) = roundFlags (heap g q)).
Proof.
  intros Hs. rewrite (clean_unfold fuel now g Hs).
  eexists. split; [reflexivity|].
  destruct (clean_spec fuel now g Hs) as (g' & ev & Hrun & Hst & _ & _ & _ & (_ & Hcz & _) & _).
  rewrite (clean_unfold fuel now g Hs) in Hrun. apply Ok_inj in Hrun. rewrite Hrun.
  split; [exact Hst|]. split; [exact Hcz|].
  assert (Hfl : forall q, roundFlags (heap g' q) =
            if bool_decide (q ∈ players g) then (false, false, false)
            else roundFlags (heap g q)).
  { intros q. rewrite <- Hrun. unfold finishClean.
    destruct (fold_left cleanPlayer (players g) ([], clearTable g)) as [rn gl] eqn:E.
    assert (Hh : heap (set_state Started match rn with
                                         | [] => gl
                                         | _ :: _ => say (MRemovedInactive rn) gl
                                         end) = heap gl) by (destruct rn; reflexivity).
    rewrite Hh. change gl with (rn, gl).2. rewrite <- E.
    rewrite cleanLoop_flags. rewrite clearTable_eq.
    destruct (table_question g); reflexivity. }
  split.
  - intros q Hq. specialize (Hfl q). rewrite (bool_decide_eq_true_2 _ Hq) in Hfl.
    unfold roundFlags in Hfl. injection Hfl as -> -> ->. repeat split.
  - intros q Hq. rewrite Hfl, (bool_decide_eq_false_2 _ Hq). reflexivity.
Qed.

(** When the second round times out, the cleanup clears the czar flag of
    bob; the session still refers to bob as the czar. *)
Lemma clean_resets_round_flags_witness :
  exists g', clean 5 70000 round2_timed_out = Ok g' /\
    isCzar (heap g' 1%nat) = false /\ czar g' = Some 1%nat.
Proof.
  assert (Hs : state round2_timed_out = Played) by (vm_compute; reflexivity).
  destruct (clean_resets_round_flags 2 70000 round2_timed_out (or_introl Hs))
    as (g' & Hrun & _ & Hcz & Hfl & _).
  exists g'. split; [exact Hrun|]. split.
  - apply Hfl. apply (bool_decide_unpack _). vm_compute. exact I.
  - rewrite Hcz. vm_compute. reflexivity.
Defined.

(** ** No answer card is lost or duplicated *)

Lemma conserved_refl g : conserved g g.
Proof. unfold conserved. reflexivity. Qed.

Lemma conserved_trans g1 g2 g3 : conserved g1 g2 -> conserved g2 g3 -> conserved g1 g3.
Proof. unfold conserved. intros H1 H2. rewrite H1. exact H2. Qed.

Lemma flat_map_ext_elem {A B} (h h' : A -> list B) l :
  (forall x, x ∈ l -> h' x = h x) -> flat_map h' l = flat_map h l.
Proof.
  induction l as [|x l IH]; intros H; [reflexivity|]. cbn.
  rewrite (H x) by apply list_elem_of_here. rewrite IH; [reflexivity|].
  intros y Hy. apply H. right. exact Hy.
Qed.

Lemma conserved_same g g' :
  answerStock g' = answerStock g -> table_answer g' = table_answer g ->
  players g' = players g -> (forall q, hand g' q = hand g q) -> conserved g g'.
Proof.
  intros Hs Ht Hp Hh. unfold conserved, answerCards. rewrite Hs, Ht, Hp.
  rewrite (flat_map_ext_elem (hand g) (hand g') (players g)); [reflexivity|].
  intros q _. apply Hh.
Qed.

(** The hands of a roster when one hand changes. *)
Lemma hands_update (h h' : pid -> list Card) (l : list pid) (p : pid) (a b : list Card) :
  NoDup l -> p ∈ l ->
  (forall o, o <> p -> h' o = h o) ->
  Permutation (map face (h' p ++ a)) (map face (h p ++ b)) ->
  Permutation (map face (flat_map h' l ++ a)) (map face (flat_map h l ++ b)).
Proof.
  intros Hnd Hin Hoth Hp. induction l as [|x l IH]; [inversion Hin|].
  apply NoDup_cons in Hnd as [Hx Hnd]. cbn [flat_map].
  destruct (decide (x = p)) as [->|Hne].
  - rewrite (flat_map_ext_elem h h' l).
    2:{ intros y Hy. apply Hoth. intros ->. contradiction. }
    rewrite <- !app_assoc, !map_app.
    rewrite (Permutation_app_comm (map face (flat_map h l)) (map face a)).
    rewrite (Permutation_app_comm (map face (flat_map h l)) (map face b)).
    rewrite !app_assoc. apply Permutation_app_tail.
    rewrite <- !map_app. exact Hp.
  - apply elem_of_cons in Hin as [Hin|Hin]; [congruence|].
    rewrite (Hoth x Hne). rewrite <- !app_assoc, !map_app.
    apply Permutation_app_head. rewrite <- !map_app. apply IH; assumption.
Qed.

Lemma dealN_conserved k p g g' :
  NoDup (players g) -> p ∈ players g -> dealN k p g = Ok g' -> conserved g g'.
Proof.
  intros Hnd Hin H. destruct (dealN_spec k p g g' H) as (new & Hh & _ & Hoth & Hs & Hd).
  unfold conserved, answerCards.
  rewrite (dealt_players _ _ Hd), (dealt_table_answer _ _ Hd).
  assert (HF : Permutation (map face (flat_map (hand g') (players g) ++ []))
                           (map face (flat_map (hand g) (players g) ++ new))).
  { apply (hands_update (hand g) (hand g') (players g) p); [exact Hnd|exact Hin|exact Hoth|].
    rewrite Hh, app_nil_r, !map_app, map_face_set_owner. reflexivity. }
  rewrite app_nil_r in HF.
  rewrite !map_app, HF, Hs, !map_app.
  rewrite <- !app_assoc. rewrite (Permutation_app_comm (map face new)).
  rewrite <- !app_assoc. reflexivity.
Qed.

Lemma dealLoop_conserved (kf : Game -> pid -> nat) l : forall g g',
  NoDup (players g) -> (forall q, q ∈ l -> q ∈ players g) ->
  foldM (fun q g => dealN (kf g q) q g) l g = Ok g' -> conserved g g'.
Proof.
  induction l as [|x l IH]; intros g g' Hnd Hsub H.
  - apply Ok_inj in H. subst g'. apply conserved_refl.
  - cbn [foldM] in H. apply bind_inv in H as (g1 & H1 & H).
    pose proof (dealN_dealt _ _ _ _ H1) as Hd.
    eapply conserved_trans.
    + eapply dealN_conserved; [exact Hnd| |exact H1]. apply Hsub, list_elem_of_here.
    + apply IH; [rewrite (dealt_players _ _ Hd); exact Hnd| |exact H].
      intros q Hq. rewrite (dealt_players _ _ Hd). apply Hsub. right. exact Hq.
Qed.

Lemma checkDecks_conserved g : conserved g (checkDecks g).
Proof.
  unfold conserved, answerCards, hand.
  rewrite checkDecks_table, checkDecks_players, checkDecks_heap, !map_app.
  rewrite (checkDecks_stock g). reflexivity.
Qed.

Lemma playQuestion_conserved now g g' :
  NoDup (players g) -> playQuestion now g = Ok g' -> conserved g g'.
Proof.
  intros Hnd. unfold playQuestion.
  destruct (drawCard (decks_question (checkDecks g))) as [[card rest]|]; [|discriminate].
  set (g0 := set_table_question (Some card) (say (MCard card)
               (set_decks_question rest (checkDecks g)))).
  destruct (pm_loop_out (MCard card) (nonCzars g0) g0) as [ev Hev]. rewrite Hev.
  set (g1 := set_out (out g0 ++ ev) g0).
  assert (C1 : conserved g g1).
  { eapply conserved_trans; [apply checkDecks_conserved|].
    apply conserved_same; reflexivity. }
  assert (Hpl1 : players g1 = players g) by (subst g1 g0; cbn; apply checkDecks_players).
  intros H. apply bind_inv in H as (g2 & Hloop & H). apply Ok_inj in H. subst g'.
  eapply conserved_trans; [exact C1|].
  apply (conserved_trans _ g2); [|apply conserved_same; reflexivity].
  destruct (0 <? draw card).
  - apply (dealLoop_conserved (fun _ _ => Z.to_nat (draw card)) (nonCzars g1) g1 g2).
    + rewrite Hpl1. exact Hnd.
    + intros q Hq. apply elem_of_nonCzars in Hq as [Hq _]. exact Hq.
    + exact Hloop.
  - apply Ok_inj in Hloop. subst g2. apply conserved_refl.
Qed.

Lemma nextRound_conserved now g g' :
  NoDup (players g) -> nextRound now g = Ok g' -> state g' <> Stopped -> conserved g g'.
Proof.
  intros Hnd H Hst. unfold nextRound in H.
  destruct (if 0 <? pointLimit _ then _ else None) as [w|].
  { exfalso. apply Ok_inj in H. subst g'. apply Hst, state_stop. }
  destruct (length (players _) <? 3)%nat.
  { apply Ok_inj in H. subst g'. apply conserved_same; reflexivity. }
  apply bind_inv in H as (gc & Ec & H). apply bind_inv in H as (gd & Ed & H).
  apply bind_inv in H as (gq & Eq & H). apply Ok_inj in H.
  set (g0 := set_round (round (set_stopTimeout false g) + 1) (set_stopTimeout false g)) in *.
  unfold setCzar in Ec.
  destruct (match lookupZ (players g0) (indexOfCzar g0 + 1) with
            | Some q => Some q | None => lookupZ (players g0) 0 end) as [c|];
    [|discriminate Ec].
  apply Ok_inj in Ec.
  assert (Cc : conserved g gc).
  { subst gc. apply conserved_same; try reflexivity.
    intros q. unfold hand, upd_player. cbn. destruct (q =? c)%nat; reflexivity. }
  assert (Hplc : players gc = players g) by (subst gc; reflexivity).
  pose proof (deal_dealt _ _ _ _ Ed) as Dd.
  assert (Cd : conserved gc gd).
  { apply (dealLoop_conserved (fun g q => (10 - numCards (hand g q))%nat) (players gc) gc gd).
    - rewrite Hplc. exact Hnd.
    - intros q Hq. exact Hq.
    - exact Ed. }
  set (gr := say _ gd) in Eq.
  assert (Cq : conserved gd gq).
  { eapply conserved_trans; [|apply (playQuestion_conserved now gr gq); [|exact Eq]].
    - apply conserved_same; reflexivity.
    - change (players gr) with (players gd). rewrite (dealt_players _ _ Dd), Hplc. exact Hnd. }
  destruct (showCards_loop_out (players gq) gq) as [ev Hev].
  rewrite Hev in H. subst g'.
  eapply conserved_trans; [exact Cc|]. eapply conserved_trans; [exact Cd|].
  eapply conserved_trans; [exact Cq|]. apply conserved_same; reflexivity.
Qed.

Lemma pickCards_partition idx cs picked rest :
  pickCards idx cs = Some (picked, rest) ->
  Permutation cs (picked ++ rest) /\ length picked = length (uniq idx).
Proof.
  unfold pickCards. cbv zeta.
  destruct (forallb (validIndex cs) (uniq idx)) eqn:E; [|discriminate].
  intros [= <- <-].
  apply (pick_partition (uniq idx) cs (uniq_NoDup idx)).
  apply Forall_forall. intros i Hi. apply validIndex_spec.
  rewrite forallb_forall in E. apply E, list_elem_of_In, Hi.
Qed.

(** What an accepted discard does to the cards. *)
Lemma discard_accepted_effect xs p g g' :
  discard xs p g = Ok (Accepted, g') ->
  exists picked rest new stock',
    Permutation (hand g p) (picked ++ rest) /\
    hand g' p = rest ++ map (set_owner (Some p)) new /\
    length new = length picked /\
    (forall o, o <> p -> hand g' o = hand g o) /\
    Permutation (answerStock g) (new ++ stock') /\
    answerStock g' = stock' ++ map (set_owner None) picked /\
    players g' = players g /\ table_answer g' = table_answer g.
Proof.
  unfold discard.
  destruct (State_eqb (state g) Paused); [discriminate|]. cbv zeta.
  destruct (negb (State_eqb (state g) Playable) || (numCards (hand g p) =? 0)%nat);
    [discriminate|].
  destruct (isCzar (heap g p)); [discriminate|].
  destruct (hasDiscarded (heap g p)); [discriminate|].
  destruct (points (heap g p) <? 1); [discriminate|].
  destruct (pickCards (wholeHandIfNone (uniq xs) (hand g p)) (hand g p))
    as [[picked rest]|] eqn:Epick; [|discriminate].
  destruct (pickCards_partition _ _ _ _ Epick) as [Hperm _].
  set (g1 := upd_player p (set_cards rest) g).
  assert (Hh1 : hand g1 p = rest).
  { subst g1. unfold hand, upd_player. cbn. rewrite Nat.eqb_refl. reflexivity. }
  assert (Ho1 : forall o, o <> p -> hand g1 o = hand g o).
  { intros o Ho. subst g1. unfold hand, upd_player. cbn.
    apply Nat.eqb_neq in Ho. rewrite Ho. reflexivity. }
  intros H. apply bind_inv in H as (gd & Hdeal & H).
  cbn [deal] in Hdeal. rewrite Hh1 in Hdeal.
  replace (numCards rest + numCards picked - numCards rest)%nat with (length picked) in Hdeal
    by (unfold numCards; lia).
  destruct (dealN_spec _ p g1 gd Hdeal) as (new & Hh & Hl & Hoth & Hs & Hd).
  injection H as <-.
  exists picked, rest, new, (answerStock gd).
  split; [exact Hperm|]. split; [|split; [exact Hl|split; [|split; [exact Hs|split; [|split]]]]].
  - unfold showCards, pm, emit, hand, upd_player. cbn. rewrite !Nat.eqb_refl. cbn.
    rewrite discardGroup_eq. cbn. fold (hand gd p). rewrite Hh, Hh1. reflexivity.
  - intros o Ho. unfold showCards, pm, emit, hand, upd_player. cbn.
    apply Nat.eqb_neq in Ho as Ho'. rewrite !Ho'. rewrite discardGroup_eq. cbn.
    fold (hand gd o). rewrite (Hoth o Ho). apply Ho1, Ho.
  - unfold showCards, pm, emit, answerStock, upd_player. cbn.
    rewrite discardGroup_eq. cbn. rewrite app_assoc. reflexivity.
  - unfold showCards, pm, emit, upd_player. cbn. rewrite discardGroup_eq. cbn.
    apply (dealt_players _ _ Hd).
  - unfold showCards, pm, emit, upd_player. cbn. rewrite discardGroup_eq. cbn.
    apply (dealt_table_answer _ _ Hd).
Qed.

Lemma sessionView_stock g g' : sessionView g' = sessionView g -> answerStock g' = answerStock g.
Proof. unfold sessionView, answerStock. intros H. f_equal; congruence. Qed.

Lemma playCard_core_conserved xs p g v g1 :
  NoDup (players g) -> p ∈ players g ->
  playCard_core xs p g = Ok (v, g1) -> conserved g g1.
Proof.
  intros Hnd Hin H. destruct v.
  - (* a refused play only sends a message *)
    revert H. unfold playCard_core.
    repeat match goal with
           | |- context [if ?b then _ else _] => destruct b
           | |- context [match table_question g with _ => _ end] => destruct (table_question g)
           | |- context [match pickCards ?a ?b with _ => _ end] =>
               destruct (pickCards a b) as [[? ?]|]
           end;
      intros H; try discriminate H; injection H as <-; apply conserved_same; reflexivity.
  - destruct (playCard_core_accepted xs p g g1 H) as (q & _ & _ & Heff).
    destruct Heff as (_ & Hperm & Htab & _ & _ & _ & _ & _ & Hoth & Hsv & _).
    unfold conserved, answerCards.
    rewrite (sessionView_stock _ _ Hsv), (sessionView_players _ _ Hsv), Htab.
    rewrite concat_app. cbn [concat]. rewrite app_nil_r.
    set (entry := omap (lookupZ (hand g p)) (uniq xs)) in *.
    assert (HF : Permutation (map face (flat_map (hand g1) (players g) ++ entry))
                             (map face (flat_map (hand g) (players g) ++ []))).
    { apply (hands_update (hand g) (hand g1) (players g) p); [exact Hnd|exact Hin| |].
      - intros o Ho. unfold hand. rewrite (Hoth o Ho). reflexivity.
      - rewrite app_nil_r, Hperm, !map_app. apply Permutation_app_comm. }
    rewrite app_nil_r in HF. rewrite !map_app. rewrite <- HF, !map_app.
    apply Permutation_app_head. rewrite <- !app_assoc. apply Permutation_app_head.
    apply Permutation_app_comm.
Qed.

Lemma discard_conserved xs p g v g' :
  NoDup (players g) -> p ∈ players g ->
  discard xs p g = Ok (v, g') -> conserved g g'.
Proof.
  intros Hnd Hin H. destruct v.
  - revert H. unfold discard. cbv zeta.
    repeat match goal with
           | |- context [if ?b then _ else _] => destruct b
           | |- context [match pickCards ?a ?b with _ => _ end] =>
               destruct (pickCards a b) as [[? ?]|]
           end;
      intros H; try discriminate H;
      try (injection H as <-; apply conserved_same; reflexivity).
    apply bind_inv in H as (gd & _ & H). discriminate H.
  - destruct (discard_accepted_effect xs p g g' H)
      as (picked & rest & new & stock' & Hperm & Hh & _ & Hoth & Hs & Hs' & Hpl & Htab).
    unfold conserved, answerCards. rewrite Hs', Hpl, Htab.
    assert (HF : Permutation (map face (flat_map (hand g') (players g) ++ picked))
                             (map face (flat_map (hand g) (players g) ++ new))).
    { apply (hands_update (hand g) (hand g') (players g) p); [exact Hnd|exact Hin|exact Hoth|].
      rewrite Hh, Hperm, !map_app, map_face_set_owner. solve_Permutation. }
    rewrite !map_app in HF. rewrite !map_app, Hs, !map_app, (map_face_set_owner None picked).
    transitivity ((map face (flat_map (hand g) (players g)) ++ map face new)
                  ++ map face stock' ++ map face (concat (table_answer g)));
      [solve_Permutation|].
    rewrite <- HF. solve_Permutation.
Qed.

Lemma without_notin p l : p ∉ l -> without p l = l.
Proof.
  intros H. unfold without. induction l as [|x l IH]; [reflexivity|]. cbn.
  destruct (Nat.eqb_spec x p) as [->|Hne].
  - exfalso. apply H, list_elem_of_here.
  - cbn. rewrite IH; [reflexivity|]. intros Hin. apply H. right. exact Hin.
Qed.

Lemma elem_of_without q p l : q ∈ without p l <-> q ∈ l /\ q <> p.
Proof.
  unfold without. rewrite list_elem_of_In, filter_In, negb_true_iff, Nat.eqb_neq.
  rewrite <- list_elem_of_In. reflexivity.
Qed.

Lemma hands_without (h : pid -> list Card) p l :
  NoDup l -> p ∈ l -> Permutation (flat_map h l) (h p ++ flat_map h (without p l)).
Proof.
  intros Hnd Hin. induction l as [|x l IH]; [inversion Hin|].
  apply NoDup_cons in Hnd as [Hx Hnd]. unfold without. cbn [flat_map List.filter].
  destruct (Nat.eqb_spec x p) as [->|Hne]; cbn [negb].
  - fold (without p l). rewrite (without_notin p l Hx). reflexivity.
  - apply elem_of_cons in Hin as [Hin|Hin]; [congruence|].
    cbn [flat_map]. fold (without p l). rewrite (IH Hnd Hin). solve_Permutation.
Qed.

Lemma dropPlayer_conserved p silent g :
  NoDup (players g) -> p ∈ players g -> conserved g (dropPlayer p silent g).
Proof.
  intros Hnd Hin.
  assert (H : conserved g (dropPlayer p true g)).
  { unfold conserved, answerCards, answerStock, dropPlayer, reset. cbn.
    rewrite (flat_map_ext_elem (hand g) _ (without p (players g))).
    2:{ intros q Hq. apply elem_of_without in Hq as [_ Hq]. unfold hand, upd_player. cbn.
        apply Nat.eqb_neq in Hq. rewrite Hq. reflexivity. }
    rewrite (hands_without (hand g) p (players g) Hnd Hin), !map_app. solve_Permutation. }
  destruct silent; [exact H|].
  eapply conserved_trans; [exact H|]. apply conserved_same; reflexivity.
Qed.

Lemma cleanPlayer_conserved rn g p :
  NoDup (players g) -> p ∈ players g -> conserved g (cleanPlayer (rn, g) p).2.
Proof.
  intros Hnd Hin. unfold cleanPlayer.
  set (g1 := upd_player p resetRoundFlags g).
  assert (C1 : conserved g g1).
  { apply conserved_same; try reflexivity. intros q. unfold hand. subst g1.
    unfold upd_player. cbn. destruct (q =? p)%nat; reflexivity. }
  destruct (idle g1 p); [|exact C1]. cbn [snd].
  eapply conserved_trans; [exact C1|].
  eapply conserved_trans; [apply (dropPlayer_conserved p true g1); assumption|].
  destruct (State_eqb _ Played && bool_decide _); apply conserved_same; reflexivity.
Qed.

Lemma cleanLoop_conserved l : forall rn g,
  NoDup l -> (forall q, q ∈ l -> q ∈ players g) -> NoDup (players g) ->
  conserved g (fold_left cleanPlayer l (rn, g)).2 /\
  NoDup (players (fold_left cleanPlayer l (rn, g)).2).
Proof.
  induction l as [|p l IH]; intros rn g Hl Hsub Hnd; cbn [fold_left].
  - split; [apply conserved_refl|exact Hnd].
  - apply NoDup_cons in Hl as [Hp Hl].
    pose proof (cleanPlayer_conserved rn g p Hnd (Hsub p (list_elem_of_here _ _))) as C1.
    destruct (cleanPlayer_spec rn g p) as (_ & Hpl & _).
    destruct (cleanPlayer (rn, g) p) as [rn1 g1]. cbn [snd] in *.
    assert (Hnd1 : NoDup (players g1)).
    { rewrite Hpl. destruct (idle g p); [apply NoDup_filter_bool|]; exact Hnd. }
    assert (Hsub1 : forall q, q ∈ l -> q ∈ players g1).
    { intros q Hq. rewrite Hpl.
      assert (Hqg : q ∈ players g) by (apply Hsub; right; exact Hq).
      destruct (idle g p); [|exact Hqg].
      apply elem_of_without. split; [exact Hqg|]. intros ->. contradiction. }
    destruct (IH rn1 g1 Hl Hsub1 Hnd1) as [C2 Hnd2].
    split; [eapply conserved_trans; eassumption|exact Hnd2].
Qed.

Lemma clearTable_conserved g : conserved g (clearTable g).
Proof.
  rewrite clearTable_eq. unfold conserved, answerCards, answerStock.
  destruct (table_question g); cbn; rewrite !app_nil_r || idtac;
    rewrite !map_app, (map_face_set_owner None); solve_Permutation.
Qed.

Lemma clean_conserved fuel now g :
  state g = Played \/ state g = RoundEnd ->
  NoDup (players g) ->
  exists g', clean (S (S (S fuel))) now g = Ok g' /\ conserved g g' /\ NoDup (players g').
Proof.
  intros Hs Hnd. rewrite (clean_unfold fuel now g Hs). eexists. split; [reflexivity|].
  destruct (cleanLoop_conserved (players g) [] (clearTable g)) as [C Hnd'].
  - exact Hnd.
  - intros q Hq. rewrite clearTable_eq. destruct (table_question g); exact Hq.
  - rewrite clearTable_eq. destruct (table_question g); exact Hnd.
  - unfold finishClean.
    destruct (fold_left cleanPlayer (players g) ([], clearTable g)) as [rn gl].
    cbn [snd] in *. split.
    + eapply conserved_trans; [apply clearTable_conserved|].
      eapply conserved_trans; [exact C|].
      destruct rn; apply conserved_same; reflexivity.
    + destruct rn; exact Hnd'.
Qed.

Lemma awardPoint_conserved entry g ga :
  awardPoint entry g = Ok ga ->
  conserved g ga /\ players ga = players g /\ state ga = RoundEnd.
Proof.
  unfold awardPoint. destruct entry as [|c rest]; [discriminate|].
  destruct (owner c) as [o|]; [|discriminate]. cbv zeta.
  destruct (findEntry o _); [|discriminate].
  destruct (table_question _); [|discriminate].
  intros H. apply Ok_inj in H. subst ga. split; [|split; reflexivity].
  apply conserved_same; try reflexivity.
  intros q. unfold hand, upd_player. cbn. destruct (q =? o)%nat; reflexivity.
Qed.

Lemma nextRound_NoDup now g g' :
  NoDup (players g) -> nextRound now g = Ok g' -> NoDup (players g').
Proof.
  intros Hnd H. destruct (nextRound_cases now g g' H) as [H1|[H1|H1]].
  - destruct H1 as (_ & -> & _). constructor.
  - destruct H1 as (_ & HL & _). unfold ledgerView in HL.
    replace (players g') with (players g) by congruence. exact Hnd.
  - destruct H1 as (_ & _ & _ & _ & gc & _ & _ & HL & _). unfold ledgerView in HL.
    replace (players g') with (players g) by congruence. exact Hnd.
Qed.

Lemma selectWinner_conserved f now i caller g g' :
  NoDup (players g) ->
  selectWinner (S (S (S (S f)))) now i caller g = Ok g' ->
  NoDup (players g') /\ (state g' <> Stopped -> conserved g g').
Proof.
  intros Hnd H. rewrite selectWinner_S in H.
  destruct (State_eqb (state g) Paused).
  { apply Ok_inj in H. subst g'. split; [exact Hnd|]. intros _. apply conserved_same; reflexivity. }
  cbv zeta in H.
  destruct (State_eqb (state (set_winnerTimer false g)) Played).
  2:{ apply Ok_inj in H. subst g'. split; [exact Hnd|]. intros _.
      apply conserved_same; reflexivity. }
  destruct (notTheCzar caller (set_winnerTimer false g)).
  { apply Ok_inj in H. subst g'. split; [exact Hnd|]. intros _.
    apply conserved_same; reflexivity. }
  destruct (lookupZ (table_answer (set_winnerTimer false g)) i) as [entry|].
  2:{ apply Ok_inj in H. subst g'. split; [exact Hnd|]. intros _.
      apply conserved_same; reflexivity. }
  apply bind_inv in H as (ga & Ha & H). apply bind_inv in H as (gc & Hc & H).
  destruct (awardPoint_conserved _ _ _ Ha) as (Ca & Hpa & Hsa).
  destruct (clean_conserved f now ga (or_intror Hsa)) as (gc' & Hc' & Cc & Hndc).
  { rewrite Hpa. exact Hnd. }
  rewrite Hc in Hc'. apply Ok_inj in Hc'. subst gc'.
  split; [apply (nextRound_NoDup now gc g' Hndc H)|]. intros Hst.
  eapply conserved_trans; [|eapply conserved_trans; [exact Ca|]].
  { apply conserved_same; reflexivity. }
  eapply conserved_trans; [exact Cc|].
  apply (nextRound_conserved now gc g' Hndc H Hst).
Qed.

Lemma conserved_table g g' :
  answerStock g' = answerStock g -> Permutation (table_answer g') (table_answer g) ->
  players g' = players g -> (forall q, hand g' q = hand g q) -> conserved g g'.
Proof.
  intros Hs Ht Hp Hh. unfold conserved, answerCards. rewrite Hs, Hp.
  rewrite (flat_map_ext_elem (hand g) (hand g') (players g)) by (intros q _; apply Hh).
  rewrite !map_app. apply Permutation_app_head, Permutation_app_tail, Permutation_map.
  induction Ht; cbn [concat].
  - reflexivity.
  - apply Permutation_app_head. assumption.
  - solve_Permutation.
  - etransitivity; eassumption.
Qed.

Lemma announce_conserved q g : conserved g (announceEntries q g).
Proof. unfold announceEntries. rewrite announce_loop. apply conserved_same; reflexivity. Qed.

Lemma showEntries_conserved f now g g' :
  NoDup (players g) ->
  showEntries (S (S (S (S (S f))))) now g = Ok g' ->
  NoDup (players g') /\ (state g' <> Stopped -> conserved g g').
Proof.
  intros Hnd H. rewrite showEntries_S in H. cbv zeta in H.
  set (g1 := set_state Played (set_turnTimer false g)) in *.
  assert (C1 : conserved g g1) by (apply conserved_same; reflexivity).
  change (table_answer (say MEntriesHeader g1)) with (table_answer g1) in H.
  destruct (table_answer g1) as [|e1 [|e2 rest]] eqn:Htab.
  - apply bind_inv in H as (gc & Hc & H).
    destruct (clean_conserved (S f) now (say MNoOnePlayed g1) (or_introl eq_refl) Hnd)
      as (gc' & Hc' & Cc & Hndc).
    rewrite Hc in Hc'. apply Ok_inj in Hc'. subst gc'.
    split; [apply (nextRound_NoDup now gc g' Hndc H)|]. intros Hst.
    eapply conserved_trans; [exact C1|].
    eapply conserved_trans; [|eapply conserved_trans; [exact Cc|]].
    { apply conserved_same; reflexivity. }
    apply (nextRound_conserved now gc g' Hndc H Hst).
  - destruct (selectWinner_conserved f now 0 None (say MOnlyOnePlayed g1) g' Hnd H)
      as [Hnd' C].
    split; [exact Hnd'|]. intros Hst.
    eapply conserved_trans; [exact C1|].
    eapply conserved_trans; [|apply C, Hst].
    apply conserved_same; reflexivity.
  - destruct (shuffleM_spec (e1 :: e2 :: rest) (say MEntriesHeader g1)) as [Hl Hg].
    destruct (shuffleM (e1 :: e2 :: rest) (say MEntriesHeader g1)) as [l g2].
    cbn [fst snd] in Hl, Hg. cbv beta iota zeta in H.
    assert (Hperm : Permutation l (e1 :: e2 :: rest)).
    { rewrite Hl. apply shuffle_with_Permutation. }
    assert (C2 : conserved g (set_table_answer l g2)).
    { eapply conserved_trans; [exact C1|]. rewrite Hg.
      apply conserved_table; try reflexivity.
      change (Permutation l (table_answer g1)). rewrite Htab. exact Hperm. }
    destruct (table_question (set_table_answer l g2)) as [q|]; [|discriminate H].
    set (g3 := announceEntries q (set_table_answer l g2)) in *.
    assert (C3 : conserved g g3).
    { eapply conserved_trans; [exact C2|]. apply announce_conserved. }
    assert (Hnd3 : NoDup (players g3)).
    { subst g3. unfold announceEntries. rewrite announce_loop. cbn. rewrite Hg. exact Hnd. }
    destruct (find _ (players g3)).
    + destruct (czar g3); [|discriminate H]. apply Ok_inj in H. subst g'.
      split; [exact Hnd3|]. intros _.
      eapply conserved_trans; [exact C3|]. apply conserved_same; reflexivity.
    + destruct (randomEntry (say MCzarFled g3)) as [i g4] eqn:Er.
      assert (Hg4 : g4 = (randomEntry (say MCzarFled g3)).2) by (rewrite Er; reflexivity).
      destruct (selectWinner_conserved f now i None g4 g') as [Hnd' C].
      { rewrite Hg4. exact Hnd3. }
      { exact H. }
      split; [exact Hnd'|]. intros Hst.
      eapply conserved_trans; [exact C3|].
      eapply conserved_trans; [|apply C, Hst].
      rewrite Hg4. apply conserved_same; reflexivity.
Qed.

Lemma dropPlayer_players p silent g : players (dropPlayer p silent g) = without p (players g).
Proof. unfold dropPlayer, reset. destruct silent; reflexivity. Qed.

Lemma removePlayer_conserved f now p silent g g' :
  NoDup (players g) -> p ∈ players g ->
  removePlayer (S (S (S (S (S (S f)))))) now p silent g = Ok g' ->
  NoDup (players g') /\ (state g' <> Stopped -> conserved g g').
Proof.
  intros Hnd Hin H. rewrite removePlayer_S in H. cbv zeta in H.
  pose proof (dropPlayer_conserved p silent g Hnd Hin) as Cd.
  assert (Hndd : NoDup (players (dropPlayer p silent g))).
  { rewrite dropPlayer_players. apply NoDup_filter_bool, Hnd. }
  set (gd := dropPlayer p silent g) in *.
  apply bind_inv in H as (g2 & H2 & H).
  assert (S2 : NoDup (players g2) /\ (state g2 <> Stopped -> conserved g g2)).
  { destruct (State_eqb (state gd) Playable && checkAllPlayed gd).
    - destruct (showEntries_conserved f now gd g2 Hndd H2) as [Hn C].
      split; [exact Hn|]. intros Hst. eapply conserved_trans; [exact Cd|apply C, Hst].
    - apply Ok_inj in H2. subst g2. split; [exact Hndd|]. intros _. exact Cd. }
  destruct S2 as [Hnd2 C2].
  destruct (State_eqb (state g2) Played && bool_decide (czar g2 = Some p)) eqn:E.
  - apply andb_true_iff in E as [E _]. apply State_eqb_eq in E.
    destruct (randomEntry (say MCzarFled g2)) as [i g3] eqn:Er.
    assert (Hg3 : g3 = (randomEntry (say MCzarFled g2)).2) by (rewrite Er; reflexivity).
    destruct (selectWinner_conserved (S f) now i None g3 g') as [Hn C].
    { rewrite Hg3. exact Hnd2. }
    { exact H. }
    split; [exact Hn|]. intros Hst.
    eapply conserved_trans; [apply C2; rewrite E; discriminate|].
    eapply conserved_trans; [|apply C, Hst].
    rewrite Hg3. apply conserved_same; reflexivity.
  - apply Ok_inj in H. subst g'. split; [exact Hnd2|exact C2].
Qed.

Lemma markInactivePlayers_conserved g :
  NoDup (players g) ->
  conserved g (markInactivePlayers g) /\ players (markInactivePlayers g) = players g.
Proof.
  intros Hnd. destruct (markInactivePlayers_heap g Hnd) as [Hfr Hheap].
  split; [|rewrite Hfr; reflexivity].
  apply conserved_same; try (rewrite Hfr; reflexivity).
  intros q. unfold hand. rewrite Hheap.
  destruct (bool_decide (q ∈ players g) && pending g q); reflexivity.
Qed.

Lemma turnTimerCheck_conserved f now g g' :
  NoDup (players g) ->
  turnTimerCheck (S (S (S (S (S f))))) now g = Ok g' ->
  state g' <> Stopped -> conserved g g'.
Proof.
  intros Hnd H Hst. unfold turnTimerCheck in H.
  destruct (roundStarted g) as [t0|]; [|discriminate H].
  destruct (timeLimit g <=? now - t0).
  - unfold turnTimeout in H.
    destruct (markInactivePlayers_conserved (say MTimeUp g) Hnd) as [Cm Hpm].
    destruct (showEntries_conserved f now _ g' ltac:(rewrite Hpm; exact Hnd) H) as [_ C].
    eapply conserved_trans; [|eapply conserved_trans; [exact Cm|apply C, Hst]].
    apply conserved_same; reflexivity.
  - unfold turnWarning, showStatus in H.
    destruct (warning (now - t0) (timeLimit g)) as [s|].
    2:{ apply Ok_inj in H. subst g'. apply conserved_refl. }
    assert (Hsay : forall m, Ok (say m g) = Ok g' -> conserved g g').
    { intros m E. apply Ok_inj in E. subst g'. apply conserved_same; reflexivity. }
    assert (Hstat : match state (say (MSecondsLeft None s) g) with
                    | Playable | Played =>
                      match czar (say (MSecondsLeft None s) g) with
                      | Some c =>
                        Ok (say (MStatus (state (say (MSecondsLeft None s) g))
                                   (nick (heap (say (MSecondsLeft None s) g) c))
                                   (map (fun q => nick (heap (say (MSecondsLeft None s) g) q))
                                        (getNotPlayed (say (MSecondsLeft None s) g))))
                              (say (MSecondsLeft None s) g))
                      | None => Crash
                      end
                    | st => Ok (say (MStatus st ""%string []) (say (MSecondsLeft None s) g))
                    end = Ok g' -> conserved g g').
    { intros E. destruct (state (say (MSecondsLeft None s) g));
        try destruct (czar (say (MSecondsLeft None s) g)); try discriminate E;
        apply Ok_inj in E; subst g'; apply conserved_same; reflexivity. }
    destruct s as [|s|s]; try (eapply Hsay, H).
    repeat (destruct s as [s|s|]; try (eapply Hsay, H)). apply Hstat, H.
Qed.

Lemma winnerTimerCheck_conserved f now g g' :
  NoDup (players g) ->
  winnerTimerCheck (S (S (S (S f)))) now g = Ok g' ->
  state g' <> Stopped -> conserved g g'.
Proof.
  intros Hnd H Hst. unfold winnerTimerCheck in H.
  destruct (roundStarted g) as [t0|]; [|discriminate H].
  destruct (timeLimit g <=? now - t0).
  - unfold winnerTimeout in H. cbv zeta in H.
    destruct (czar (say MWinnerTimeUp g)) as [c|]; [|discriminate H].
    set (g1 := upd_player c _ (say MWinnerTimeUp g)) in *.
    destruct (randomEntry g1) as [i g2] eqn:Er.
    assert (Hg2 : g2 = (randomEntry g1).2) by (rewrite Er; reflexivity).
    destruct (selectWinner_conserved f now i None g2 g') as [_ C].
    { rewrite Hg2. exact Hnd. }
    { exact H. }
    eapply conserved_trans; [|apply C, Hst]. rewrite Hg2.
    apply conserved_same; try reflexivity.
    intros q. unfold hand. subst g1. unfold upd_player. cbn. destruct (q =? c)%nat; reflexivity.
  - unfold winnerWarning in H.
    destruct (warning (now - t0) (timeLimit g)).
    + destruct (czar g); [|discriminate H]. apply Ok_inj in H. subst g'.
      apply conserved_same; reflexivity.
    + apply Ok_inj in H. subst g'. apply conserved_refl.
Qed.

(** ** Cards refer to their holder *)

Lemma owned_ext g g' : (forall q, hand g' q = hand g q) -> owned g -> owned g'.
Proof. intros H Ho q c Hc. rewrite H in Hc. apply (Ho q c Hc). Qed.

Lemma playCard_core_rejected_heap xs p g g' :
  playCard_core xs p g = Ok (Rejected, g') -> heap g' = heap g.
Proof.
  unfold playCard_core.
  repeat match goal with
         | |- context [if ?b then _ else _] => destruct b
         | |- context [match table_question g with _ => _ end] => destruct (table_question g)
         | |- context [match pickCards ?a ?b with _ => _ end] =>
             destruct (pickCards a b) as [[? ?]|]
         end;
    intros H; try discriminate H; injection H as <-; reflexivity.
Qed.

Lemma discard_rejected_heap xs p g g' :
  discard xs p g = Ok (Rejected, g') -> heap g' = heap g.
Proof.
  unfold discard. cbv zeta.
  repeat match goal with
         | |- context [if ?b then _ else _] => destruct b
         | |- context [match pickCards ?a ?b with _ => _ end] =>
             destruct (pickCards a b) as [[? ?]|]
         end;
    intros H; try discriminate H; try (injection H as <-; reflexivity).
  apply bind_inv in H as (gd & _ & H). discriminate H.
Qed.

(** X9. Every card in a hand refers to the player who holds it, and the
    start of a round, a play and a discard keep it so; the entry that an
    accepted play puts on the table has as many cards as the prompt asks for,
    and each refers to the player who played it. *)
Theorem hands_stay_owned (now : Z) (xs : list Z) (p : pid) (g : Game) :
  owned g ->
  (forall g', NoDup (players g) -> nextRound now g = Ok g' -> owned g') /\
  (forall v g', discard xs p g = Ok (v, g') -> owned g') /\
  (forall v g1, playCard_core xs p g = Ok (v, g1) ->
     owned g1 /\
     (v = Accepted ->
      exists q entry,
        table_question g = Some q /\
        table_answer g1 = table_answer g ++ [entry] /\
        Z.of_nat (length entry) = pick q /\
        Forall (fun c => owner c = Some p) entry)).
Proof.
  intros Ho. split; [|split].
  - intros g' Hnd H.
    destruct (nextRound_cases now g g' H) as [H1|[H1|H1]].
    + destruct H1 as (_ & _ & _ & _ & _ & _ & Hh).
      apply (owned_ext g); [|exact Ho]. intros q. unfold hand. rewrite Hh. reflexivity.
    + destruct H1 as (_ & _ & Hh & _).
      apply (owned_ext g); [|exact Ho]. intros q. unfold hand. rewrite Hh. reflexivity.
    + destruct H1 as (Hst & _).
      destruct (nextRound_round now g g' Hnd H Hst) as (c & card & _ & _ & _ & _ & _ & Hh).
      intros q x Hx. destruct (Hh q) as (new & Hhand & Hown & _).
      rewrite Hhand in Hx. apply elem_of_app in Hx as [Hx|Hx]; [apply (Ho q x Hx)|].
      rewrite Forall_forall in Hown. apply Hown, Hx.
  - intros v g' H. destruct v.
    + apply (owned_ext g); [|exact Ho]. intros q. unfold hand.
      rewrite (discard_rejected_heap _ _ _ _ H). reflexivity.
    + destruct (discard_accepted_effect xs p g g' H)
        as (picked & rest & new & stock' & Hperm & Hh & _ & Hoth & _).
      intros q x Hx. destruct (decide (q = p)) as [->|Hne].
      * rewrite Hh in Hx. apply elem_of_app in Hx as [Hx|Hx].
        -- apply (Ho p x). rewrite Hperm. apply elem_of_app. right. exact Hx.
        -- apply list_elem_of_In, in_map_iff in Hx as (x0 & <- & _). reflexivity.
      * rewrite (Hoth q Hne) in Hx. apply (Ho q x Hx).
  - intros v g1 H. destruct v.
    + split; [|discriminate].
      apply (owned_ext g); [|exact Ho]. intros q. unfold hand.
      rewrite (playCard_core_rejected_heap _ _ _ _ H). reflexivity.
    + destruct (playCard_core_accepted xs p g g1 H) as (q & Hq & Hpl & Heff).
      destruct Hpl as (_ & _ & _ & _ & Hcount & Hvalid).
      destruct Heff as (_ & Hperm & Htab & _ & _ & _ & _ & _ & Hoth & _).
      split.
      * intros r x Hx. destruct (decide (r = p)) as [->|Hne].
        -- apply (Ho p x). rewrite Hperm. apply elem_of_app. right. exact Hx.
        -- unfold hand in Hx. rewrite (Hoth r Hne) in Hx. apply (Ho r x Hx).
      * intros _. exists q, (omap (lookupZ (hand g p)) (uniq xs)).
        split; [exact Hq|]. split; [exact Htab|].
        destruct (pick_partition (uniq xs) (hand g p) (uniq_NoDup xs)
                    (Forall_valid_uniq _ _ Hvalid)) as [_ Hlen].
        split; [rewrite Hlen; exact Hcount|].
        apply Forall_forall. intros x Hx. apply (Ho p x).
        rewrite Hperm. apply elem_of_app. left. exact Hx.
Qed.

Lemma session3_owned : owned session3.
Proof.
  assert (He : forall q, hand session3 q = []).
  { intros [|[|[|q]]]; vm_compute; reflexivity. }
  intros q c Hc. rewrite He in Hc. inversion Hc.
Qed.

(** The hands dealt in the first round refer to their holders. *)
Lemma hands_stay_owned_witness : owned round1.
Proof.
  destruct (hands_stay_owned 1000 [] 0%nat session3 session3_owned) as (H & _).
  exact (H round1 session3_NoDup session3_round1).
Defined.

(** X10. Playing and discarding neither lose nor duplicate an answer card:
    the cards of the deck, of the discard pile, of the table and of the
    hands of the roster are the same before and after, up to their order and
    their holders, whether the move is accepted or refused and whether or not
    it ends the round (unless the game ends on the point limit, which
    deletes the cards). *)
Theorem moves_conserve_cards (f : nat) (now : Z) (xs : list Z) (p : pid) (g : Game) :
  NoDup (players g) -> p ∈ players g ->
  (forall g', playCard (S (S (S (S (S f))))) now xs p g = Ok g' ->
     state g' <> Stopped -> conserved g g') /\
  (forall v g', discard xs p g = Ok (v, g') -> conserved g g').
Proof.
  intros Hnd Hin. split.
  - intros g' H Hst. unfold playCard in H. apply bind_inv in H as ([v g1] & Hcore & H).
    pose proof (playCard_core_conserved xs p g v g1 Hnd Hin Hcore) as C1.
    destruct v.
    + apply Ok_inj in H. subst g'. exact C1.
    + destruct (playCard_core_accepted xs p g g1 Hcore) as (q & _ & _ & Heff).
      destruct Heff as (_ & _ & _ & _ & _ & _ & _ & _ & _ & Hsv & _).
      destruct (checkAllPlayed g1).
      * destruct (showEntries_conserved f now g1 g') as [_ C].
        { rewrite (sessionView_players _ _ Hsv). exact Hnd. }
        { exact H. }
        eapply conserved_trans; [exact C1|apply C, Hst].
      * apply Ok_inj in H. subst g'. exact C1.
  - intros v g' H. apply (discard_conserved xs p g v g' Hnd Hin H).
Qed.

Lemma round2_NoDup : NoDup (players round2).
Proof. apply (bool_decide_unpack _). vm_compute. exact I. Qed.

(** In the second round cy discards two cards and draws two: no card is
    lost. *)
Lemma moves_conserve_cards_witness :
  exists g', discard [0; 1] 2%nat round2 = Ok (Accepted, g') /\ conserved round2 g'.
Proof.
  assert (Hin : 2%nat ∈ players round2).
  { apply (bool_decide_unpack _). vm_compute. exact I. }
  assert (Hv : verdictOf (discard [0; 1] 2%nat round2) = Some Accepted)
    by (vm_compute; reflexivity).
  destruct (discard [0; 1] 2%nat round2) as [[v g']| |] eqn:Hrun;
    [|discriminate Hv|discriminate Hv].
  assert (v = Accepted) as -> by (cbn in Hv; congruence).
  destruct (moves_conserve_cards 0 0 [0; 1] 2%nat round2 round2_NoDup Hin) as [_ H].
  exists g'. split; [reflexivity|]. apply (H Accepted g' Hrun).
Defined.

(** X11. The end of a round neither loses nor duplicates an answer card:
    selecting the winner, the expiry of the round timer and of the winner
    timer, and the departure of a roster player (each with the cleanup and
    the next round they may lead to) leave the same answer cards, up to
    their order and their holders, in the deck, the discard pile, the table
    and the hands of the roster, unless the game ends on the point limit. *)
Theorem round_end_conserves_cards (f : nat) (now : Z) (g g' : Game) :
  NoDup (players g) ->
  state g' <> Stopped ->
  (forall i caller,
     selectWinner (S (S (S (S (S (S f)))))) now i caller g = Ok g' -> conserved g g') /\
  (turnTimerCheck (S (S (S (S (S (S f)))))) now g = Ok g' -> conserved g g') /\
  (winnerTimerCheck (S (S (S (S (S (S f)))))) now g = Ok g' -> conserved g g') /\
  (forall p silent, p ∈ players g ->
     removePlayer (S (S (S (S (S (S f)))))) now p silent g = Ok g' -> conserved g g').
Proof.
  intros Hnd Hst. split; [|split; [|split]].
  - intros i caller H.
    destruct (selectWinner_conserved (S (S f)) now i caller g g' Hnd H) as [_ C].
    apply C, Hst.
  - intros H. apply (turnTimerCheck_conserved (S f) now g g' Hnd H Hst).
  - intros H. apply (winnerTimerCheck_conserved (S (S f)) now g g' Hnd H Hst).
  - intros p silent Hin H.
    destruct (removePlayer_conserved f now p silent g g' Hnd Hin H) as [_ C].
    apply C, Hst.
Qed.

(** The czar of the first round selects cy's entry; the second round is
    dealt with the same cards. *)
Lemma round_end_conserves_cards_witness :
  conserved round1_played
    (orElse (selectWinner 6 4000 1 (Some 0%nat) round1_played) round1_played).
Proof.
  assert (Hnd : NoDup (players round1_played)).
  { apply (bool_decide_unpack _). vm_compute. exact I. }
  assert (Hrun : selectWinner 6 4000 1 (Some 0%nat) round1_played
                 = Ok (orElse (selectWinner 6 4000 1 (Some 0%nat) round1_played)
                         round1_played)).
  { apply isOk_orElse. vm_compute. reflexivity. }
  assert (Hst : state (orElse (selectWinner 6 4000 1 (Some 0%nat) round1_played)
                         round1_played) <> Stopped).
  { assert (E : state (orElse (selectWinner 6 4000 1 (Some 0%nat) round1_played)
                         round1_played) = Playable) by (vm_compute; reflexivity).
    rewrite E. discriminate. }
  destruct (round_end_conserves_cards 0 4000 round1_played _ Hnd Hst) as [H _].
  exact (H 1 (Some 0%nat) Hrun).
Defined.

(** ** Joining again (addPlayer) *)

Lemma nextRound_ledger now g g' :
  nextRound now g = Ok g' ->
  gpoints g' = gpoints g /\ idleCounts g' = idleCounts g /\
  (forall q, points (heap g' q) = points (heap g q)) /\
  (players g' = players g \/ state g' = Stopped).
Proof.
  intros H. destruct (nextRound_keeps now g g' H) as (Hp & Hg & _).
  split; [exact Hg|]. split; [|split; [exact Hp|]].
  - destruct (nextRound_cases now g g' H) as [H1|[H1|H1]].
    + destruct H1 as (_ & _ & _ & _ & _ & Hi & _). exact Hi.
    + destruct H1 as (_ & HL & _). unfold ledgerView in HL. congruence.
    + destruct H1 as (_ & _ & _ & _ & gc & _ & _ & HL & _). unfold ledgerView in HL. congruence.
  - destruct (nextRound_cases now g g' H) as [H1|[H1|H1]].
    + right. apply H1.
    + left. destruct H1 as (_ & HL & _). unfold ledgerView in HL. congruence.
    + left. destruct H1 as (_ & _ & _ & _ & gc & _ & _ & HL & _). unfold ledgerView in HL.
      congruence.
Qed.

(** X12. A player whose nick and host are not on the roster joins in one of
    three ways. An identity unknown to the score ledger gets a new ledger
    entry with no points, and the idle count of the nick is set to 0 whatever
    it was. An identity the ledger knows is refused, with a message and no
    other change, when the idle count of the nick has reached the limit;
    otherwise the ledger entry is pointed to the new player object, whose
    points become those of the entry, and the idle count is kept. *)
Theorem addPlayer_ledger (now : Z) (p : pid) (g : Game) :
  let n := nick (heap g p) in
  let h := hostname (heap g p) in
  getPlayer n h g = None ->
  match find (sameIdentity n h) (gpoints g) with
  | None =>
    forall r g', addPlayer now p g = Ok (r, g') ->
      r = Some p /\
      gpoints g' = gpoints g ++ [{| e_nick := n; e_hostname := h; e_player := p;
                                    e_points := 0 |}] /\
      idleCounts g' = <[n := JNum 0]> (idleCounts g) /\
      points (heap g' p) = points (heap g p) /\
      (players g' = players g ++ [p] \/ state g' = Stopped)
  | Some e =>
    if js_ge (js_get (idleCounts g) n) (idleLimit (config g))
    then addPlayer now p g = Ok (None, say (MBanned n) g)
    else
      forall r g', addPlayer now p g = Ok (r, g') ->
        r = Some p /\
        gpoints g' = update_first (sameIdentity n h) (set_e_player p) (gpoints g) /\
        idleCounts g' = idleCounts g /\
        points (heap g' p) = e_points e /\
        (players g' = players g ++ [p] \/ state g' = Stopped)
  end.
Proof.
  intros n h Hget. unfold addPlayer. fold n h. rewrite Hget.
  destruct (find (sameIdentity n h) (gpoints g)) as [e|].
  - destruct (js_ge (js_get (idleCounts g) n) (idleLimit (config g))); [reflexivity|].
    intros r g' H. apply bind_inv in H as (g3 & Hn & H). injection H as <- <-.
    split; [reflexivity|].
    set (g2 := say (MJoined n) (set_players _ _)) in Hn.
    assert (H2 : gpoints g2 = update_first (sameIdentity n h) (set_e_player p) (gpoints g) /\
                 idleCounts g2 = idleCounts g /\ points (heap g2 p) = e_points e /\
                 players g2 = players g ++ [p]).
    { subst g2. unfold upd_player. cbn. rewrite Nat.eqb_refl. repeat split. }
    destruct H2 as (Hg2 & Hi2 & Hp2 & Hpl2).
    destruct (State_eqb (state g2) Waiting && (3 <=? length (players g2))%nat).
    + destruct (nextRound_ledger now g2 g3 Hn) as (Hg & Hi & Hp & Hpl).
      rewrite Hg, Hi, Hp. repeat (split; [assumption|]).
      destruct Hpl as [Hpl|Hpl]; [left; congruence|right; exact Hpl].
    + apply Ok_inj in Hn. subst g3. repeat (split; [assumption|]). left. exact Hpl2.
  - intros r g' H. apply bind_inv in H as (g3 & Hn & H). injection H as <- <-.
    split; [reflexivity|].
    set (g2 := say (MJoined n) (set_players _ _)) in Hn.
    assert (H2 : gpoints g2 = gpoints g ++ [{| e_nick := n; e_hostname := h; e_player := p;
                                               e_points := 0 |}] /\
                 idleCounts g2 = <[n := JNum 0]> (idleCounts g) /\
                 points (heap g2 p) = points (heap g p) /\
                 players g2 = players g ++ [p]).
    { subst g2. repeat split. }
    destruct H2 as (Hg2 & Hi2 & Hp2 & Hpl2).
    destruct (State_eqb (state g2) Waiting && (3 <=? length (players g2))%nat).
    + destruct (nextRound_ledger now g2 g3 Hn) as (Hg & Hi & Hp & Hpl).
      rewrite Hg, Hi, Hp. repeat (split; [assumption|]).
      destruct Hpl as [Hpl|Hpl]; [left; congruence|right; exact Hpl].
    + apply Ok_inj in Hn. subst g3. repeat (split; [assumption|]). left. exact Hpl2.
Qed.

(** ann, who left during the pause, joins again: the ledger knows the
    identity and the points are those of the ledger entry. *)
Lemma addPlayer_ledger_witness :
  exists g', addPlayer 16000 0%nat paused1_czar_left = Ok (Some 0%nat, g') /\
    points (heap g' 0%nat) = 0.
Proof.
  assert (Hget : getPlayer (nick (heap paused1_czar_left 0%nat))
                   (hostname (heap paused1_czar_left 0%nat)) paused1_czar_left = None)
    by (vm_compute; reflexivity).
  pose proof (addPlayer_ledger 16000 0%nat paused1_czar_left Hget) as H. cbv zeta in H.
  assert (Hf : find (sameIdentity (nick (heap paused1_czar_left 0%nat))
                       (hostname (heap paused1_czar_left 0%nat)))
                 (gpoints paused1_czar_left)
               = Some {| e_nick := "ann"; e_hostname := "h0"; e_player := 0%nat;
                         e_points := 0 |}) by (vm_compute; reflexivity).
  rewrite Hf in H.
  assert (Hb : js_ge (js_get (idleCounts paused1_czar_left)
                        (nick (heap paused1_czar_left 0%nat)))
                 (idleLimit (config paused1_czar_left)) = false) by (vm_compute; reflexivity).
  rewrite Hb in H.
  assert (Hok : isOk (addPlayer 16000 0%nat paused1_czar_left) = true)
    by (vm_compute; reflexivity).
  destruct (addPlayer 16000 0%nat paused1_czar_left) as [[r g']| |];
    [|discriminate Hok|discriminate Hok].
  destruct (H r g' eq_refl) as (-> & _ & _ & Hp & _).
  exists g'. split; [reflexivity|exact Hp].
Defined.

Lemma findEntry_None_notin o l : o ∉ map e_player l -> findEntry o l = None.
Proof.
  unfold findEntry. induction l as [|x l IH]; intros H; [reflexivity|]. cbn.
  destruct (Nat.eqb_spec (e_player x) o) as [E|E].
  - exfalso. apply H. cbn. rewrite E. apply list_elem_of_here.
  - apply IH. intros Hin. apply H. cbn. right. exact Hin.
Qed.

Lemma repointed_entry_orphans n h p o l e :
  NoDup (map e_player l) ->
  find (sameIdentity n h) l = Some e -> e_player e = o -> o <> p ->
  findEntry o (update_first (sameIdentity n h) (set_e_player p) l) = None.
Proof.
  intros Hnd Hf He Hne. induction l as [|x l IH]; [discriminate Hf|].
  cbn in Hnd. apply NoDup_cons in Hnd as [Hx Hnd].
  cbn [find update_first] in *. destruct (sameIdentity n h x).
  - injection Hf as ->. unfold findEntry. cbn [find set_e_player e_player].
    destruct (Nat.eqb_spec p o) as [E|_]; [congruence|].
    apply findEntry_None_notin. rewrite <- He. exact Hx.
  - unfold findEntry. cbn [find]. destruct (Nat.eqb_spec (e_player x) o) as [E|_].
    + exfalso. apply Hx. rewrite E, <- He.
      apply list_elem_of_In, in_map. eapply find_some, Hf.
    + apply IH; assumption.
Qed.

(** X13. When a player who left comes back under the same nick and host,
    the ledger entry is pointed to the new player object and no entry refers
    to the former object any more; an entry that the former object had put on
    the table can then not be awarded: selecting it throws. *)
Theorem rejoin_orphans_former_object (f : nat) (now : Z) (p o : pid) (g : Game)
    (e : PointsEntry) :
  let n := nick (heap g p) in
  let h := hostname (heap g p) in
  getPlayer n h g = None ->
  find (sameIdentity n h) (gpoints g) = Some e ->
  js_ge (js_get (idleCounts g) n) (idleLimit (config g)) = false ->
  e_player e = o -> o <> p ->
  NoDup (map e_player (gpoints g)) ->
  forall r g', addPlayer now p g = Ok (r, g') ->
    r = Some p /\
    findEntry o (gpoints g') = None /\
    forall t i c card rest,
      state g' = Played -> czar g' = Some c ->
      lookupZ (table_answer g') i = Some (card :: rest) -> owner card = Some o ->
      selectWinner (S f) t i (Some c) g' = Crash.
Proof.
  intros n h Hget Hfind Hban He Hne Hnd r g' H.
  assert (Hg : r = Some p /\
               gpoints g' = update_first (sameIdentity n h) (set_e_player p) (gpoints g)).
  { revert H. unfold addPlayer. fold n h. rewrite Hget, Hfind, Hban.
    intros H. apply bind_inv in H as (g3 & Hn & H). injection H as <- <-.
    split; [reflexivity|].
    set (g2 := say (MJoined n) (set_players _ _)) in Hn.
    destruct (State_eqb (state g2) Waiting && (3 <=? length (players g2))%nat).
    - destruct (nextRound_ledger now g2 g3 Hn) as (Hgp & _). rewrite Hgp. reflexivity.
    - apply Ok_inj in Hn. subst g3. reflexivity. }
  destruct Hg as [Hr Hg]. split; [exact Hr|].
  assert (Hnone : findEntry o (gpoints g') = None).
  { rewrite Hg. eapply repointed_entry_orphans; eassumption. }
  split; [exact Hnone|].
  intros t i c card rest Hst Hc Hlk Hown. rewrite selectWinner_S.
  rewrite Hst. cbn [State_eqb]. cbv zeta.
  change (state (set_winnerTimer false g')) with (state g'). rewrite Hst. cbn [State_eqb].
  unfold notTheCzar. change (czar (set_winnerTimer false g')) with (czar g').
  rewrite Hc, bool_decide_eq_true_2 by reflexivity.
  change (table_answer (set_winnerTimer false g')) with (table_answer g'). rewrite Hlk.
  unfold awardPoint. rewrite Hown. cbv zeta.
  change (gpoints (upd_player o _ (set_state RoundEnd (set_winnerTimer false g'))))
    with (gpoints g').
  rewrite Hnone. reflexivity.
Qed.

(** cy plays in the first round, leaves and comes back before the czar has
    selected: the ledger entry refers to the new object, and selecting cy's
    entry throws. *)
Lemma rejoin_orphans_former_object_witness :
  findEntry 2%nat (gpoints round1_cy_back) = None /\
  selectWinner 6 4000 1 (Some 0%nat) round1_cy_back = Crash.
Proof.
  assert (Hget : getPlayer (nick (heap round1_cy_returns 4%nat))
                   (hostname (heap round1_cy_returns 4%nat)) round1_cy_returns = None)
    by (vm_compute; reflexivity).
  assert (Hf : find (sameIdentity (nick (heap round1_cy_returns 4%nat))
                       (hostname (heap round1_cy_returns 4%nat)))
                 (gpoints round1_cy_returns)
               = Some {| e_nick := "cy"; e_hostname := "h2"; e_player := 2%nat;
                         e_points := 0 |}) by (vm_compute; reflexivity).
  assert (Hb : js_ge (js_get (idleCounts round1_cy_returns)
                        (nick (heap round1_cy_returns 4%nat)))
                 (idleLimit (config round1_cy_returns)) = false) by (vm_compute; reflexivity).
  assert (Hnd : NoDup (map e_player (gpoints round1_cy_returns))).
  { apply (bool_decide_unpack _). vm_compute. exact I. }
  assert (Hrun : addPlayer 3600 4%nat round1_cy_returns
                 = Ok ((orElse (addPlayer 3600 4%nat round1_cy_returns)
                          (None, round1_cy_returns)).1, round1_cy_back)).
  { unfold round1_cy_back. rewrite <- surjective_pairing.
    apply isOk_orElse. vm_compute. reflexivity. }
  destruct (rejoin_orphans_former_object 5 3600 4%nat 2%nat round1_cy_returns _
              Hget Hf Hb eq_refl ltac:(discriminate) Hnd _ _ Hrun) as (_ & Hnone & Hcrash).
  split; [exact Hnone|].
  assert (Hst : state round1_cy_back = Played) by (vm_compute; reflexivity).
  assert (Hc : czar round1_cy_back = Some 0%nat) by (vm_compute; reflexivity).
  assert (Hlk : lookupZ (table_answer round1_cy_back) 1
                = Some [set_owner (Some 2%nat) (answerCard 23)])
    by (vm_compute; reflexivity).
  exact (Hcrash 4000 1 0%nat _ _ Hst Hc Hlk eq_refl).
Defined.

(** ** The depth of the calls between showEntries, selectWinner, clean and removePlayer *)

Lemma settled_Ok {A} (a : A) : settled (Ok a).
Proof. discriminate. Qed.

Lemma settled_Crash {A} : settled (@Crash A).
Proof. discriminate. Qed.

Lemma settled_bind {A B} (r : result A) (k : A -> result B) :
  settled r -> (forall a, r = Ok a -> settled (k a)) -> settled (r ≫= k).
Proof.
  intros Hr Hk. destruct r as [a| |].
  - apply Hk. reflexivity.
  - apply settled_Crash.
  - contradiction.
Qed.

Lemma settled_foldM {A S} (f : A -> S -> result S) (I : S -> Prop) l : forall s,
  (forall x s, I s -> settled (f x s) /\ forall s', f x s = Ok s' -> I s') ->
  I s -> settled (foldM f l s) /\ forall s', foldM f l s = Ok s' -> I s'.
Proof.
  induction l as [|x l IH]; intros s Hf Hs; cbn [foldM].
  - split; [apply settled_Ok|]. intros s' E. apply Ok_inj in E. subst s'. exact Hs.
  - destruct (Hf x s Hs) as [Hset Hinv]. destruct (f x s) as [s1| |] eqn:E.
    + apply (IH s1 Hf). apply Hinv. reflexivity.
    + split; [apply settled_Crash|discriminate].
    + contradiction.
Qed.

Lemma dealN_settled k p : forall g, settled (dealN k p g).
Proof.
  induction k as [|k IH]; intros g; [apply settled_Ok|].
  change (dealN (S k) p g) with (g1 ← dealOne p g; dealN k p g1).
  apply settled_bind; [|intros; apply IH].
  unfold dealOne. destruct (drawCard _) as [[c rest]|]; discriminate.
Qed.

Lemma nextRound_settled now g : settled (nextRound now g).
Proof.
  unfold nextRound.
  destruct (if 0 <? pointLimit _ then _ else None); [apply settled_Ok|].
  destruct (length _ <? 3)%nat; [apply settled_Ok|].
  apply settled_bind.
  { unfold setCzar. destruct (match lookupZ _ _ with Some q => Some q | None => _ end);
      discriminate. }
  intros gc _. apply settled_bind.
  { cbn [deal].
    apply (settled_foldM (fun q g => dealN (10 - numCards (hand g q)) q g) (fun _ => True)).
    - intros x s _. split; [apply dealN_settled|trivial].
    - trivial. }
  intros gd _. apply settled_bind; [|intros; apply settled_Ok].
  unfold playQuestion. destruct (drawCard _) as [[card rest]|]; [|apply settled_Crash].
  cbv zeta. apply settled_bind; [|intros; apply settled_Ok].
  destruct (0 <? draw card); [|apply settled_Ok].
  apply (settled_foldM (fun q g => dealN (Z.to_nat (draw card)) q g) (fun _ => True)).
  - intros x s _. split; [apply dealN_settled|trivial].
  - trivial.
Qed.

(** With no entry on the table a selection awards nothing. *)
Lemma selectWinner_empty_table f now i caller g :
  table_answer g = [] ->
  exists g', selectWinner (S f) now i caller g = Ok g' /\
    table_answer g' = [] /\ state g' = state g.
Proof.
  intros Ht. rewrite selectWinner_S.
  destruct (State_eqb (state g) Paused); [eexists; repeat split; exact Ht|].
  cbv zeta. destruct (State_eqb (state (set_winnerTimer false g)) Played);
    [|eexists; repeat split; exact Ht].
  destruct (notTheCzar caller (set_winnerTimer false g)); [eexists; repeat split; exact Ht|].
  change (table_answer (set_winnerTimer false g)) with (table_answer g).
  rewrite Ht, lookupZ_nil. eexists; repeat split; exact Ht.
Qed.

(** Outside the state Playable and with no entry on the table, a departure
    triggers at most a selection that awards nothing. *)
Lemma removePlayer_quiet f now p silent g :
  table_answer g = [] -> state g <> Playable ->
  exists g', removePlayer (S (S f)) now p silent g = Ok g' /\
    table_answer g' = [] /\ state g' = state g.
Proof.
  intros Ht Hs. rewrite removePlayer_S. cbv zeta.
  set (gd := dropPlayer p silent g).
  assert (Htd : table_answer gd = []).
  { subst gd. unfold dropPlayer, reset. destruct silent; exact Ht. }
  assert (Hsd : state gd = state g).
  { subst gd. unfold dropPlayer, reset. destruct silent; reflexivity. }
  rewrite Hsd, (State_eqb_neq _ _ Hs). cbn [andb]. rewrite bind_Ok, Hsd.
  destruct (State_eqb (state g) Played && bool_decide (czar gd = Some p)).
  - destruct (randomEntry (say MCzarFled gd)) as [i g3] eqn:Er.
    assert (Hg3 : g3 = (randomEntry (say MCzarFled gd)).2) by (rewrite Er; reflexivity).
    destruct (selectWinner_empty_table f now i None g3) as (g' & Hrun & Ht' & Hs').
    { rewrite Hg3. exact Htd. }
    exists g'. split; [exact Hrun|]. split; [exact Ht'|].
    rewrite Hs', Hg3. exact Hsd.
  - exists gd. split; [reflexivity|]. split; [exact Htd|exact Hsd].
Qed.

(** A cleanup that does not start in the state Playable. *)
Lemma clean_quiet f now g :
  state g <> Playable ->
  exists g', clean (S (S (S f))) now g = Ok g' /\ table_answer g' = [] /\ state g' = Started.
Proof.
  intros Hs. rewrite clean_S. cbv zeta.
  set (step := fun (p : pid) (ng : list string * Game) =>
                 let '(removedNicks, g) := ng in
                 let g := upd_player p resetRoundFlags g in
                 if js_ge (inactiveRounds (heap g p)) 1 then
                   g ← removePlayer (S (S f)) now p true g;
                   let n := nick (heap g p) in
                   Ok (removedNicks ++ [n], bumpIdle n g)
                 else Ok (removedNicks, g)).
  assert (Hloop : forall l ng,
            table_answer ng.2 = [] -> state ng.2 <> Playable ->
            exists ng', foldM step l ng = Ok ng' /\
              table_answer ng'.2 = [] /\ state ng'.2 <> Playable).
  { induction l as [|p l IH]; intros [rn g0] Ht0 Hs0; cbn [foldM snd] in *.
    - eexists. split; [reflexivity|]. split; assumption.
    - change (step p (rn, g0)) with
        (if js_ge (inactiveRounds (heap (upd_player p resetRoundFlags g0) p)) 1
         then g1 ← removePlayer (S (S f)) now p true (upd_player p resetRoundFlags g0);
              Ok (rn ++ [nick (heap g1 p)], bumpIdle (nick (heap g1 p)) g1)
         else Ok (rn, upd_player p resetRoundFlags g0)).
      destruct (js_ge (inactiveRounds (heap (upd_player p resetRoundFlags g0) p)) 1).
      + destruct (removePlayer_quiet f now p true (upd_player p resetRoundFlags g0) Ht0 Hs0)
          as (g1 & Hrun & Ht1 & Hs1).
        rewrite Hrun, !bind_Ok. apply IH; cbn [snd].
        * exact Ht1.
        * change (state (bumpIdle (nick (heap g1 p)) g1)) with (state g1).
          rewrite Hs1. exact Hs0.
      + rewrite bind_Ok. apply IH; assumption. }
  destruct (Hloop (players (clearTable g)) ([], clearTable g)) as ([rn gl] & Hrun & Htl & _).
  - rewrite clearTable_eq. reflexivity.
  - rewrite clearTable_eq. cbn. destruct (table_question g); exact Hs.
  - fold step. rewrite Hrun, bind_Ok. eexists. split; [reflexivity|].
    cbn [snd] in Htl. destruct rn; split; try reflexivity; exact Htl.
Qed.

Lemma nextRound_empty_table now g g' :
  table_answer g = [] -> nextRound now g = Ok g' -> table_answer g' = [].
Proof. intros Ht H. destruct (nextRound_keeps now g g' H) as (_ & _ & Hk & _). apply Hk, Ht. Qed.

Lemma showEntries_empty_table f now g :
  table_answer g = [] ->
  settled (showEntries (S (S (S (S f)))) now g) /\
  forall g', showEntries (S (S (S (S f)))) now g = Ok g' -> table_answer g' = [].
Proof.
  intros Ht. rewrite showEntries_S. cbv zeta.
  change (table_answer (set_state Played (set_turnTimer false g))) with (table_answer g).
  rewrite Ht.
  destruct (clean_quiet f now (say MNoOnePlayed (set_state Played (set_turnTimer false g))))
    as (gc & Hrun & Htc & _); [discriminate|].
  rewrite Hrun, bind_Ok. split; [apply nextRound_settled|].
  intros g' H. apply (nextRound_empty_table now gc g' Htc H).
Qed.

Lemma removePlayer_empty_table f now p silent g :
  table_answer g = [] ->
  settled (removePlayer (S (S (S (S (S f))))) now p silent g) /\
  forall g', removePlayer (S (S (S (S (S f))))) now p silent g = Ok g' -> table_answer g' = [].
Proof.
  intros Ht. rewrite removePlayer_S. cbv zeta.
  set (gd := dropPlayer p silent g).
  assert (Htd : table_answer gd = []).
  { subst gd. unfold dropPlayer, reset. destruct silent; exact Ht. }
  assert (Hstep : forall g2, table_answer g2 = [] ->
            exists g', (if State_eqb (state g2) Played && bool_decide (czar g2 = Some p)
                        then let '(i, g3) := randomEntry (say MCzarFled g2) in
                             selectWinner (S (S (S (S f)))) now i None g3
                        else Ok g2) = Ok g' /\ table_answer g' = []).
  { intros g2 Ht2. destruct (State_eqb (state g2) Played && bool_decide (czar g2 = Some p)).
    - destruct (randomEntry (say MCzarFled g2)) as [i g3] eqn:Er.
      assert (Hg3 : g3 = (randomEntry (say MCzarFled g2)).2) by (rewrite Er; reflexivity).
      destruct (selectWinner_empty_table (S (S (S f))) now i None g3) as (g' & Hrun & Ht' & _).
      { rewrite Hg3. exact Ht2. }
      exists g'. split; assumption.
    - exists g2. split; [reflexivity|exact Ht2]. }
  destruct (State_eqb (state gd) Playable && checkAllPlayed gd).
  - destruct (showEntries_empty_table f now gd Htd) as [Hset Htab].
    destruct (showEntries (S (S (S (S f)))) now gd) as [g2| |] eqn:E.
    + rewrite bind_Ok. destruct (Hstep g2 (Htab g2 eq_refl)) as (g' & Hrun & Ht').
      rewrite Hrun. split; [apply settled_Ok|]. intros g'' H. apply Ok_inj in H. subst g''.
      exact Ht'.
    + split; [apply settled_Crash|discriminate].
    + contradiction.
  - rewrite bind_Ok. destruct (Hstep gd Htd) as (g' & Hrun & Ht').
    rewrite Hrun. split; [apply settled_Ok|]. intros g'' H. apply Ok_inj in H. subst g''.
    exact Ht'.
Qed.

Lemma clean_settled f now g : settled (clean (S (S (S (S (S (S f)))))) now g).
Proof.
  rewrite clean_S. cbv zeta. apply settled_bind.
  - apply (settled_foldM _ (fun ng : list string * Game => table_answer ng.2 = [])).
    + intros p [rn g0] Ht0. cbn [snd] in Ht0. cbv beta iota zeta.
      destruct (js_ge (inactiveRounds (heap (upd_player p resetRoundFlags g0) p)) 1).
      * destruct (removePlayer_empty_table f now p true (upd_player p resetRoundFlags g0) Ht0)
          as [Hset Htab].
        destruct (removePlayer (S (S (S (S (S f))))) now p true
                    (upd_player p resetRoundFlags g0)) as [g1| |] eqn:E.
        -- rewrite bind_Ok. split; [apply settled_Ok|].
           intros s' H. apply Ok_inj in H. subst s'. cbn [snd]. apply (Htab g1 eq_refl).
        -- split; [apply settled_Crash|discriminate].
        -- contradiction.
      * split; [apply settled_Ok|]. intros s' H. apply Ok_inj in H. subst s'. exact Ht0.
    + cbn [snd]. rewrite clearTable_eq. reflexivity.
  - intros [rn gl] _. apply settled_Ok.
Qed.

Lemma selectWinner_settled f now i caller g :
  settled (selectWinner (S (S (S (S f)))) now i caller g).
Proof.
  rewrite selectWinner_S.
  destruct (State_eqb (state g) Paused); [apply settled_Ok|]. cbv zeta.
  destruct (State_eqb _ Played); [|apply settled_Ok].
  destruct (notTheCzar _ _); [apply settled_Ok|].
  destruct (lookupZ _ i) as [entry|]; [|apply settled_Ok].
  destruct (awardPoint entry (set_winnerTimer false g)) as [ga| |] eqn:Ea.
  - rewrite bind_Ok. destruct (awardPoint_conserved _ _ _ Ea) as (_ & _ & Hs).
    destruct (clean_quiet f now ga) as (gc & Hrun & _); [rewrite Hs; discriminate|].
    rewrite Hrun, bind_Ok. apply nextRound_settled.
  - apply settled_Crash.
  - exfalso. revert Ea. unfold awardPoint. destruct entry as [|c rest]; [discriminate|].
    destruct (owner c); [|discriminate]. cbv zeta.
    destruct (findEntry _ _); [|discriminate]. destruct (table_question _); discriminate.
Qed.

Lemma showEntries_settled f now g : settled (showEntries (S (S (S (S (S f))))) now g).
Proof.
  rewrite showEntries_S. cbv zeta.
  destruct (table_answer (set_state Played (set_turnTimer false g))) as [|e1 [|e2 rest]].
  - destruct (clean_quiet (S f) now
                (say MNoOnePlayed (set_state Played (set_turnTimer false g))))
      as (gc & Hrun & _); [discriminate|].
    rewrite Hrun, bind_Ok. apply nextRound_settled.
  - apply selectWinner_settled.
  - destruct (shuffleM _ _) as [l g2]. cbv beta iota zeta.
    destruct (table_question _); [|apply settled_Crash].
    destruct (find _ _).
    + destruct (czar _); [apply settled_Ok|apply settled_Crash].
    + destruct (randomEntry _) as [i g3]. apply selectWinner_settled.
Qed.

Lemma removePlayer_settled f now p silent g :
  settled (removePlayer (S (S (S (S (S (S f)))))) now p silent g).
Proof.
  rewrite removePlayer_S. cbv zeta. apply settled_bind.
  - destruct (_ && _); [apply showEntries_settled|apply settled_Ok].
  - intros g2 _. destruct (_ && _); [|apply settled_Ok].
    destruct (randomEntry _) as [i g3]. apply (selectWinner_settled (S f)).
Qed.

(** X14. The calls between showEntries, selectWinner, clean and
    removePlayer never nest more than six deep: from any session, each of
    them, and each operation that starts them (a play, a timer check, a
    resumption, a departure), returns or throws within that depth. *)
Theorem calls_nest_at_most_six (f : nat) (now : Z) (g : Game) :
  let fuel := S (S (S (S (S (S f))))) in
  settled (showEntries fuel now g) /\
  (forall i caller, settled (selectWinner fuel now i caller g)) /\
  settled (clean fuel now g) /\
  (forall p silent, settled (removePlayer fuel now p silent g)) /\
  (forall xs p, settled (playCard fuel now xs p g)) /\
  settled (turnTimerCheck fuel now g) /\
  settled (winnerTimerCheck fuel now g) /\
  settled (resume fuel now g) /\
  (forall n, settled (findAndRemoveIfPlaying fuel now n g)).
Proof.
  intros fuel. subst fuel.
  split; [apply (showEntries_settled (S f))|].
  split; [intros; apply (selectWinner_settled (S (S f)))|].
  split; [apply clean_settled|].
  split; [intros; apply removePlayer_settled|].
  split; [|split; [|split; [|split]]].
  - intros xs p. unfold playCard. apply settled_bind.
    + unfold playCard_core.
      repeat match goal with
             | |- context [if ?b then _ else _] => destruct b
             | |- context [match table_question g with _ => _ end] =>
                 destruct (table_question g)
             | |- context [match pickCards ?a ?b with _ => _ end] =>
                 destruct (pickCards a b) as [[? ?]|]
             end; discriminate.
    + intros [v g1] _. destruct v; [apply settled_Ok|].
      destruct (checkAllPlayed g1); [apply (showEntries_settled (S f))|apply settled_Ok].
  - unfold turnTimerCheck. destruct (roundStarted g); [|apply settled_Crash].
    destruct (_ <=? _); [apply (showEntries_settled (S f))|].
    unfold turnWarning, showStatus.
    destruct (warning _ _) as [s|]; [|apply settled_Ok].
    assert (Hstat : settled
              match state (say (MSecondsLeft None s) g) with
              | Playable | Played =>
                match czar (say (MSecondsLeft None s) g) with
                | Some c =>
                  Ok (say (MStatus (state (say (MSecondsLeft None s) g))
                             (nick (heap (say (MSecondsLeft None s) g) c))
                             (map (fun q => nick (heap (say (MSecondsLeft None s) g) q))
                                  (getNotPlayed (say (MSecondsLeft None s) g))))
                        (say (MSecondsLeft None s) g))
                | None => Crash
                end
              | st => Ok (say (MStatus st ""%string []) (say (MSecondsLeft None s) g))
              end).
    { destruct (state _); try destruct (czar _); discriminate. }
    destruct s as [|s|s]; try apply settled_Ok.
    repeat (destruct s as [s|s|]; try apply settled_Ok). exact Hstat.
  - unfold winnerTimerCheck. destruct (roundStarted g); [|apply settled_Crash].
    destruct (_ <=? _).
    + unfold winnerTimeout. cbv zeta. destruct (czar _); [|apply settled_Crash].
      destruct (randomEntry _) as [i g2]. apply (selectWinner_settled (S (S f))).
    + unfold winnerWarning. destruct (warning _ _); [|apply settled_Ok].
      destruct (czar g); discriminate.
  - unfold resume. destruct (negb _); [apply settled_Ok|]. cbv zeta.
    destruct (State_eqb _ Played).
    + destruct (_ <? 0); [|apply settled_Ok].
      destruct (randomEntry _) as [i g2]. apply (selectWinner_settled (S (S f))).
    + destruct (State_eqb _ Playable); apply settled_Ok.
  - intros n. unfold findAndRemoveIfPlaying.
    destruct (getPlayerByNick n g); [apply removePlayer_settled|apply settled_Ok].
Qed.

(** ** The czar who leaves (removePlayer) *)

(** X15. When the czar leaves while the entries wait for the selection, the
    session picks one of the entries on the table at random: the owner of its
    first card gets exactly one point, nobody else's points change, and the
    cleanup and the next round follow without the czar on the roster (every
    entry is taken to be well formed: its first card has an owner with a
    ledger entry, and the prompt is on the table). *)
Theorem czar_departure_awards_entry (fuel : nat) (now : Z) (g : Game) (c : pid) (q : Card)
    (silent : bool) :
  state g = Played ->
  czar g = Some c ->
  table_question g = Some q ->
  table_answer g <> [] ->
  Forall (fun entry => exists card rest o, entry = card :: rest /\ owner card = Some o /\
                         is_Some (findEntry o (gpoints g))) (table_answer g) ->
  exists card rest o gc,
    (card :: rest) ∈ table_answer g /\ owner card = Some o /\
    removePlayer (S (S (S (S (S fuel))))) now c silent g = nextRound now gc /\
    points (heap gc o) = points (heap g o) + 1 /\
    (forall p, p <> o -> points (heap gc p) = points (heap g p)) /\
    (c ∉ players gc) /\
    table_answer gc = [] /\
    forall g', nextRound now gc = Ok g' ->
      forall p, points (heap g' p) = points (heap gc p).
Proof.
  intros Hs Hc Hq Hne Hall. rewrite removePlayer_S. cbv zeta.
  set (gd := dropPlayer c silent g).
  assert (Hd : state gd = Played /\ czar gd = Some c /\ table_answer gd = table_answer g /\
               table_question gd = Some q /\ gpoints gd = gpoints g /\
               players gd = without c (players g) /\
               forall p, points (heap gd p) = points (heap g p)).
  { subst gd. unfold dropPlayer, reset. destruct silent; cbn; repeat split; try assumption;
      intros p; unfold upd_player; cbn; destruct (p =? c)%nat; reflexivity. }
  destruct Hd as (Hsd & Hcd & Htd & Hqd & Hgd & Hpd & Hptd).
  rewrite Hsd. cbn [State_eqb andb]. rewrite bind_Ok, Hsd, Hcd.
  rewrite bool_decide_eq_true_2 by reflexivity. cbn [State_eqb andb].
  set (g2 := say MCzarFled gd).
  destruct (randomEntry_valid g2) as (entry & Hentry & Hmem).
  { change (table_answer g2) with (table_answer gd). rewrite Htd. exact Hne. }
  change (table_answer g2) with (table_answer gd) in Hmem. rewrite Htd in Hmem.
  rewrite Forall_forall in Hall.
  destruct (Hall entry Hmem) as (card & rest & o & -> & Ho & He).
  destruct (randomEntry g2) as [i g3] eqn:Er. cbn [fst] in Hentry.
  assert (Hg3 : g3 = set_entropy (tl (entropy g2)) g2).
  { unfold randomEntry in Er. apply (f_equal snd) in Er. symmetry. exact Er. }
  assert (H3 : state g3 = Played /\ table_answer g3 = table_answer g2 /\
               table_question g3 = Some q /\ gpoints g3 = gpoints g /\
               heap g3 = heap gd /\ players g3 = players gd).
  { rewrite Hg3. repeat split; assumption. }
  destruct H3 as (Hs3 & Ht3 & Hq3 & Hgp3 & Hh3 & Hp3).
  destruct (awardPoint_spec (card :: rest) card rest o q (set_winnerTimer false g3)
              eq_refl Ho) as (ga & Ha & Hsa & Hpo & Hoth & _ & _ & _ & _ & Hpa & _).
  { change (gpoints (set_winnerTimer false g3)) with (gpoints g3). rewrite Hgp3. exact He. }
  { exact Hq3. }
  destruct (clean_spec fuel now ga (or_intror Hsa))
    as (gc & ev & Hcl & _ & Htc & _ & Hkeep & _ & Hpc & _).
  exists card, rest, o, gc.
  split; [exact Hmem|]. split; [exact Ho|]. split.
  { rewrite selectWinner_S. cbv zeta. rewrite Hs3. cbn [State_eqb].
    change (state (set_winnerTimer false g3)) with (state g3).
    change (table_answer (set_winnerTimer false g3)) with (table_answer g3).
    rewrite Hs3, Ht3, Hentry. cbn [State_eqb notTheCzar].
    rewrite Ha, bind_Ok, Hcl, bind_Ok. reflexivity. }
  assert (Hpts : forall p, points (heap gc p) = points (heap ga p)).
  { intros p. apply (Hkeep p). }
  split.
  { rewrite Hpts, Hpo. change (heap (set_winnerTimer false g3)) with (heap g3).
    rewrite Hh3, Hptd. reflexivity. }
  split.
  { intros p Hp. rewrite Hpts, (Hoth p Hp).
    change (heap (set_winnerTimer false g3)) with (heap g3). rewrite Hh3. apply Hptd. }
  split.
  { intros Hin. rewrite Hpc in Hin. apply list_elem_of_In, filter_In in Hin as [Hin _].
    rewrite Hpa in Hin. change (players (set_winnerTimer false g3)) with (players g3) in Hin.
    rewrite Hp3, Hpd in Hin. apply list_elem_of_In, elem_of_without in Hin as [_ Hin].
    contradiction. }
  split; [exact Htc|].
  intros g' Hn p. destruct (nextRound_keeps now gc g' Hn) as (Hk & _). apply Hk.
Qed.

Lemma round1_played_table :
  table_answer round1_played
  = [[set_owner (Some 1%nat) (answerCard 10)]; [set_owner (Some 2%nat) (answerCard 23)]].
Proof. vm_compute. reflexivity. Qed.

Lemma round1_played_entries :
  Forall (fun entry => exists card rest o, entry = card :: rest /\ owner card = Some o /\
                         is_Some (findEntry o (gpoints round1_played)))
    (table_answer round1_played).
Proof.
  rewrite round1_played_table.
  constructor; [|constructor; [|constructor]].
  - exists (set_owner (Some 1%nat) (answerCard 10)), [], 1%nat.
    split; [reflexivity|]. split; [reflexivity|].
    apply (bool_decide_unpack _). vm_compute. exact I.
  - exists (set_owner (Some 2%nat) (answerCard 23)), [], 2%nat.
    split; [reflexivity|]. split; [reflexivity|].
    apply (bool_decide_unpack _). vm_compute. exact I.
Qed.

(** ann, the czar of the first round, leaves once bob and cy have played:
    one of the two gets the point and the round ends without ann. *)
Lemma czar_departure_awards_entry_witness :
  exists o gc,
    removePlayer 5 3500 0%nat false round1_played = nextRound 3500 gc /\
    points (heap gc o) = points (heap round1_played o) + 1 /\
    0%nat ∉ players gc.
Proof.
  assert (Hs : state round1_played = Played) by (vm_compute; reflexivity).
  assert (Hc : czar round1_played = Some 0%nat) by (vm_compute; reflexivity).
  assert (Hq : table_question round1_played = Some (questionCard 103 1))
    by (vm_compute; reflexivity).
  assert (Hne : table_answer round1_played <> []).
  { rewrite round1_played_table. discriminate. }
  destruct (czar_departure_awards_entry 0 3500 round1_played 0%nat _ false
              Hs Hc Hq Hne round1_played_entries)
    as (card & rest & o & gc & _ & _ & Hrun & Hp & _ & Hout & _).
  exists o, gc. exact (conj Hrun (conj Hp Hout)).
Defined.

(** ** Nick changes (playerNickChangeHandler) *)

Lemma find_unique {A} (f : A -> bool) (l : list A) (p : A) :
  p ∈ l -> f p = true -> (forall q, q ∈ l -> f q = true -> q = p) -> find f l = Some p.
Proof.
  intros Hin Hp Hu. induction l as [|x l IH]; [inversion Hin|]. cbn.
  destruct (f x) eqn:E.
  - f_equal. apply Hu; [apply list_elem_of_here|exact E].
  - apply elem_of_cons in Hin as [->|Hin]; [congruence|].
    apply IH; [exact Hin|]. intros q Hq. apply Hu. right. exact Hq.
Qed.

Lemma set_nick_back a b P : nick P = a -> set_nick a (set_nick b P) = P.
Proof. intros <-. destruct P; reflexivity. Qed.

(** X16. A nick change renames the first roster player who has the old
    nick and changes nothing else: the ledger entry and the idle count stay
    under the old nick. If no roster player had the new nick, the renamed
    player is found under it, and changing the nick back restores every
    player object. *)
Theorem nick_change_round_trip (a b : string) (g : Game) (p : pid) :
  getPlayerByNick a g = Some p ->
  (forall q, q ∈ players g -> nick (heap g q) <> b) ->
  let g1 := playerNickChangeHandler a b g in
  let g2 := playerNickChangeHandler b a g1 in
  heap g1 p = set_nick b (heap g p) /\
  (forall q, q <> p -> heap g1 q = heap g q) /\
  g1 = set_heap (heap g1) g /\
  getPlayerByNick b g1 = Some p /\
  g2 = set_heap (heap g2) g /\
  (forall q, heap g2 q = heap g q).
Proof.
  intros Hget Hfree g1 g2.
  pose proof (find_some _ _ Hget) as [Hin Hnick]. apply list_elem_of_In in Hin.
  apply String.eqb_eq in Hnick.
  assert (E1 : g1 = upd_player p (set_nick b) g).
  { subst g1. unfold playerNickChangeHandler. rewrite Hget. reflexivity. }
  assert (Hh1 : forall q, heap g1 q = if Nat.eqb q p then set_nick b (heap g q) else heap g q).
  { intros q. rewrite E1. reflexivity. }
  assert (Hget1 : getPlayerByNick b g1 = Some p).
  { unfold getPlayerByNick. rewrite E1. cbn [players set_heap upd_player].
    apply find_unique; [exact Hin| |].
    - cbn. rewrite Nat.eqb_refl. cbn. apply String.eqb_refl.
    - intros q Hq Hb. cbn in Hb. destruct (Nat.eqb_spec q p) as [->|Hne]; [reflexivity|].
      apply String.eqb_eq in Hb. exfalso. apply (Hfree q Hq Hb). }
  assert (E2 : g2 = upd_player p (set_nick a) g1).
  { subst g2. unfold playerNickChangeHandler at 1. rewrite Hget1. reflexivity. }
  split; [rewrite Hh1, Nat.eqb_refl; reflexivity|].
  split; [intros q Hq; rewrite Hh1; apply Nat.eqb_neq in Hq; rewrite Hq; reflexivity|].
  split; [rewrite E1; reflexivity|]. split; [exact Hget1|].
  split; [rewrite E2, E1; reflexivity|].
  intros q. rewrite E2. unfold upd_player at 1. cbn [heap set_heap]. rewrite Hh1.
  destruct (Nat.eqb_spec q p) as [->|Hne]; [|reflexivity].
  apply set_nick_back. exact Hnick.
Qed.

(** bob changes nick to rob and back. *)
Lemma nick_change_round_trip_witness :
  getPlayerByNick "rob" (playerNickChangeHandler "bob" "rob" round1) = Some 1%nat /\
  forall q, heap (playerNickChangeHandler "rob" "bob"
                    (playerNickChangeHandler "bob" "rob" round1)) q = heap round1 q.
Proof.
  assert (Hget : getPlayerByNick "bob" round1 = Some 1%nat) by (vm_compute; reflexivity).
  assert (Hfree : forall q, q ∈ players round1 -> nick (heap round1 q) <> "rob"%string).
  { assert (Hpl : players round1 = [0; 1; 2]%nat) by (vm_compute; reflexivity).
    rewrite Hpl. intros q Hq.
    apply elem_of_cons in Hq as [->|Hq]; [vm_compute; discriminate|].
    apply elem_of_cons in Hq as [->|Hq]; [vm_compute; discriminate|].
    apply list_elem_of_singleton in Hq as ->. vm_compute. discriminate. }
  destruct (nick_change_round_trip "bob" "rob" round1 1%nat Hget Hfree)
    as (_ & _ & _ & H1 & _ & H2).
  exact (conj H1 H2).
Defined.

(** ** The commands of the channel (games.js) *)

Lemma newGame_fields cfg cardList limitConfig limitArg rs objects :
  let g := newGame cfg cardList limitConfig limitArg rs objects in
  state g = Started /\ players g = [] /\ gpoints g = [] /\ heap g = objects /\
  round g = 0 /\ startTimeout g = true /\ destroyed g = false /\
  table_answer g = [] /\ table_question g = None /\ config g = cfg /\
  pointLimit g = match limitArg, limitConfig with
                 | Some l, _ => l
                 | None, Some l => l
                 | None, None => 0
                 end /\
  Permutation (decks_question g)
    (List.filter (fun c => match ctype c with Question => true | _ => false end) cardList) /\
  Permutation (decks_answer g)
    (List.filter (fun c => match ctype c with Answer => true | _ => false end) cardList) /\
  discards_question g = [] /\ discards_answer g = [].
Proof.
  unfold newGame.
  pose proof (shuffle_with_Permutation rs
                (List.filter (fun c => match ctype c with Question => true | _ => false end)
                   cardList)) as Pq.
  destruct (shuffle_with rs (List.filter _ cardList)) as [dq rs1]. cbn [fst] in Pq.
  pose proof (shuffle_with_Permutation rs1
                (List.filter (fun c => match ctype c with Answer => true | _ => false end)
                   cardList)) as Pa.
  destruct (shuffle_with rs1 (List.filter _ cardList)) as [da rs2]. cbn [fst] in Pa.
  unfold setTopic. cbn. destruct (setTopicOption cfg); cbn; repeat split; assumption.
Qed.

(** X17. Without a game, [start] creates one on the channel of the message,
    in the state Started, with the decks shuffled from the configured cards,
    the point limit of the command (or else of the configuration), and the
    sender as the only player; the sender can stop it, after which the
    dispatcher holds no game and [start] creates a new one. Every other
    command without a game only replies that no game is running, except
    [cards], which throws. *)
Theorem start_and_stop_round_trip (cfg : Config) (cardList : list Card)
    (limitConfig : option Z) (fuel : nat) (now : Z) (rs : list nat) (cmdArgs : list Z)
    (m : Message) (s : Games.t) :
  Games.game s = None ->
  let run := Games.run cfg cardList limitConfig fuel now rs cmdArgs in
  (exists g s1,
     run Games.Start m s = Ok s1 /\
     Games.game s1 = Some g /\ Games.channel s1 = m_channel m /\
     Games.sent s1 = Games.sent s /\
     state g = Started /\ destroyed g = false /\
     players g = [Games.allocated s] /\
     heap g (Games.allocated s) = newPlayer (m_nick m) (m_user m) (m_host m) /\
     pointLimit g = match head cmdArgs, limitConfig with
                    | Some l, _ => l
                    | None, Some l => l
                    | None, None => 0
                    end /\
     Permutation (decks_question g ++ decks_answer g)
       (List.filter (fun c => match ctype c with Question => true | _ => false end) cardList
        ++ List.filter (fun c => match ctype c with Answer => true | _ => false end) cardList) /\
     exists s2,
       run Games.Stop m s1 = Ok s2 /\ Games.game s2 = None /\
       Games.released s2 = Games.released s ++ [stop (Some (Games.allocated s)) false g] /\
       exists g' s3, run Games.Start m s2 = Ok s3 /\ Games.game s3 = Some g') /\
  (forall c, c <> Games.Start ->
     run c m s = match c with
                 | Games.Cards => Crash
                 | Games.Discard => Ok (Games.notify (m_channel m) NNoGameDiscard s)
                 | _ => Ok (Games.notify (m_channel m) NNoGame s)
                 end).
Proof.
  intros Hnone run.
  assert (Hstart : forall s0, Games.game s0 = None ->
            exists g,
              run Games.Start m s0
              = Ok {| Games.game := Some g; Games.channel := m_channel m;
                      Games.allocated := S (Games.allocated s0);
                      Games.released := Games.released s0; Games.sent := Games.sent s0 |} /\
              state g = Started /\ destroyed g = false /\
              players g = [Games.allocated s0] /\
              heap g (Games.allocated s0) = newPlayer (m_nick m) (m_user m) (m_host m) /\
              pointLimit g = match head cmdArgs, limitConfig with
                             | Some l, _ => l
                             | None, Some l => l
                             | None, None => 0
                             end /\
              Permutation (decks_question g ++ decks_answer g)
                (List.filter (fun c => match ctype c with Question => true | _ => false end)
                   cardList
                 ++ List.filter (fun c => match ctype c with Answer => true | _ => false end)
                      cardList) /\
              getPlayer (m_nick m) (m_host m) g = Some (Games.allocated s0)).
  { intros s0 H0. subst run. unfold Games.run, Games.start, Games.newObject. rewrite H0.
    cbv zeta.
    destruct (newGame_fields cfg cardList limitConfig (head cmdArgs) rs
                (fun _ => newPlayer "" "" ""))
      as (Hst & Hpl & Hgp & Hh & _ & _ & Hdes & _ & _ & _ & Hlim & Pq & Pa & _).
    set (g0 := newGame cfg cardList limitConfig (head cmdArgs) rs
                 (fun _ => newPlayer "" "" "")) in *.
    cbv beta iota.
    set (g1 := upd_player (Games.allocated s0)
                 (fun _ => newPlayer (m_nick m) (m_user m) (m_host m)) g0).
    assert (Hadd : exists g, addPlayer now (Games.allocated s0) g1 = Ok (Some (Games.allocated s0), g) /\
              state g = Started /\ destroyed g = false /\ players g = [Games.allocated s0] /\
              heap g = heap g1 /\ pointLimit g = pointLimit g0 /\
              decks_question g = decks_question g0 /\ decks_answer g = decks_answer g0).
    { unfold addPlayer, getPlayer.
      change (players g1) with (players g0). rewrite Hpl. cbn [find].
      change (gpoints g1) with (gpoints g0). rewrite Hgp. cbn [find].
      cbv zeta. cbn [state set_players say emit set_out set_gpoints set_idleCounts].
      change (state g1) with (state g0). rewrite Hst. cbn [State_eqb andb].
      rewrite bind_Ok. eexists. split; [reflexivity|].
      cbn. rewrite Hst, Hdes, Hpl. repeat split. }
    destruct Hadd as (g & Hrun & Hs & Hd & Hp & Hheap & Hl & Hdq & Hda).
    exists g. rewrite Hrun, bind_Ok. cbn [fst snd].
    split; [reflexivity|]. split; [exact Hs|]. split; [exact Hd|]. split; [exact Hp|].
    assert (Hobj : heap g (Games.allocated s0) = newPlayer (m_nick m) (m_user m) (m_host m)).
    { rewrite Hheap. subst g1. unfold upd_player. cbn. rewrite Nat.eqb_refl. reflexivity. }
    split; [exact Hobj|]. split; [rewrite Hl; exact Hlim|].
    split; [rewrite Hdq, Hda, Pq, Pa; reflexivity|].
    unfold getPlayer. rewrite Hp. cbn [find]. rewrite Hobj. cbn [nick hostname newPlayer].
    rewrite !String.eqb_refl. reflexivity. }
  split.
  - destruct (Hstart s Hnone) as (g & Hrun & Hs & Hd & Hp & Hobj & Hlim & Hperm & Hget).
    eexists g, _. split; [exact Hrun|]. cbn [Games.game Games.channel Games.sent].
    repeat (split; [first [reflexivity|assumption]|]).
    eexists. split.
    { subst run. unfold Games.run, Games.stop. cbn [Games.game]. rewrite Hget. reflexivity. }
    cbn [Games.game Games.released]. split; [reflexivity|]. split; [reflexivity|].
    match goal with |- context [run Games.Start m ?s2] =>
      destruct (Hstart s2 eq_refl) as (g' & Hrun' & _) end.
    eexists g', _. split; [exact Hrun'|reflexivity].
  - intros c Hc. subst run.
    destruct c; try contradiction; cbn [Games.run];
      unfold Games.stop, Games.pause, Games.resume, Games.join, Games.quit, Games.cards,
        Games.play, Games.list, Games.winner, Games.points, Games.status, Games.pick,
        Games.discard; rewrite ?Hnone; reflexivity.
Qed.

(** ann starts a game with a point limit of 5. *)
Lemma start_and_stop_round_trip_witness :
  exists g s1,
    Games.run exampleConfig exampleCards None 6 0 [3; 1; 4]%nat [5] Games.Start annSays noGames
      = Ok s1 /\
    Games.game s1 = Some g /\ players g = [0%nat] /\ pointLimit g = 5.
Proof.
  destruct (start_and_stop_round_trip exampleConfig exampleCards None 6 0 [3; 1; 4]%nat [5]
              annSays noGames eq_refl) as [(g & s1 & Hrun & Hg & _ & _ & _ & _ & Hp & _ & Hl & _) _].
  exists g, s1. exact (conj Hrun (conj Hg (conj Hp Hl))).
Defined.

Lemma stop_fields p b g :
  destroyed (stop p b g) = true /\ players (stop p b g) = [] /\ state (stop p b g) = Stopped.
Proof.
  unfold stop, setTopic. cbn.
  destruct p; [|destruct b]; cbn; destruct (1 <? round g); cbn;
    destruct (setTopicOption (config g)); repeat split.
Qed.

(** X18. When the session stops itself (on the point limit, reached in
    [nextRound], or on the stop timer) the dispatcher still holds the game
    object: from then on no command removes or replaces it. [start] is
    answered with the notice that a game is already running, [stop] is
    ignored because the roster is gone, and the other commands are ignored,
    answered with a notice, or throw. *)
Theorem self_stopped_game_blocks (cfg : Config) (cardList : list Card)
    (limitConfig : option Z) (fuel : nat) (now : Z) (rs : list nat) (cmdArgs : list Z)
    (c : Games.command) (m : Message) (s : Games.t) (g0 : Game) (limitReached : bool) :
  (forall g1 w, 0 < pointLimit g1 ->
     find (fun q => points (heap g1 q) =? pointLimit g1) (players g1) = Some w ->
     exists g2, nextRound now g1 = Ok (stop None true g2)) /\
  (Games.game s = Some (stop None limitReached g0) ->
   forall s', Games.run cfg cardList limitConfig fuel now rs cmdArgs c m s = Ok s' ->
     Games.game s' = Some (stop None limitReached g0) /\
     (c = Games.Start -> s' = Games.notify (m_channel m) NAlreadyRunning s) /\
     (c = Games.Stop -> s' = s)).
Proof.
  split.
  { intros g1 w Hl Hw. unfold nextRound.
    change (pointLimit (set_stopTimeout false g1)) with (pointLimit g1).
    change (players (set_stopTimeout false g1)) with (players g1).
    change (heap (set_stopTimeout false g1)) with (heap g1).
    destruct (Z.ltb_spec 0 (pointLimit g1)); [|lia]. rewrite Hw. eexists. reflexivity. }
  intros Hg s' Hrun.
  destruct (stop_fields None limitReached g0) as (Hd & Hp & Hs).
  assert (Hget : getPlayer (m_nick m) (m_host m) (stop None limitReached g0) = None).
  { unfold getPlayer. rewrite Hp. reflexivity. }
  destruct c; cbn [Games.run] in Hrun;
    unfold Games.start, Games.stop, Games.pause, Games.resume, Games.join, Games.quit,
      Games.cards, Games.play, Games.list, Games.winner, Games.points, Games.status,
      Games.pick, Games.discard, live in Hrun;
    rewrite ?Hg in Hrun; rewrite ?Hget, ?Hd, ?Hs in Hrun; cbn [State_eqb] in Hrun;
    try discriminate Hrun; apply Ok_inj in Hrun; subst s';
    (split; [exact Hg|split; [intros E; first [reflexivity|discriminate E]
                             |intros E; first [reflexivity|discriminate E]]]).
Qed.

(** The session of the three players has stopped itself: the dispatcher
    that holds it answers [start] with the notice that a game is running. *)
Lemma self_stopped_game_blocks_witness :
  exists s',
    Games.run exampleConfig exampleCards None 6 0 [] [] Games.Start annSays
      (Games.set_game (Some (stop None false session3)) noGames) = Ok s' /\
    Games.game s' = Some (stop None false session3).
Proof.
  destruct (self_stopped_game_blocks exampleConfig exampleCards None 6 0 [] [] Games.Start
              annSays (Games.set_game (Some (stop None false session3)) noGames)
              session3 false) as [_ H].
  eexists. split; [reflexivity|].
  apply (H eq_refl _ eq_refl).
Defined.

(** X19. While a game is held, a sender who is not on its roster (by nick
    and host) cannot stop, pause or resume it, quit it, select a winner or
    pick: these commands do nothing at all, not even reply. [start] is
    answered with a notice. [discard] does not check the sender: in a
    Playable round it throws, otherwise it is answered with a notice. And
    [cards] and [play] throw whoever sends them. *)
Theorem strangers_do_not_control (cfg : Config) (cardList : list Card)
    (limitConfig : option Z) (fuel : nat) (now : Z) (rs : list nat) (cmdArgs : list Z)
    (m : Message) (s : Games.t) (g : Game) :
  Games.game s = Some g ->
  let run := Games.run cfg cardList limitConfig fuel now rs cmdArgs in
  run Games.Cards m s = Crash /\
  run Games.Play m s = Crash /\
  run Games.Start m s = Ok (Games.notify (m_channel m) NAlreadyRunning s) /\
  (getPlayer (m_nick m) (m_host m) g = None ->
   (forall c, c ∈ [Games.Stop; Games.Pause; Games.Resume; Games.Quit; Games.Winner;
                   Games.Pick] -> run c m s = Ok s) /\
   run Games.Discard m s =
     if State_eqb (state g) Playable then Crash
     else Ok (Games.notify (m_channel m) NDiscardUnavailable s)).
Proof.
  intros Hg run. subst run. cbn [Games.run].
  unfold Games.cards, Games.play, Games.start. rewrite Hg.
  split; [reflexivity|]. split; [reflexivity|]. split; [reflexivity|].
  intros Hget. split.
  - intros c Hc.
    repeat (apply elem_of_cons in Hc as [->|Hc];
            [cbn [Games.run];
             unfold Games.stop, Games.pause, Games.resume, Games.quit, Games.winner,
               Games.pick; rewrite Hg, Hget; reflexivity|]).
    inversion Hc.
  - unfold Games.discard. rewrite Hg, Hget. reflexivity.
Qed.

(** During the first round dee, who has not joined, tries to stop the game
    and then to discard. *)
Lemma strangers_do_not_control_witness :
  Games.run exampleConfig exampleCards None 6 0 [] [] Games.Stop deeSays duringRound1
    = Ok duringRound1 /\
  Games.run exampleConfig exampleCards None 6 0 [] [] Games.Discard deeSays duringRound1
    = Crash.
Proof.
  assert (Hget : getPlayer (m_nick deeSays) (m_host deeSays) round1 = None)
    by (vm_compute; reflexivity).
  destruct (strangers_do_not_control exampleConfig exampleCards None 6 0 [] [] deeSays
              duringRound1 round1 eq_refl) as (_ & _ & _ & H).
  destruct (H Hget) as [Hc Hd]. split.
  - apply Hc. apply list_elem_of_here.
  - rewrite Hd, round1_state. reflexivity.
Defined.

(** ** Dealing from a deck that runs out (deal, checkDecks) *)

Lemma dealN_short k p : forall g,
  (length (decks_answer g) + length (discards_answer g) < k)%nat -> dealN k p g = Crash.
Proof.
  induction k as [|k IH]; intros g Hk; [lia|].
  change (dealN (S k) p g) with (g1 ← dealOne p g; dealN k p g1).
  destruct (checkDecks_answer_total g) as (Htot & _ & _).
  unfold dealOne.
  destruct (decks_answer (checkDecks g)) as [|c rest] eqn:Ed; [reflexivity|].
  cbn [drawCard]. rewrite bind_Ok. apply IH. cbn. cbn in Htot. lia.
Qed.

(** X20. Dealing a player up to [n] cards succeeds exactly when the answer
    deck and its discard pile together hold the missing cards; when they do
    not, the deal throws. *)
Theorem deal_succeeds_iff_enough_cards (p : pid) (n : nat) (g : Game) :
  let missing := (n - length (hand g p))%nat in
  let stock := (length (decks_answer g) + length (discards_answer g))%nat in
  ((missing <= stock)%nat ->
   exists g', deal (Some p) (Some n) g = Ok g' /\
     length (hand g' p) = Nat.max n (length (hand g p)) /\
     (length (decks_answer g') + length (discards_answer g') = stock - missing)%nat) /\
  ((stock < missing)%nat -> deal (Some p) (Some n) g = Crash).
Proof.
  intros missing stock. cbn [deal]. unfold numCards. fold missing. split.
  - intros Hk. destruct (dealN_enough missing p g Hk) as (g' & new & Hrun & Hh & Hl & _).
    exists g'. split; [exact Hrun|]. split.
    + rewrite Hh, length_app, Hl. subst missing. lia.
    + destruct (dealN_spec missing p g g' Hrun) as (new' & _ & Hl' & _ & Hs & _).
      apply Permutation_length in Hs. unfold answerStock in Hs.
      rewrite !length_app in Hs. subst stock. lia.
  - intros Hk. apply dealN_short. exact Hk.
Qed.

(** In the second round the answer deck holds ten cards: cy can be dealt two
    more. *)
Lemma deal_succeeds_iff_enough_cards_witness :
  exists g', deal (Some 2%nat) (Some 12%nat) round2 = Ok g' /\
    length (hand g' 2%nat) = 12%nat.
Proof.
  assert (Hh : length (hand round2 2%nat) = 10%nat) by (vm_compute; reflexivity).
  assert (Hk : (length (decks_answer round2) + length (discards_answer round2) = 10)%nat)
    by (vm_compute; reflexivity).
  destruct (deal_succeeds_iff_enough_cards 2%nat 12%nat round2) as [H _].
  destruct H as (g' & Hrun & Hlen & _).
  - rewrite Hh, Hk. cbn. lia.
  - exists g'. split; [exact Hrun|]. rewrite Hlen, Hh. reflexivity.
Defined.

(** ** The player who completes a waiting game (addPlayer, nextRound) *)

Lemma nextRound_with_three now g g' :
  (3 <= length (players g))%nat -> nextRound now g = Ok g' ->
  state g' = Stopped \/
  (state g' = Playable /\ round g' = round g + 1 /\ players g' = players g /\
   is_Some (table_question g')).
Proof.
  intros H3 H. destruct (nextRound_cases now g g' H) as [H1|[H1|H1]].
  - left. apply H1.
  - exfalso. destruct H1 as (Hw & _). revert H Hw. unfold nextRound.
    destruct (if 0 <? pointLimit _ then _ else None).
    { intros H Hw. apply Ok_inj in H. subst g'. rewrite state_stop in Hw. discriminate Hw. }
    change (players (set_stopTimeout false g)) with (players g).
    destruct (Nat.ltb_spec (length (players g)) 3) as [Hlt|Hge]; [lia|].
    intros H Hw. apply bind_inv in H as (gc & _ & H). apply bind_inv in H as (gd & _ & H).
    apply bind_inv in H as (gq & _ & H). apply Ok_inj in H. subst g'. discriminate Hw.
  - right. destruct H1 as (Hs & _ & Hr & Hq & gc & _ & _ & HL & _).
    split; [exact Hs|]. split; [exact Hr|]. split; [|exact Hq].
    unfold ledgerView in HL. congruence.
Qed.

(** X21. A player who is admitted to a game that waits for players starts
    the round at once when the roster reaches three: the session is then
    Playable in the next round with the newcomer on the roster and a prompt
    on the table (or Stopped, if a roster player has the points of the
    limit); with fewer than three players it keeps waiting and only announces
    the newcomer. *)
Theorem third_player_starts_round (now : Z) (p : pid) (g : Game) :
  let n := nick (heap g p) in
  let h := hostname (heap g p) in
  state g = Waiting ->
  getPlayer n h g = None ->
  find (sameIdentity n h) (gpoints g) = None ->
  forall r g', addPlayer now p g = Ok (r, g') ->
    r = Some p /\
    ((length (players g) < 2)%nat ->
       state g' = Waiting /\ players g' = players g ++ [p] /\ round g' = round g /\
       out g' = out g ++ [Say (MJoined n)]) /\
    ((2 <= length (players g))%nat ->
       state g' = Stopped \/
       (state g' = Playable /\ round g' = round g + 1 /\
        players g' = players g ++ [p] /\ is_Some (table_question g'))).
Proof.
  intros n h Hs Hget Hfind r g' H. revert H. unfold addPlayer. fold n h.
  rewrite Hget, Hfind. intros H. apply bind_inv in H as (g3 & Hn & H). injection H as <- <-.
  split; [reflexivity|].
  set (g2 := say (MJoined n) (set_players _ _)) in Hn.
  assert (H2 : state g2 = Waiting /\ players g2 = players g ++ [p] /\ round g2 = round g /\
               out g2 = out g ++ [Say (MJoined n)]).
  { subst g2. repeat split. exact Hs. }
  destruct H2 as (Hs2 & Hp2 & Hr2 & Ho2).
  rewrite Hs2, Hp2, length_app in Hn. cbn [State_eqb andb length] in Hn.
  split.
  - intros Hlt. destruct (Nat.leb_spec 3 (length (players g) + 1)); [lia|].
    apply Ok_inj in Hn. subst g3. repeat split; assumption.
  - intros Hge. destruct (Nat.leb_spec 3 (length (players g) + 1)); [|lia].
    destruct (nextRound_with_three now g2 g3) as [Hst|(Hst & Hr & Hpl & Hq)].
    + rewrite Hp2, length_app. cbn. lia.
    + exact Hn.
    + left. exact Hst.
    + right. split; [exact Hst|]. split; [rewrite Hr, Hr2; reflexivity|].
      split; [rewrite Hpl; exact Hp2|exact Hq].
Qed.

(** ann and bob wait for a third player; cy joins and the first round
    starts. *)
Lemma third_player_starts_round_witness :
  exists g', addPlayer 2000 2%nat waiting2 = Ok (Some 2%nat, g') /\
    (state g' = Stopped \/
     (state g' = Playable /\ round g' = round waiting2 + 1 /\
      players g' = players waiting2 ++ [2%nat] /\ is_Some (table_question g'))).
Proof.
  assert (Hs : state waiting2 = Waiting) by (vm_compute; reflexivity).
  assert (Hget : getPlayer (nick (heap waiting2 2%nat)) (hostname (heap waiting2 2%nat))
                   waiting2 = None) by (vm_compute; reflexivity).
  assert (Hf : find (sameIdentity (nick (heap waiting2 2%nat))
                       (hostname (heap waiting2 2%nat))) (gpoints waiting2) = None)
    by (vm_compute; reflexivity).
  assert (Hlen : (2 <= length (players waiting2))%nat) by (vm_compute; lia).
  assert (Hok : isOk (addPlayer 2000 2%nat waiting2) = true) by (vm_compute; reflexivity).
  destruct (addPlayer 2000 2%nat waiting2) as [[r g']| |] eqn:Hrun;
    [|discriminate Hok|discriminate Hok].
  destruct (third_player_starts_round 2000 2%nat waiting2 Hs Hget Hf r g' Hrun)
    as (-> & _ & H).
  exists g'. split; [reflexivity|exact (H Hlen)].
Defined.
